(** * Ubuntu autoinstall ISO builder: boot-config patch engine and image rebuild

    A shallow embedding of [ubuntu-autoinstall-generator.py]
    (class [UbuntuISOBuilder]) and the properties of its boot-config patch
    rules, its config patcher, its mastering command and its build
    sequence.

    Texts are Python [str] values: lists of Unicode code points.  The regular
    expressions of the program are values of a small regex syntax, run by a
    backtracking matcher that follows Python's [re] module (leftmost match,
    greedy repetition, ordered alternation, [$] under [re.MULTILINE]), and
    [re.sub] is the left-to-right replacement of non-overlapping matches. *)

From Stdlib Require Import ZArith NArith List String Ascii Bool Lia.
From stdpp Require Import base option list gmap.

Local Open Scope N_scope.
Local Open Scope list_scope.

(** ** Texts *)

Definition char := N.
Definition text := list char.

(** The code points of a literal (ASCII) string. *)
Fixpoint s2t (s : string) : text :=
  match s with
  | EmptyString => []
  | String a s' => N_of_ascii a :: s2t s'
  end.

(** What [\s] matches in a [str] pattern: the code points for which
    [str.isspace] holds. *)
Definition is_space (c : char) : bool :=
  ((9 <=? c) && (c <=? 13)) || ((28 <=? c) && (c <=? 32))
  || (c =? 133) || (c =? 160) || (c =? 5760)
  || ((8192 <=? c) && (c <=? 8202))
  || (c =? 8232) || (c =? 8233) || (c =? 8239) || (c =? 8287) || (c =? 12288).

Definition newline : char := 10.
Definition space : char := 32.

(** ** Regular expressions *)

(** One-character items, the only things the program's patterns repeat. *)
Inductive atom :=
| AChr (c : char)      (* a literal character *)
| ASpc.                (* \s *)

Definition atom_ok (a : atom) (c : char) : bool :=
  match a with
  | AChr x => c =? x
  | ASpc => is_space c
  end.

Inductive regex :=
| Eps
| Atom (a : atom)
| Eol                          (* $ with re.MULTILINE *)
| Cat (r1 r2 : regex)
| Alt (r1 r2 : regex)          (* r1|r2, r1 tried first *)
| Opt (r : regex)              (* (?:r)?, greedy *)
| Star (a : atom)              (* a*, greedy *)
| Plus (a : atom)              (* a+, greedy *)
| Grp (n : nat) (r : regex).   (* capturing group number n *)

(** A literal string, and a sequence of regexes. *)
Fixpoint lit (s : text) : regex :=
  match s with
  | [] => Eps
  | c :: s' => Cat (Atom (AChr c)) (lit s')
  end.

Fixpoint cat (rs : list regex) : regex :=
  match rs with
  | [] => Eps
  | r :: rs' => Cat r (cat rs')
  end.

(** Captured groups: the most recent capture of a group comes first. *)
Definition captures := list (nat * text).

Fixpoint group (n : nat) (caps : captures) : text :=
  match caps with
  | [] => []
  | (i, t) :: caps' => if Nat.eqb i n then t else group n caps'
  end.

(** [$] under MULTILINE: at the end of the text or just before a newline. *)
Definition at_eol (s : text) : bool :=
  match s with
  | [] => true
  | c :: _ => c =? newline
  end.

(** Greedy repetition of an atom: the longest run first, then shorter ones. *)
Fixpoint star {A} (a : atom) (s : text) (k : text -> option A) : option A :=
  match s with
  | c :: s' =>
      if atom_ok a c
      then match star a s' k with
           | Some res => Some res
           | None => k s
           end
      else k s
  | [] => k []
  end.

(** The backtracking matcher, in continuation-passing style: [k] is the rest
    of the pattern, and a [None] from it makes the matcher try its next
    choice. *)
Fixpoint rx {A} (r : regex) (s : text) (caps : captures)
    (k : text -> captures -> option A) : option A :=
  match r with
  | Eps => k s caps
  | Atom a =>
      match s with
      | c :: s' => if atom_ok a c then k s' caps else None
      | [] => None
      end
  | Eol => if at_eol s then k s caps else None
  | Cat r1 r2 => rx r1 s caps (fun s' caps' => rx r2 s' caps' k)
  | Alt r1 r2 =>
      match rx r1 s caps k with
      | Some res => Some res
      | None => rx r2 s caps k
      end
  | Opt r1 =>
      match rx r1 s caps k with
      | Some res => Some res
      | None => k s caps
      end
  | Star a => star a s (fun s' => k s' caps)
  | Plus a =>
      match s with
      | c :: s' => if atom_ok a c then star a s' (fun s' => k s' caps) else None
      | [] => None
      end
  | Grp n r1 =>
      rx r1 s caps
        (fun s' caps' => k s' ((n, take (length s - length s') s) :: caps'))
  end.

(** A match of [r] at the start of [s]: what is left of [s] after the match,
    and the groups.  With [must_advance] an empty match is refused (the
    matcher backtracks), as [re.sub] asks right after an empty match. *)
Definition rmatch (r : regex) (s : text) (must_advance : bool)
    : option (text * captures) :=
  rx r s []
    (fun s' caps =>
       if must_advance && (length s' =? length s)%nat then None
       else Some (s', caps)).

(** ** Replacement templates and [re.sub] *)

Inductive titem :=
| TLit (c : char)      (* a literal character *)
| TGrp (n : nat).      (* \n: the text of group n *)

Definition template := list titem.

Definition tlit (s : text) : template := map TLit s.

Fixpoint expand (t : template) (caps : captures) : text :=
  match t with
  | [] => []
  | TLit c :: t' => c :: expand t' caps
  | TGrp n :: t' => group n caps ++ expand t' caps
  end.

(** [sub_go r t s skip]: [s] is what is left of the text and [skip] the
    number of its characters the last match still covers. *)
Fixpoint sub_go (r : regex) (t : template) (s : text) (skip : nat) : text :=
  match s with
  | [] =>
      match skip with
      | O =>
          match rmatch r [] false with
          | Some (_, caps) => expand t caps
          | None => []
          end
      | S _ => []
      end
  | c :: s' =>
      match skip with
      | S n => sub_go r t s' n
      | O =>
          match rmatch r s false with
          | Some (rest, caps) =>
              expand t caps ++
              match (length s - length rest)%nat with
              | S n => sub_go r t s' n
              | O =>
                  (* an empty match: the next one at this place must advance *)
                  match rmatch r s true with
                  | Some (rest', caps') =>
                      expand t caps' ++
                      sub_go r t s' (length s - length rest' - 1)
                  | None => c :: sub_go r t s' 0
                  end
              end
          | None => c :: sub_go r t s' 0
          end
      end
  end.

(** [re.sub(pattern, replacement, content, flags=re.MULTILINE)]. *)
Definition re_sub (r : regex) (t : template) (content : text) : text :=
  sub_go r t content 0.

(** ** The pattern library ([UbuntuISOBuilder.__init__]) *)

(** [f"{http_port}"] for an [int]. *)
Fixpoint digits (d : Decimal.uint) : text :=
  match d with
  | Decimal.Nil => []
  | Decimal.D0 d' => 48 :: digits d'
  | Decimal.D1 d' => 49 :: digits d'
  | Decimal.D2 d' => 50 :: digits d'
  | Decimal.D3 d' => 51 :: digits d'
  | Decimal.D4 d' => 52 :: digits d'
  | Decimal.D5 d' => 53 :: digits d'
  | Decimal.D6 d' => 54 :: digits d'
  | Decimal.D7 d' => 55 :: digits d'
  | Decimal.D8 d' => 56 :: digits d'
  | Decimal.D9 d' => 57 :: digits d'
  end.

Definition str_int (z : Z) : text :=
  match Z.to_int z with
  | Decimal.Pos d => digits d
  | Decimal.Neg d => 45 :: digits d
  end.

(** [(append\s+)] *)
Definition append_re : regex := Grp 1 (cat [lit (s2t "append"); Plus ASpc]).

Section Endpoint.

Variable http_ip : text.
Variable http_port : Z.

(** [self.autoinstall_params] *)
Definition autoinstall_params : text :=
  s2t "autoinstall ds=nocloud-net;s=http://" ++ http_ip ++ s2t ":"
  ++ str_int http_port ++ s2t "/".

(** [(kw\s+/casper/(?:hwe-)?vmlinuz)(\s+---\s+|\s*$)] *)
Definition kernel_re (kw : text) : regex :=
  Cat
    (Grp 1 (cat [lit kw; Plus ASpc; lit (s2t "/casper/");
                 Opt (lit (s2t "hwe-")); lit (s2t "vmlinuz")]))
    (Grp 2 (Alt (cat [Plus ASpc; lit (s2t "---"); Plus ASpc])
                (cat [Star ASpc; Eol]))).

(** [rf'\1 {self.autoinstall_params}\2'], as [re] reads it when the address
    holds no backslash: group 1, a space, the parameters, group 2. *)
Definition kernel_repl : template :=
  [TGrp 1; TLit space] ++ tlit autoinstall_params ++ [TGrp 2].

Definition grub_patterns : list (regex * template) :=
  [ (kernel_re (s2t "linux"), kernel_repl);
    (kernel_re (s2t "linuxefi"), kernel_repl) ].

(** [(r'(append\s+)', rf'\1{self.autoinstall_params} ')] *)
Definition isolinux_pattern : regex * template :=
  (append_re, [TGrp 1] ++ tlit autoinstall_params ++ [TLit space]).

End Endpoint.

(** ** The text transformation of [modify_file_with_patterns] *)

(** [for pattern, replacement in patterns: content = re.sub(...)] *)
Definition apply_patterns (patterns : list (regex * template)) (content : text)
    : text :=
  fold_left (fun c p => re_sub (fst p) (snd p) c) patterns content.

(** [re.sub(r'  +', ' ', content)] *)
Definition spaces_re : regex := Cat (Atom (AChr space)) (Plus (AChr space)).

Definition clean_spaces (content : text) : text :=
  re_sub spaces_re (tlit [space]) content.

(** The rules, then the clean-up of multiple spaces. *)
Definition patch_text (patterns : list (regex * template)) (content : text)
    : text :=
  clean_spaces (apply_patterns patterns content).

(** ** Files, external commands and exceptions *)

(** A path is the text [str(path)]; [p / name] joins with a slash. *)
Definition pjoin (p : text) (name : string) : text := p ++ s2t "/" ++ s2t name.

(** A file holds the text that [read_text(errors='ignore')] returns for it,
    its size in bytes and whether it may be written. *)
Inductive node :=
| File (content : text) (st_size : Z) (writable : bool)
| Dir.

Inductive failure :=
| MissingTools | ExtractionFailed | ExtractionTimedOut | BootInfoFailed
| CreationFailed | OutputNotCreated | OutputTooSmall | CreationTimedOut.

Inductive exn :=
| FileNotFoundError | IsADirectoryError | PermissionError | FileExistsError
| UnicodeEncodeError | ValueError
| RuntimeError (why : failure).

(** What [subprocess.run] gives: a completed process, or a timeout. *)
Inductive outcome :=
| Completed (returncode : Z) (stdout stderr : text)
| TimedOut.

(** The world: the file system and the external commands run so far. *)
Record world := World {
  files : gmap text node;
  calls : list (list text)
}.

(** Computations that change the world and may raise. *)
Definition M (A : Type) : Type := world -> (exn + A) * world.

Definition ret {A} (a : A) : M A := fun w => (inr a, w).

Definition raise {A} (e : exn) : M A := fun w => (inl e, w).

Definition bind {A B} (c : M A) (f : A -> M B) : M B :=
  fun w =>
    match c w with
    | (inl e, w') => (inl e, w')
    | (inr a, w') => f a w'
    end.

(** [try: c except Exception: h] *)
Definition catch {A} (c : M A) (h : exn -> M A) : M A :=
  fun w =>
    match c w with
    | (inl e, w') => h e w'
    | (inr a, w') => (inr a, w')
    end.

#[global] Instance M_ret : MRet M := @ret.
#[global] Instance M_bind : MBind M := fun A B f c => bind c f.

(** [path.exists()] *)
Definition path_exists (p : text) : M bool :=
  fun w => (inr (bool_decide (is_Some (files w !! p))), w).

(** [path.read_text(...)] *)
Definition read_text (p : text) : M text :=
  fun w =>
    match files w !! p with
    | Some (File content _ _) => (inr content, w)
    | Some Dir => (inl IsADirectoryError, w)
    | None => (inl FileNotFoundError, w)
    end.

(** The number of bytes of the UTF-8 encoding. *)
Definition utf8_bytes (c : char) : Z :=
  if c <? 128 then 1%Z else if c <? 2048 then 2%Z
  else if c <? 65536 then 3%Z else 4%Z.

Definition utf8_len (content : text) : Z :=
  fold_right (fun c n => (utf8_bytes c + n)%Z) 0%Z content.

Definition is_surrogate (c : char) : bool := (55296 <=? c) && (c <=? 57343).

(** [path.write_text(content, encoding='utf-8')]: the file is opened with
    mode ['w'] first, which empties or creates it, and the text is encoded
    when it is written; so a text that cannot be encoded leaves an empty
    file behind. *)
Definition write_text (p : text) (content : text) : M unit :=
  fun w =>
    match files w !! p with
    | Some Dir => (inl IsADirectoryError, w)
    | Some (File _ _ false) => (inl PermissionError, w)
    | Some (File _ _ true) | None =>
        if existsb is_surrogate content
        then (inl UnicodeEncodeError,
              World (<[p := File [] 0 true]> (files w)) (calls w))
        else (inr tt,
              World (<[p := File content (utf8_len content) true]> (files w))
                    (calls w))
    end.

(** The size that [stat] reports: for a directory, that of one block. *)
Definition node_size (n : node) : Z :=
  match n with
  | File _ size _ => size
  | Dir => 4096
  end.

(** [path.stat().st_size] *)
Definition stat_size (p : text) : M Z :=
  fun w =>
    match files w !! p with
    | Some n => (inr (node_size n), w)
    | None => (inl FileNotFoundError, w)
    end.

Definition text_eqb (a b : text) : bool := bool_decide (a = b).

(** [str.strip()] *)
Fixpoint lstrip (s : text) : text :=
  match s with
  | c :: s' => if is_space c then lstrip s' else s
  | [] => []
  end.

Definition strip (s : text) : text := rev (lstrip (rev (lstrip s))).

(** [needle in haystack] for two [str]. *)
Fixpoint contains (needle haystack : text) : bool :=
  bool_decide (needle `prefix_of` haystack)
  || match haystack with
     | [] => false
     | _ :: h' => contains needle h'
     end.

(** ** The builder ([class UbuntuISOBuilder]) *)

Section Builder.

(** The fields of the builder; [work_dir] is the directory that [__enter__]
    made, and [iso_dir] is [work_dir / "iso"]. *)
Variable source_iso output_iso : text.
Variable http_ip : text.
Variable http_port : Z.
Variable work_dir : text.

(** The environment: [shutil.which], [subprocess.run] (what a command does to
    the files and what it reports), [shlex.split] ([None] when it raises
    [ValueError]) and [re.search(r'(\d{2}\.\d{2})', content)], whose [\d] is
    the table of decimal digits of the Unicode database. *)
Variable which : text -> bool.
Variable subprocess_run : list text -> gmap text node -> outcome * gmap text node.
Variable shlex_split : text -> option (list text).
Variable search_version : text -> option text.

Definition iso_dir : text := pjoin work_dir "iso".

Definition run (cmd : list text) : M outcome :=
  fun w =>
    let '(o, f) := subprocess_run cmd (files w) in
    (inr o, World f (calls w ++ [cmd])).

Definition check_dependencies : M unit :=
  let required := [s2t "xorriso"] in
  let missing := List.filter (fun tool => negb (which tool)) required in
  match missing with
  | [] => mret tt
  | _ :: _ => raise (RuntimeError MissingTools)
  end.

Definition unknown : text := s2t "Unknown".

(** The three reporting commands run on the source image. *)
Definition version_cmd : list text :=
  [s2t "xorriso"; s2t "-osirrox"; s2t "on"; s2t "-indev"; source_iso;
   s2t "-extract"; s2t "/.disk/info"; pjoin work_dir "info.txt"].

Definition format_cmd : list text :=
  [s2t "xorriso"; s2t "-indev"; source_iso; s2t "-find"; s2t "/"; s2t "-type";
   s2t "f"].

Definition report_cmd : list text :=
  [s2t "xorriso"; s2t "-indev"; source_iso; s2t "-report_el_torito";
   s2t "as_mkisofs"].

Definition detect_version : M text :=
  catch
    (result ← run version_cmd;
     match result with
     | TimedOut => mret unknown
     | Completed returncode _ _ =>
         if (returncode =? 0)%Z then
           present ← path_exists (pjoin work_dir "info.txt");
           if (present : bool) then
             content ← read_text (pjoin work_dir "info.txt");
             match search_version content with
             | Some version => mret version
             | None => mret unknown
             end
           else mret unknown
         else mret unknown
     end)
    (fun _ => mret unknown).

Definition detect_format : M text :=
  catch
    (result ← run format_cmd;
     match result with
     | TimedOut => mret unknown
     | Completed returncode stdout _ =>
         if (returncode =? 0)%Z then
           if contains (s2t "casper/vmlinuz") stdout then mret (s2t "Live Server")
           else if contains (s2t "boot/grub") stdout then mret (s2t "GRUB EFI")
           else if contains (s2t "1-Boot-NoEmul.img") stdout
                then mret (s2t "Legacy Boot")
                else mret unknown
         else mret unknown
     end)
    (fun _ => mret unknown).

Definition validate_iso : M (text * text) :=
  present ← path_exists source_iso;
  if negb present then raise FileNotFoundError
  else
    version ← detect_version;
    iso_format ← detect_format;
    mret (version, iso_format).

(** [iso_dir.mkdir(parents=True, exist_ok=True)] *)
Definition mkdir (p : text) : M unit :=
  fun w =>
    match files w !! p with
    | Some (File _ _ _) => (inl FileExistsError, w)
    | Some Dir | None => (inr tt, World (<[p := Dir]> (files w)) (calls w))
    end.

(** The [os.walk] loop of [extract_iso]: what is under [root] gets the modes
    0o755 and 0o644, so every file there may be written. *)
Definition chmod_tree (root : text) : M unit :=
  fun w =>
    (inr tt,
     World
       (map_imap
          (fun p n =>
             Some match n with
                  | File content size _ =>
                      if bool_decide ((root ++ s2t "/") `prefix_of` p)
                      then File content size true else n
                  | Dir => Dir
                  end)
          (files w))
       (calls w)).

Definition extract_iso : M unit :=
  mkdir iso_dir;;
  result ← run [s2t "xorriso"; s2t "-osirrox"; s2t "on"; s2t "-indev";
                source_iso; s2t "-extract"; s2t "/"; iso_dir];
  match result with
  | TimedOut => raise (RuntimeError ExtractionTimedOut)
  | Completed returncode _ _ =>
      if negb (returncode =? 0)%Z then raise (RuntimeError ExtractionFailed)
      else chmod_tree iso_dir
  end.

(** [file_path.with_suffix(file_path.suffix + '.bak')] *)
Definition backup_path (file_path : text) : text := file_path ++ s2t ".bak".

Definition modify_file_with_patterns (file_path : text)
    (patterns : list (regex * template)) : M bool :=
  present ← path_exists file_path;
  if negb present then mret false
  else
    catch
      (content ← read_text file_path;
       let original_content := content in
       let content := apply_patterns patterns content in
       let content := clean_spaces content in
       if negb (text_eqb content original_content) then
         write_text (backup_path file_path) original_content;;
         write_text file_path content;;
         mret true
       else mret false)
      (fun _ => mret false).

Definition grub_configs : list text :=
  [ pjoin (pjoin (pjoin iso_dir "boot") "grub") "grub.cfg";
    pjoin (pjoin (pjoin iso_dir "EFI") "BOOT") "grub.cfg";
    pjoin (pjoin (pjoin iso_dir "boot") "grub") "loopback.cfg" ].

Definition isolinux_configs : list text :=
  [ pjoin (pjoin iso_dir "isolinux") "isolinux.cfg";
    pjoin (pjoin iso_dir "isolinux") "txt.cfg";
    pjoin (pjoin iso_dir "syslinux") "isolinux.cfg";
    pjoin (pjoin iso_dir "syslinux") "txt.cfg" ].

(** One [for config_file in ...] loop of [modify_boot_configs]. *)
Fixpoint modify_each (configs : list text) (patterns : list (regex * template))
    (modified_count : nat) : M nat :=
  match configs with
  | [] => mret modified_count
  | config_file :: configs' =>
      modified ← modify_file_with_patterns config_file patterns;
      modify_each configs' patterns
        (if (modified : bool) then S modified_count else modified_count)
  end.

(** [modify_boot_configs]; the result is the [modified_count] it logs. *)
Definition modify_boot_configs : M nat :=
  modified_count ← modify_each grub_configs (grub_patterns http_ip http_port) 0;
  modify_each isolinux_configs [isolinux_pattern http_ip http_port]
    modified_count.

(** Step 1 of [create_iso]: the boot arguments of the source image. *)
Definition boot_info : M (list text) :=
  result ← run report_cmd;
  match result with
  | TimedOut => raise (RuntimeError BootInfoFailed)
  | Completed returncode stdout _ =>
      if negb (returncode =? 0)%Z then raise (RuntimeError BootInfoFailed)
      else
        match shlex_split (strip stdout) with
        | Some boot_args => mret boot_args
        | None => raise ValueError
        end
  end.

(** Step 2 of [create_iso]: [cmd], after [extend] and [append]. *)
Definition mastering_cmd (boot_args : list text) : list text :=
  ([s2t "xorriso"; s2t "-as"; s2t "mkisofs"; s2t "-r"; s2t "-o"; output_iso]
   ++ boot_args) ++ [iso_dir].

(** [size_mb = st_size / (1024 * 1024)] and [size_mb < 1]: the division by a
    power of two is exact below it and at least 1 from it on, so the test is
    [st_size < 1048576]. *)
Definition create_iso : M unit :=
  boot_args ← boot_info;
  result ← run (mastering_cmd boot_args);
  match result with
  | TimedOut => raise (RuntimeError CreationTimedOut)
  | Completed returncode _ _ =>
      if negb (returncode =? 0)%Z then raise (RuntimeError CreationFailed)
      else
        present ← path_exists output_iso;
        if negb present then raise (RuntimeError OutputNotCreated)
        else
          st_size ← stat_size output_iso;
          if (st_size <? 1048576)%Z then raise (RuntimeError OutputTooSmall)
          else mret tt
  end.

Definition build (validate_only : bool) : M unit :=
  check_dependencies;;
  validate_iso;;
  if validate_only then mret tt
  else
    present ← path_exists output_iso;
    if (present : bool) then mret tt
    else
      extract_iso;;
      modify_boot_configs;;
      create_iso.

End Builder.

(** * The vocabulary of the properties *)

(** Declarative meaning of a regex: [sem r u rest c c'] says that [r] can
    match [u] when [rest] follows, taking the captures from [c] to [c']. *)
Fixpoint sem (r : regex) (u rest : text) (c c' : captures) : Prop :=
  match r with
  | Eps => u = [] ∧ c' = c
  | Atom a => ∃ x, u = [x] ∧ atom_ok a x = true ∧ c' = c
  | Eol => u = [] ∧ at_eol rest = true ∧ c' = c
  | Cat r1 r2 =>
      ∃ u1 u2 c1, u = u1 ++ u2 ∧ sem r1 u1 (u2 ++ rest) c c1 ∧ sem r2 u2 rest c1 c'
  | Alt r1 r2 => sem r1 u rest c c' ∨ sem r2 u rest c c'
  | Opt r1 => sem r1 u rest c c' ∨ (u = [] ∧ c' = c)
  | Star a => Forall (fun x => atom_ok a x = true) u ∧ c' = c
  | Plus a => u ≠ [] ∧ Forall (fun x => atom_ok a x = true) u ∧ c' = c
  | Grp n r1 => ∃ c1, sem r1 u rest c c1 ∧ c' = (n, u) :: c1
  end.

(** A regex that never matches the empty text. *)
Definition nonempty (r : regex) : Prop :=
  forall u rest c c', sem r u rest c c' -> u ≠ [].

(** A run of white space. *)
Definition spaces (w : text) : Prop := Forall (fun x => is_space x = true) w.

(** What group 1 of a kernel pattern can capture: [kw], white space [w], and
    the kernel path, with [hwe-] or without. *)
Definition kernel_line (kw w hwe : text) : text :=
  kw ++ w ++ s2t "/casper/" ++ hwe ++ s2t "vmlinuz".

(** What group 2 of a kernel pattern can capture when [rest] follows:
    [\s+---\s+], or [\s*] before the end of a line. *)
Inductive sep : text -> text -> Prop :=
| sep_dashes w2 w3 rest :
    w2 ≠ [] -> spaces w2 -> w3 ≠ [] -> spaces w3 ->
    sep (w2 ++ s2t "---" ++ w3) rest
| sep_eol w rest : spaces w -> at_eol rest = true -> sep w rest.

(** [(?:hwe-)?] *)
Definition hwe_ok (hwe : text) : Prop := hwe = [] ∨ hwe = s2t "hwe-".

(** The kernel pattern for keyword [kw] matches at the start of [y]. *)
Definition hit (kw y : text) : Prop :=
  ∃ w hwe g2 rest,
    y = kernel_line kw w hwe ++ g2 ++ rest ∧
    w ≠ [] ∧ spaces w ∧ hwe_ok hwe ∧ sep g2 rest.

(** The keywords of the two GRUB rules. *)
Definition kw_ok (kw : text) : Prop := kw = s2t "linux" ∨ kw = s2t "linuxefi".

(** [ins i x o]: [o] is [x] with copies of [i] put in after some of its
    letters [z]. *)
Inductive ins (i : text) : text -> text -> Prop :=
| ins_nil : ins i [] []
| ins_keep c x o : ins i x o -> ins i (c :: x) (c :: o)
| ins_z x o : ins i x o -> ins i (122 :: x) (122 :: i ++ o).

(** All the suffixes of a text. *)
Fixpoint tails (s : text) : list text :=
  match s with
  | [] => [[]]
  | _ :: s' => s :: tails s'
  end.

(** [may_start p g]: [g], with a suitable text after it, can start with [p]. *)
Fixpoint may_start (p g : text) : bool :=
  match p, g with
  | a :: p', b :: g' => (a =? b) && may_start p' g'
  | _, _ => true
  end.

(** Every run of two or more spaces becomes one space. *)
Fixpoint squeeze (s : text) : text :=
  match s with
  | [] => []
  | c :: s' =>
      match s' with
      | c' :: _ => if (c =? space) && (c' =? space) then squeeze s' else c :: squeeze s'
      | [] => [c]
      end
  end.

(** Without its leading spaces. *)
Fixpoint skip_spaces (s : text) : text :=
  match s with
  | c :: s' => if c =? space then skip_spaces s' else s
  | [] => []
  end.

(** A text without white space. *)
Definition no_space (s : text) : Prop := Forall (fun c => is_space c = false) s.

(** The words of a text: its maximal runs of characters that are not white
    space. *)
Fixpoint words (s : text) : list text :=
  match s with
  | [] => []
  | c :: s' =>
      if is_space c then words s'
      else
        match s' with
        | [] => [[c]]
        | c' :: _ =>
            if is_space c' then [c] :: words s'
            else
              match words s' with
              | w :: ws => (c :: w) :: ws
              | [] => [[c]]
              end
        end
  end.

(** How often the words [d] come one after the other in [ws]. *)
Fixpoint occurrences (d ws : list text) : nat :=
  (if bool_decide (d `prefix_of` ws) then 1 else 0)
  + match ws with
    | [] => 0
    | _ :: ws' => occurrences d ws'
    end.

(** The rule sets of the two kinds of boot configuration. *)
Inductive dialect := Grub | Isolinux.

Definition rules (d : dialect) (ip : text) (port : Z) : list (regex * template) :=
  match d with
  | Grub => grub_patterns ip port
  | Isolinux => [isolinux_pattern ip port]
  end.

(** What the rules of a dialect put in after the captured keyword. *)
Definition directive_text (d : dialect) (ip : text) (port : Z) : text :=
  match d with
  | Grub => space :: autoinstall_params ip port
  | Isolinux => autoinstall_params ip port ++ [space]
  end.

(** One of the patterns matches at the start of [y]. *)
Definition matches_at (rs : list (regex * template)) (y : text) : bool :=
  existsb (fun p => match rmatch (fst p) y false with
                    | Some _ => true
                    | None => false
                    end) rs.

(** Group 1 of the first pattern that matches at the start of [y]. *)
Fixpoint keyword_at (rs : list (regex * template)) (y : text) : option text :=
  match rs with
  | [] => None
  | p :: rs' =>
      match rmatch (fst p) y false with
      | Some (_, caps) => Some (group 1 caps)
      | None => keyword_at rs' y
      end
  end.

(** The two words of the autoinstall directive. *)
Definition directive_words (ip : text) (port : Z) : list text :=
  [s2t "autoinstall";
   s2t "ds=nocloud-net;s=http://" ++ ip ++ s2t ":" ++ str_int port ++ s2t "/"].

(** [s] without its prefix [p], if it starts with it. *)
Fixpoint strip_prefix (p s : text) : option text :=
  match p, s with
  | [], _ => Some s
  | a :: p', b :: s' => if a =? b then strip_prefix p' s' else None
  | _ :: _, [] => None
  end.

(** Without its leading white space. *)
Fixpoint skip_space (s : text) : text :=
  match s with
  | c :: s' => if is_space c then skip_space s' else s
  | [] => []
  end.

(** What follows a kernel invocation [kw /casper/vmlinuz] or
    [kw /casper/hwe-vmlinuz] at the start of [y], if there is one. *)
Definition kernel_path (kw y : text) : option text :=
  match strip_prefix kw y with
  | None => None
  | Some z1 =>
      let z2 := skip_space z1 in
      if (length z2 =? length z1)%nat then None
      else
        match strip_prefix (s2t "/casper/") z2 with
        | None => None
        | Some z3 =>
            match strip_prefix (s2t "hwe-") z3 with
            | Some z4 => strip_prefix (s2t "vmlinuz") z4
            | None => strip_prefix (s2t "vmlinuz") z3
            end
        end
  end.

(** White space up to the end of the line. *)
Fixpoint skip_blank (s : text) : text :=
  match s with
  | c :: s' => if is_space c && negb (c =? newline) then skip_blank s' else s
  | [] => []
  end.

(** The word at the start of a text. *)
Fixpoint word_at (s : text) : text :=
  match s with
  | c :: s' => if is_space c then [] else c :: word_at s'
  | [] => []
  end.

(** On the line that [z] starts there is a next word, and it is not [---]. *)
Definition other_token (z : text) : bool :=
  let t := word_at (skip_blank z) in
  negb (bool_decide (t = [])) && negb (bool_decide (t = s2t "---")).

(** Every kernel invocation at the start of [y] has another token after it. *)
Definition followed_by_other_token (y : text) : bool :=
  forallb (fun kw => match kernel_path kw y with
                     | Some z => other_token z
                     | None => true
                     end) [s2t "linux"; s2t "linuxefi"].

(** The backup can be written: nothing is in its place, or a file that may
    be written. *)
Definition can_write (n : option node) : bool :=
  match n with
  | None | Some (File _ _ true) => true
  | Some (File _ _ false) | Some Dir => false
  end.

(** What a kernel rule puts in after the kernel line. *)
Definition inserted (ip : text) (port : Z) : text :=
  space :: autoinstall_params ip port.

(** An address that holds no white space and no backslash. *)
Definition plain_host (ip : text) : bool :=
  forallb (fun c => negb (is_space c) && negb (c =? 92)) ip.

(** An environment to run the builder on: the reporting commands fail, but
    for the boot-catalog report, which succeeds with four tokens; mastering
    succeeds and makes a 2 MiB image [out.iso]; the tokens of a report
    without quotes are its words. *)
Definition demo_run (cmd : list text) (fs : gmap text node)
    : outcome * gmap text node :=
  match cmd with
  | _ :: flag :: _ =>
      if bool_decide (flag = s2t "-as")
      then (Completed 0 [] [], <[s2t "out.iso" := File [] 2097152 true]> fs)
      else if bool_decide (s2t "-report_el_torito" ∈ cmd)
           then (Completed 0 (s2t "-V Ubuntu -b boot.img
") [], fs)
           else (Completed 1 [] [], fs)
  | _ => (Completed 1 [] [], fs)
  end.

Definition demo_split (s : text) : option (list text) := Some (words s).

Definition demo_world : world :=
  World {[ s2t "ubuntu.iso" := File [] 1000 true ]} [].

(** ** The vocabulary of the stages and of what a patch keeps *)

(** The command that [extract_iso] runs. *)
Definition extract_cmd (source_iso work_dir : text) : list text :=
  [s2t "xorriso"; s2t "-osirrox"; s2t "on"; s2t "-indev"; source_iso;
   s2t "-extract"; s2t "/"; iso_dir work_dir].

(** [UbuntuISOBuilder.detect_boot_structure]: whether the extracted tree has
    the files of a UEFI boot and of a BIOS boot; [a or b] looks at [b] only
    when [a] is false.  The build does not call it. *)
Definition detect_boot_structure (work_dir : text) : M (bool * bool) :=
  efi_img ← path_exists
              (pjoin (pjoin (pjoin (iso_dir work_dir) "boot") "grub") "efi.img");
  has_uefi ← (if (efi_img : bool) then mret true
              else path_exists
                     (pjoin (pjoin (pjoin (iso_dir work_dir) "EFI") "boot")
                        "bootx64.efi"));
  has_bios ← path_exists
               (pjoin (pjoin (iso_dir work_dir) "isolinux") "isolinux.bin");
  mret (has_uefi, has_bios).

(** The files after the [os.walk] loop of [extract_iso] over [root]. *)
Definition chmodded (root : text) (fs : gmap text node) : gmap text node :=
  files (chmod_tree root (World fs [])).2.

(** The characters of a text that are not the space U+0020. *)
Definition unspaced (s : text) : text :=
  List.filter (fun c => negb (c =? space)) s.

(** The run of characters that are not white space at the start of a text,
    and the text from the end of this run on. *)
Fixpoint first_word (s : text) : text :=
  match s with
  | c :: s' => if is_space c then [] else c :: first_word s'
  | [] => []
  end.

Fixpoint after_word (s : text) : text :=
  match s with
  | c :: s' => if is_space c then s else after_word s'
  | [] => []
  end.

(** [same_words x o]: [o] starts with the same word as [x], and goes on with
    the words of [x] in their order, with other words between them. *)
Definition same_words (x o : text) : Prop :=
  first_word x = first_word o
  ∧ words (after_word x) `sublist_of` words (after_word o).

(** [has_match r x]: the pattern [r] matches somewhere in [x]. *)
Definition has_match (r : regex) (x : text) : Prop :=
  ∃ y, y `suffix_of` x ∧ is_Some (rmatch r y false).

(** An address that a replacement template holds as it stands: one without a
    backslash. *)
Definition literal_host (ip : text) : bool :=
  forallb (fun c => negb (c =? 92)) ip.

(** A config file of an extracted image, and trees that hold it: one where it
    may be written and one where it may not. *)
Definition demo_config : text := s2t "/tmp/w/iso/boot/grub/grub.cfg".

Definition demo_tree (writable : bool) : world :=
  World {[ demo_config := File (s2t "linux /casper/vmlinuz") 21 writable ]} [].

(** An environment where the whole build goes through: as [demo_run], but the
    extraction succeeds and leaves a read-only [grub.cfg]. *)
Definition demo_pipeline (cmd : list text) (fs : gmap text node)
    : outcome * gmap text node :=
  if bool_decide (s2t "-extract" ∈ cmd) && bool_decide (s2t "/" ∈ cmd)
  then (Completed 0 [] [],
        <[demo_config := File (s2t "linux /casper/vmlinuz") 21 false]> fs)
  else demo_run cmd fs.

(** An environment where the inspection finds something: the version command
    leaves an [info.txt], the listing names a kernel of a live server image. *)
Definition demo_inspect (cmd : list text) (fs : gmap text node)
    : outcome * gmap text node :=
  if bool_decide (s2t "-find" ∈ cmd)
  then (Completed 0 (s2t "/casper/vmlinuz") [], fs)
  else (Completed 0 [] [],
        <[s2t "/tmp/w/info.txt" := File (s2t "Ubuntu-Server 22.04") 19 true]> fs).

(** An environment where the mastering fails: the boot-catalog report
    succeeds, every other command exits with status 1. *)
Definition demo_broken (cmd : list text) (fs : gmap text node)
    : outcome * gmap text node :=
  if bool_decide (s2t "-report_el_torito" ∈ cmd)
  then (Completed 0 (s2t "-V Ubuntu") [], fs)
  else (Completed 1 [] [], fs).

(** The build of [out.iso] from [ubuntu.iso] in [/tmp/w], with the tool
    there. *)
Definition demo_build (subprocess_run :
                         list text -> gmap text node -> outcome * gmap text node)
    (validate_only : bool) : M unit :=
  build (s2t "ubuntu.iso") (s2t "out.iso") (s2t "10.0.2.2") 8080 (s2t "/tmp/w")
    (fun _ => true) subprocess_run demo_split (fun _ => None) validate_only.

(** Unfolding of the monad of the builder. *)
(** A text that is empty or ends with a line end: what comes after it starts
    a line.  ([at_eol] says that a text is empty or starts with a line end:
    what comes before it ends a line.) *)
Definition ends_line (s : text) : bool :=
  match last s with
  | Some c => c =? newline
  | None => true
  end.

(** The number of line ends of a text: the number of the line that starts
    after it, counted from 0. *)
Definition line_count (s : text) : nat :=
  length (List.filter (fun c : char => c =? newline) s).

(** [keyword_inside rs y p]: if a pattern matches at the start of [p ++ y],
    for a [p] that is not empty, the captured keyword ends inside [p]. *)
Definition keyword_inside (rs : list (regex * template)) (y p : text) : bool :=
  match p, keyword_at rs (p ++ y) with
  | _ :: _, Some k => (length k <? length p)%nat
  | _, _ => true
  end.

Ltac munfold :=
  unfold mbind, M_bind, bind, mret, M_ret, ret, catch, raise in *.

(** * Properties *)

(** ** The matcher and its declarative meaning *)

Lemma star_sound {A} a s (k : text -> option A) res :
  star a s k = Some res ->
  ∃ u rest, s = u ++ rest ∧ Forall (fun x => atom_ok a x = true) u ∧ k rest = Some res.
Proof.
  induction s as [|x s IH]; simpl; intros H.
  - exists [], []. auto.
  - destruct (atom_ok a x) eqn:E.
    + destruct (star a s k) eqn:E2.
      * inversion H; subst. destruct (IH eq_refl) as (u & rest & -> & Hu & Hk).
        exists (x :: u), rest. auto.
      * exists [], (x :: s). auto.
    + exists [], (x :: s). auto.
Qed.

Lemma star_here {A} a s (k : text -> option A) :
  is_Some (k s) -> is_Some (star a s k).
Proof.
  destruct s as [|x s]; simpl; auto.
  intros H. destruct (atom_ok a x); auto. destruct (star a s k); eauto.
Qed.

Lemma star_complete {A} a u rest (k : text -> option A) :
  Forall (fun x => atom_ok a x = true) u -> is_Some (k rest) ->
  is_Some (star a (u ++ rest) k).
Proof.
  induction 1 as [|x u Hx Hu IH]; intros Hk; simpl.
  - by apply star_here.
  - rewrite Hx. apply IH in Hk. destruct Hk as [res ->]. eauto.
Qed.

Lemma rx_sound {A} r : forall s c (k : text -> captures -> option A) res,
  rx r s c k = Some res ->
  ∃ u rest c', s = u ++ rest ∧ sem r u rest c c' ∧ k rest c' = Some res.
Proof.
  induction r as [| a | | r1 IH1 r2 IH2 | r1 IH1 r2 IH2 | r1 IH1 | a | a | n r1 IH1];
    simpl; intros s c k res H.
  - exists [], s, c. auto.
  - destruct s as [|x s]; [done|]. destruct (atom_ok a x) eqn:E; [|done].
    exists [x], s, c. eauto 6.
  - destruct (at_eol s) eqn:E; [|done]. exists [], s, c. auto.
  - apply IH1 in H as (u1 & rest1 & c1 & -> & H1 & H).
    apply IH2 in H as (u2 & rest & c' & -> & H2 & H).
    exists (u1 ++ u2), rest, c'. rewrite <- app_assoc. eauto 10.
  - destruct (rx r1 s c k) eqn:E.
    + inversion H; subst. apply IH1 in E as (u & rest & c' & -> & H1 & Hk). eauto 10.
    + apply IH2 in H as (u & rest & c' & -> & H1 & Hk). eauto 10.
  - destruct (rx r1 s c k) eqn:E.
    + inversion H; subst. apply IH1 in E as (u & rest & c' & -> & H1 & Hk). eauto 10.
    + exists [], s, c. auto.
  - apply star_sound in H as (u & rest & -> & Hu & Hk). eauto 10.
  - destruct s as [|x s]; [done|]. destruct (atom_ok a x) eqn:E; [|done].
    apply star_sound in H as (u & rest & -> & Hu & Hk).
    exists (x :: u), rest, c. split; [done|]. split; [|done]. split; [done|]. auto.
  - apply IH1 in H as (u & rest & c1 & -> & H1 & Hk).
    exists u, rest, ((n, u) :: c1). split; [done|]. split; [eauto|].
    rewrite length_app in Hk.
    replace (length u + length rest - length rest)%nat with (length u) in Hk by lia.
    by rewrite take_app_length in Hk.
Qed.

Lemma rx_complete {A} r : forall u rest c c' (k : text -> captures -> option A),
  sem r u rest c c' -> is_Some (k rest c') -> is_Some (rx r (u ++ rest) c k).
Proof.
  induction r as [| a | | r1 IH1 r2 IH2 | r1 IH1 r2 IH2 | r1 IH1 | a | a | n r1 IH1];
    simpl; intros u rest c c' k H Hk.
  - by destruct H as [-> ->].
  - destruct H as (x & -> & Hx & ->). simpl. by rewrite Hx.
  - destruct H as (-> & He & ->). simpl. by rewrite He.
  - destruct H as (u1 & u2 & c1 & -> & H1 & H2). rewrite <- app_assoc.
    eapply IH1; [exact H1|]. eapply IH2; eauto.
  - destruct H as [H|H].
    + eapply IH1 in H; [|exact Hk]. destruct H as [res ->]. eauto.
    + destruct (rx r1 (u ++ rest) c k); [eauto|]. eapply IH2; eauto.
  - destruct H as [H|[-> ->]].
    + eapply IH1 in H; [|exact Hk]. destruct H as [res ->]. eauto.
    + simpl. destruct (rx r1 rest c k); [eauto|done].
  - destruct H as [Hu ->]. by apply star_complete.
  - destruct H as (Hne & Hu & ->). destruct Hu as [|x u Hx Hu]; [done|].
    simpl. rewrite Hx. by apply star_complete.
  - destruct H as (c1 & H & ->). eapply IH1; [exact H|].
    rewrite length_app.
    replace (length u + length rest - length rest)%nat with (length u) by lia.
    by rewrite take_app_length.
Qed.

Lemma star_agree {A} a s (k1 k2 : text -> option A) :
  (forall u rest, s = u ++ rest -> Forall (fun x => atom_ok a x = true) u ->
                  k1 rest = k2 rest) ->
  star a s k1 = star a s k2.
Proof.
  induction s as [|x s IH]; simpl; intros H.
  - by apply (H [] []).
  - assert (Hh : k1 (x :: s) = k2 (x :: s)) by (by apply (H [] (x :: s))).
    destruct (atom_ok a x) eqn:E; [|done].
    rewrite IH, Hh; [done|].
    intros u rest -> Hu. apply (H (x :: u) rest); [done|]. by constructor.
Qed.

Lemma take_match (u rest : text) :
  take (length (u ++ rest) - length rest) (u ++ rest) = u.
Proof.
  rewrite length_app.
  replace (length u + length rest - length rest)%nat with (length u) by lia.
  apply take_app_length.
Qed.

Lemma rx_agree {A} r : forall s c (k1 k2 : text -> captures -> option A),
  (forall u rest c', s = u ++ rest -> sem r u rest c c' -> k1 rest c' = k2 rest c') ->
  rx r s c k1 = rx r s c k2.
Proof.
  induction r as [| a | | r1 IH1 r2 IH2 | r1 IH1 r2 IH2 | r1 IH1 | a | a | n r1 IH1];
    simpl; intros s c k1 k2 H.
  - by apply (H [] s).
  - destruct s as [|x s]; [done|]. destruct (atom_ok a x) eqn:E; [|done].
    apply (H [x] s); [done|]. eauto.
  - destruct (at_eol s) eqn:E; [|done]. by apply (H [] s).
  - apply IH1. intros u1 rest1 c1 -> H1. apply IH2. intros u2 rest c' -> H2.
    apply (H (u1 ++ u2) rest); [by rewrite <- app_assoc|]. eauto 10.
  - rewrite (IH1 s c k1 k2), (IH2 s c k1 k2); [done| |]; intros; eapply H; eauto.
  - rewrite (IH1 s c k1 k2), (H [] s c); [done|done|by right|].
    intros; eapply H; eauto.
  - apply star_agree. intros u rest -> Hu. by apply (H u rest).
  - destruct s as [|x s]; [done|]. destruct (atom_ok a x) eqn:E; [|done].
    apply star_agree. intros u rest -> Hu. apply (H (x :: u) rest); [done|].
    split; [done|]. split; [|done]. by constructor.
  - apply IH1. intros u rest c1 -> H1. rewrite take_match.
    apply (H u rest); [done|]. eauto.
Qed.

Lemma rmatch_sound r s f rest caps :
  rmatch r s f = Some (rest, caps) ->
  ∃ u, s = u ++ rest ∧ sem r u rest [] caps.
Proof.
  unfold rmatch. intros H.
  apply rx_sound in H as (u & rest' & c' & -> & Hs & Hk).
  destruct (f && _); [done|]. inversion Hk; subst. eauto.
Qed.

Lemma rmatch_complete r u rest caps :
  sem r u rest [] caps -> is_Some (rmatch r (u ++ rest) false).
Proof.
  intros H. unfold rmatch. eapply rx_complete; [exact H|]. simpl. eauto.
Qed.

Lemma rmatch_advance r s :
  nonempty r -> rmatch r s true = rmatch r s false.
Proof.
  intros Hne. unfold rmatch. apply rx_agree.
  intros u rest c' -> Hs. apply Hne in Hs. simpl.
  rewrite length_app. destruct (Nat.eqb_spec (length rest) (length u + length rest)); [|done].
  destruct u; [done|]. simpl in *. lia.
Qed.

(** [re.sub] on a pattern that never matches the empty text. *)
Lemma sub_go_skip r t s n :
  nonempty r -> sub_go r t s n = sub_go r t (drop n s) 0.
Proof.
  intros Hne. revert n. induction s as [|x s IH]; intros [|n]; simpl; auto.
  destruct (rmatch r [] false) as [[rest caps]|] eqn:E; [|done].
  apply rmatch_sound in E as (u & Hu & Hs). apply Hne in Hs.
  by destruct u.
Qed.

Lemma re_sub_nil r t : nonempty r -> re_sub r t [] = [].
Proof.
  intros Hne. unfold re_sub. simpl.
  destruct (rmatch r [] false) as [[rest caps]|] eqn:E; [|done].
  apply rmatch_sound in E as (u & Hu & Hs). apply Hne in Hs. by destruct u.
Qed.

Lemma re_sub_miss r t x s :
  rmatch r (x :: s) false = None ->
  re_sub r t (x :: s) = x :: re_sub r t s.
Proof. unfold re_sub. simpl. by intros ->. Qed.

Lemma re_sub_hit r t s rest caps :
  nonempty r -> rmatch r s false = Some (rest, caps) ->
  re_sub r t s = expand t caps ++ re_sub r t rest.
Proof.
  intros Hne H. pose proof H as H0.
  apply rmatch_sound in H as (u & -> & Hs). pose proof (Hne _ _ _ _ Hs) as Hu.
  destruct u as [|x u]; [done|]. unfold re_sub. simpl.
  change (x :: u ++ rest) with ((x :: u) ++ rest). rewrite H0. simpl.
  rewrite length_app.
  replace (S (length u + length rest) - length rest)%nat with (S (length u)) by lia.
  rewrite sub_go_skip by done. by rewrite drop_app_length.
Qed.

(** ** The kernel patterns *)

Lemma sem_lit t : forall u rest c c',
  sem (lit t) u rest c c' <-> u = t ∧ c' = c.
Proof.
  induction t as [|x t IH]; simpl; intros u rest c c'; [done|].
  split.
  - intros (u1 & u2 & c1 & -> & (y & -> & Hy & ->) & H).
    apply IH in H as [-> ->]. apply N.eqb_eq in Hy as ->. done.
  - intros [-> ->]. exists [x], t, c. split; [done|]. split.
    + exists x. by rewrite N.eqb_refl.
    + by apply IH.
Qed.

Lemma sem_kernel kw u rest caps :
  sem (kernel_re kw) u rest [] caps <->
  ∃ w hwe g2,
    u = kernel_line kw w hwe ++ g2 ∧
    caps = [(2%nat, g2); (1%nat, kernel_line kw w hwe)] ∧
    w ≠ [] ∧ spaces w ∧ (hwe = [] ∨ hwe = s2t "hwe-") ∧ sep g2 rest.
Proof.
  unfold kernel_re, kernel_line. split.
  - intros (u1 & u2 & c1 & -> & (c0 & H1 & ->) & (c2 & H2 & ->)).
    cbn [sem cat] in H1.
    destruct H1 as (a1 & b1 & d1 & -> & Hkw & a2 & b2 & d2 & -> & (Hw1 & Hw2 & ->)
                    & a3 & b3 & d3 & -> & Hc & a4 & b4 & d4 & -> & Hh
                    & a5 & b5 & d5 & -> & Hv & -> & ->).
    apply sem_lit in Hkw as [-> ->]. apply sem_lit in Hc as [-> ->].
    apply sem_lit in Hv as [-> ->]. rewrite app_nil_r.
    assert (Hhwe : (a4 = [] ∨ a4 = s2t "hwe-") ∧ d4 = []).
    { destruct Hh as [Hh|[-> ->]]; [|auto]. apply sem_lit in Hh as [-> ->]. auto. }
    destruct Hhwe as [Hhwe ->].
    rewrite app_nil_r in H2.
    assert (Hsep : sep u2 rest ∧
              c2 = [(1%nat, kw ++ a2 ++ s2t "/casper/" ++ a4 ++ s2t "vmlinuz")]).
    { cbn [sem cat] in H2. destruct H2 as [H2|H2].
      - destruct H2 as (w2 & b & d & -> & (Hn2 & Hs2 & ->) & x & y & e & -> & Hd
                        & w3 & z & e' & -> & (Hn3 & Hs3 & ->) & -> & ->).
        apply sem_lit in Hd as [-> ->]. rewrite app_nil_r. split; [|done].
        by constructor.
      - destruct H2 as (w & b & d & -> & (Hs & ->) & x & y & e & -> & (-> & He & ->)
                        & -> & ->).
        rewrite app_nil_r. split; [|done]. by apply sep_eol. }
    destruct Hsep as [Hsep ->].
    exists a2, a4, u2. repeat split; auto.
  - intros (w & hwe & g2 & -> & -> & Hn & Hs & Hh & Hsep).
    exists (kw ++ w ++ s2t "/casper/" ++ hwe ++ s2t "vmlinuz"), g2,
      [(1%nat, kw ++ w ++ s2t "/casper/" ++ hwe ++ s2t "vmlinuz")].
    split; [done|]. split.
    + exists []. split; [|done]. cbn [sem cat].
      exists kw, (w ++ s2t "/casper/" ++ hwe ++ s2t "vmlinuz"), [].
      split; [done|]. split; [by apply sem_lit|].
      exists w, (s2t "/casper/" ++ hwe ++ s2t "vmlinuz"), [].
      split; [done|]. split; [done|].
      exists (s2t "/casper/"), (hwe ++ s2t "vmlinuz"), [].
      split; [done|]. split; [by apply sem_lit|].
      exists hwe, (s2t "vmlinuz"), [].
      split; [done|]. split.
      { destruct Hh as [->| ->]; [by right|]. left. by apply sem_lit. }
      exists (s2t "vmlinuz"), [], [].
      split; [done|]. split; [by apply sem_lit|done].
    + set (c1 := [(1%nat, kw ++ w ++ s2t "/casper/" ++ hwe ++ s2t "vmlinuz")]).
      exists c1. split; [|done]. cbn [sem cat].
      destruct Hsep as [w2 w3 rest Hn2 Hs2 Hn3 Hs3 | g rest Hg He].
      * left. exists w2, (s2t "---" ++ w3), c1. split; [done|]. split; [done|].
        exists (s2t "---"), w3, c1. split; [done|]. split; [by apply sem_lit|].
        exists w3, [], c1. split; [by rewrite app_nil_r|]. done.
      * right. exists g, [], c1. split; [by rewrite app_nil_r|]. split; [done|].
        exists [], [], c1. done.
Qed.

Lemma rmatch_kernel kw y f rest caps :
  rmatch (kernel_re kw) y f = Some (rest, caps) ->
  ∃ w hwe g2,
    y = kernel_line kw w hwe ++ g2 ++ rest ∧
    caps = [(2%nat, g2); (1%nat, kernel_line kw w hwe)] ∧
    w ≠ [] ∧ spaces w ∧ hwe_ok hwe ∧ sep g2 rest.
Proof.
  intros H. apply rmatch_sound in H as (u & -> & H).
  apply sem_kernel in H as (w & hwe & g2 & -> & -> & H).
  exists w, hwe, g2. by rewrite <- app_assoc.
Qed.

Lemma hit_rmatch kw y : is_Some (rmatch (kernel_re kw) y false) <-> hit kw y.
Proof.
  split.
  - intros [[rest caps] H]. apply rmatch_kernel in H as (w & hwe & g2 & H).
    exists w, hwe, g2, rest. tauto.
  - intros (w & hwe & g2 & rest & -> & H). rewrite app_assoc.
    eapply rmatch_complete. apply sem_kernel. exists w, hwe, g2. tauto.
Qed.

Lemma nohit_rmatch kw y f : ¬ hit kw y -> rmatch (kernel_re kw) y f = None.
Proof.
  intros H. destruct (rmatch (kernel_re kw) y f) as [[rest caps]|] eqn:E; [|done].
  destruct H. apply rmatch_kernel in E as (w & hwe & g2 & E).
  exists w, hwe, g2, rest. tauto.
Qed.

Lemma kernel_line_nonempty kw w hwe : kernel_line kw w hwe ≠ [].
Proof.
  unfold kernel_line. intros H.
  apply app_eq_nil in H as [_ H]. apply app_eq_nil in H as [_ H]. done.
Qed.

Lemma kernel_nonempty kw : nonempty (kernel_re kw).
Proof.
  intros u rest c c' H Hu. subst u.
  assert (H' : sem (kernel_re kw) [] rest c c') by exact H. clear H.
  destruct H' as (u1 & u2 & c1 & Hu & (c0 & H1 & ->) & _).
  symmetry in Hu. apply app_eq_nil in Hu as [-> ->].
  cbn [sem cat] in H1.
  destruct H1 as (a1 & b1 & d1 & Ha & _ & a2 & b2 & d2 & -> & (Hw1 & _) & _).
  symmetry in Ha. apply app_eq_nil in Ha as [_ Ha].
  apply app_eq_nil in Ha as [-> _]. done.
Qed.

Lemma expand_app t1 t2 caps : expand (t1 ++ t2) caps = expand t1 caps ++ expand t2 caps.
Proof.
  induction t1 as [|i t1 IH]; simpl; [done|].
  destruct i; rewrite IH; [done|]. by rewrite app_assoc.
Qed.

Lemma expand_tlit s caps : expand (tlit s) caps = s.
Proof. induction s as [|c s IH]; simpl; [done|]. by rewrite IH. Qed.

Lemma expand_kernel_repl ip port g1 g2 :
  expand (kernel_repl ip port) [(2%nat, g2); (1%nat, g1)]
  = g1 ++ space :: autoinstall_params ip port ++ g2.
Proof.
  unfold kernel_repl. rewrite !expand_app, expand_tlit. simpl.
  rewrite app_nil_r. by rewrite <- app_assoc.
Qed.

(** One step of [re.sub] with a kernel rule. *)
Lemma re_sub_kernel_hit ip port kw y rest caps :
  rmatch (kernel_re kw) y false = Some (rest, caps) ->
  ∃ w hwe g2,
    y = kernel_line kw w hwe ++ g2 ++ rest ∧
    w ≠ [] ∧ spaces w ∧ hwe_ok hwe ∧ sep g2 rest ∧
    re_sub (kernel_re kw) (kernel_repl ip port) y
    = kernel_line kw w hwe ++ (space :: autoinstall_params ip port)
      ++ g2 ++ re_sub (kernel_re kw) (kernel_repl ip port) rest.
Proof.
  intros H. pose proof H as H0.
  apply rmatch_kernel in H as (w & hwe & g2 & -> & -> & Hn & Hw & Hh & Hs).
  exists w, hwe, g2. repeat split; auto.
  rewrite (re_sub_hit _ _ _ _ _ (kernel_nonempty kw) H0), expand_kernel_repl.
  rewrite <- !app_assoc. simpl. by rewrite <- !app_assoc.
Qed.

Lemma re_sub_id r t s :
  (forall y, y `suffix_of` s -> rmatch r y false = None) -> re_sub r t s = s.
Proof.
  induction s as [|x s IH]; intros H.
  - unfold re_sub. simpl. by rewrite (H []).
  - rewrite re_sub_miss by (by apply H). rewrite IH; [done|].
    intros y Hy. apply H. by apply suffix_cons_r.
Qed.

Lemma ins_refl i x : ins i x x.
Proof. induction x; by constructor. Qed.

Lemma ins_app i p x o : ins i x o -> ins i (p ++ x) (p ++ o).
Proof. intros H. induction p; simpl; [done|]. by constructor. Qed.

Lemma spaces_not_z w : spaces w -> Forall (fun c => c ≠ 122) w.
Proof.
  unfold spaces. intros H. eapply Forall_impl; [exact H|].
  intros c Hc ->. by vm_compute in Hc.
Qed.

Lemma suffix_cons_cases {A} (g s : list A) c :
  g `suffix_of` (c :: s) -> g = c :: s ∨ g `suffix_of` s.
Proof.
  intros [[|x k] H]; simpl in H; [by left|].
  inversion H; subst. right. by exists k.
Qed.

Lemma suffix_tails (g s : text) : g `suffix_of` s -> In g (tails s).
Proof.
  induction s as [|c s IH]; intros H.
  - apply suffix_nil_inv in H as ->. by left.
  - apply suffix_cons_cases in H as [->|H]; [by left|]. right. by apply IH.
Qed.

Lemma may_start_prefix p g z : p `prefix_of` (g ++ z) -> may_start p g = true.
Proof.
  revert g. induction p as [|a p IH]; intros [|b g] H; simpl; auto.
  simpl in H. destruct H as [k H]. inversion H; subst.
  rewrite N.eqb_refl. simpl. apply IH. by exists k.
Qed.

Lemma suffix_app_cases (g a b : text) :
  g `suffix_of` (a ++ b) ->
  g `suffix_of` b ∨ ∃ a', a' `suffix_of` a ∧ a' ≠ [] ∧ g = a' ++ b.
Proof.
  induction a as [|c a IH]; simpl; intros H; [by left|].
  apply suffix_cons_cases in H as [->|H].
  - right. exists (c :: a). done.
  - destruct (IH H) as [?|(a' & Ha & Hn & ->)]; [by left|].
    right. exists a'. split; [by apply suffix_cons_r|done].
Qed.

Lemma hit_linux kw y : kw_ok kw -> hit kw y -> s2t "linux" `prefix_of` y.
Proof.
  intros Hkw (w & hwe & g2 & rest & -> & _). unfold kernel_line.
  destruct Hkw as [-> | ->].
  - rewrite <- !app_assoc. by eexists.
  - change (s2t "linuxefi") with (s2t "linux" ++ s2t "efi").
    rewrite <- !app_assoc. by eexists.
Qed.

Lemma hit_space kw y : hit kw y -> ∃ c y', y = kw ++ c :: y' ∧ is_space c = true.
Proof.
  intros (w & hwe & g2 & rest & -> & Hn & Hw & _). unfold kernel_line.
  destruct Hw as [|c w Hc Hw]; [done|]. rewrite <- !app_assoc. simpl. eauto.
Qed.

Lemma nohit_may_start kw g z :
  kw_ok kw -> may_start (s2t "linux") g = false -> ¬ hit kw (g ++ z).
Proof.
  intros Hkw Hg H. apply hit_linux in H; [|done].
  apply may_start_prefix in H. congruence.
Qed.

Lemma nohit_head kw c y : kw_ok kw -> c ≠ 108 -> ¬ hit kw (c :: y).
Proof.
  intros Hkw Hc H. apply hit_linux in H; [|done].
  destruct H as [k H]. inversion H. done.
Qed.

Lemma spaces_app_inj w w' c r c' r' :
  spaces w -> spaces w' -> is_space c = false -> is_space c' = false ->
  w ++ c :: r = w' ++ c' :: r' -> w = w' ∧ c :: r = c' :: r'.
Proof.
  intros Hw. revert w'. induction Hw as [|x w Hx Hw IH]; intros w' Hw' Hc Hc' E.
  - destruct Hw' as [|x' w' Hx' Hw']; [done|]. simpl in E. inversion E; subst.
    congruence.
  - destruct Hw' as [|x' w' Hx' Hw']; simpl in E; inversion E; subst.
    + congruence.
    + destruct (IH w' Hw' Hc Hc' H1) as [-> ?]. done.
Qed.

Lemma sep_chars g2 rest :
  sep g2 rest -> Forall (fun c => is_space c = true ∨ c = 45) g2.
Proof.
  intros [w2 w3 r Hn2 Hs2 Hn3 Hs3|w r Hw He].
  - rewrite !Forall_app. repeat split.
    + eapply Forall_impl; [exact Hs2|]. auto.
    + repeat constructor; by right.
    + eapply Forall_impl; [exact Hs3|]. auto.
  - eapply Forall_impl; [exact Hw|]. auto.
Qed.

Lemma Forall_suffix_head {A} (P : A -> Prop) (l k : list A) :
  Forall P l -> k `suffix_of` l -> k ≠ [] -> ∃ c k', k = c :: k' ∧ P c.
Proof.
  intros Hl [p ->] Hk. apply Forall_app in Hl as [_ Hl].
  destruct Hl as [|c k' Hc Hl]; [done|]. eauto.
Qed.

Lemma kernel_tail_cases hwe :
  hwe_ok hwe ->
  s2t "/casper/" ++ hwe ++ s2t "vmlinuz" = s2t "/casper/vmlinuz"
  ∨ s2t "/casper/" ++ hwe ++ s2t "vmlinuz" = s2t "/casper/hwe-vmlinuz".
Proof. intros [-> | ->]; auto. Qed.

Lemma kernel_line_inj kw w hwe r w' hwe' r' :
  spaces w -> spaces w' -> hwe_ok hwe -> hwe_ok hwe' ->
  kernel_line kw w hwe ++ r = kernel_line kw w' hwe' ++ r' -> r = r'.
Proof.
  intros Hw Hw' Hh Hh' E. unfold kernel_line in E. rewrite <- !app_assoc in E.
  apply app_inv_head in E. simpl in E.
  apply spaces_app_inj in E as [_ E]; [|done..].
  destruct Hh as [-> | ->], Hh' as [-> | ->]; simpl in E; by inversion E.
Qed.

Section Insertion.

Variable i : text.
Variable a : char.
Variable i' : text.
Hypothesis i_shape : i = space :: a :: i'.
Hypothesis a_not_space : is_space a = false.
Hypothesis a_not_dash : a ≠ 45.

Lemma ins_cons_inv c x o :
  ins i x (c :: o) ->
  ∃ x', x = c :: x' ∧
        (ins i x' o ∨ (c = 122 ∧ ∃ o', o = i ++ o' ∧ ins i x' o')).
Proof. inversion 1; subst; eauto 8. Qed.

Lemma ins_lit t x o :
  Forall (fun c => c ≠ 122) t -> ins i x (t ++ o) ->
  ∃ x', x = t ++ x' ∧ ins i x' o.
Proof.
  intros Ht. revert x. induction Ht as [|c t Hc Ht IH]; simpl; intros x H.
  - eauto.
  - apply ins_cons_inv in H as (x1 & -> & [H|[-> _]]); [|done].
    destruct (IH _ H) as (x' & -> & Hx). eauto.
Qed.

Lemma ins_nil_r x : ins i x [] -> x = [].
Proof. by inversion 1. Qed.

Lemma ins_eol x o : ins i x o -> at_eol o = true -> at_eol x = true.
Proof.
  intros H. destruct o as [|c o]; [by inversion H|].
  apply ins_cons_inv in H as (x1 & -> & _). done.
Qed.

Lemma sep_not_inserted g2 rest z : g2 ++ rest = i ++ z -> ¬ sep g2 rest.
Proof.
  rewrite i_shape. intros E H. destruct H as [w2 w3 rest Hn2 Hs2 Hn3 Hs3|w rest Hw He].
  - destruct Hs2 as [|c w2 Hc Hs2]; [done|].
    destruct Hs2 as [|c' w2 Hc' Hs2]; simpl in E; inversion E; subst; [done|].
    congruence.
  - destruct Hw as [|c w Hc Hw]; simpl in E.
    + subst rest. done.
    + destruct Hw as [|c' w Hc' Hw]; simpl in E; inversion E; subst.
      * simpl in He. apply N.eqb_eq in He. subst a. done.
      * congruence.
Qed.

Lemma sep_ins g2 rest x :
  sep g2 rest -> ins i x (g2 ++ rest) -> ∃ rest', x = g2 ++ rest' ∧ sep g2 rest'.
Proof.
  intros [w2 w3 r Hn2 Hs2 Hn3 Hs3|w r Hw He] H.
  - rewrite <- !app_assoc in H.
    apply ins_lit in H as (x1 & -> & H); [|by apply spaces_not_z].
    apply ins_lit in H as (x2 & -> & H); [|by repeat constructor].
    apply ins_lit in H as (x3 & -> & H); [|by apply spaces_not_z].
    exists x3. rewrite <- !app_assoc. split; [done|]. by constructor.
  - apply ins_lit in H as (x1 & -> & H); [|by apply spaces_not_z].
    exists x1. split; [done|]. apply sep_eol; [done|]. by eapply ins_eol.
Qed.

Lemma kw_no_z kw : kw_ok kw -> Forall (fun c => c ≠ 122) kw.
Proof. intros [-> | ->]; by repeat constructor. Qed.

Lemma hwe_no_z hwe : hwe_ok hwe -> Forall (fun c => c ≠ 122) hwe.
Proof. intros [-> | ->]; by repeat constructor. Qed.

(** A match in the text with insertions is a match in the text without. *)
Lemma hit_ins kw x o : kw_ok kw -> ins i x o -> hit kw o -> hit kw x.
Proof.
  intros Hkw H (w & hwe & g2 & rest & -> & Hn & Hw & Hh & Hs).
  unfold kernel_line in H. rewrite <- !app_assoc in H.
  apply ins_lit in H as (x1 & -> & H); [|by apply kw_no_z].
  apply ins_lit in H as (x2 & -> & H); [|by apply spaces_not_z].
  apply ins_lit in H as (x3 & -> & H); [|by repeat constructor].
  apply ins_lit in H as (x4 & -> & H); [|by apply hwe_no_z].
  change (s2t "vmlinuz") with (s2t "vmlinu" ++ [122]) in H.
  rewrite <- !app_assoc in H.
  apply ins_lit in H as (x5 & -> & H); [|by repeat constructor].
  simpl in H. apply ins_cons_inv in H as (x6 & -> & [H|(_ & o' & E & _)]).
  - apply sep_ins in H as (rest' & -> & Hs'); [|done].
    exists w, hwe, g2, rest'. unfold kernel_line.
    rewrite <- !app_assoc. repeat split; auto.
  - by apply sep_not_inserted in E.
Qed.

(** Right after a kernel line with the insertion no pattern matches. *)
Lemma nohit_patched kw_a kw_b w hwe z :
  kw_ok kw_a -> kw_ok kw_b -> w ≠ [] -> spaces w -> hwe_ok hwe ->
  ¬ hit kw_b (kernel_line kw_a w hwe ++ i ++ z).
Proof.
  intros Ha Hb Hn Hw Hh (w' & hwe' & g2 & rest & E & Hn' & Hw' & Hh' & Hs).
  assert (kw_a = kw_b) as <-.
  { destruct Ha as [-> | ->], Hb as [-> | ->]; [done| | |done];
      unfold kernel_line in E; simpl in E; inversion E as [E'].
    - destruct Hw as [|c w Hc Hw]; [done|]. simpl in E'. inversion E'; subst. done.
    - destruct Hw' as [|c w' Hc Hw']; [done|]. simpl in E'. inversion E'; subst. done. }
  apply kernel_line_inj in E; [|done..].
  symmetry in E. by eapply sep_not_inserted in E.
Qed.

(** No pattern matches at a place inside a kernel line. *)
Lemma nohit_inside kw_a kw_b w hwe g z :
  kw_ok kw_a -> kw_ok kw_b -> spaces w -> hwe_ok hwe ->
  g `suffix_of` kernel_line kw_a w hwe -> g ≠ [] -> g ≠ kernel_line kw_a w hwe ->
  ¬ hit kw_b (g ++ z).
Proof.
  intros Ha Hb Hw Hh Hg Hn Hne. unfold kernel_line in *.
  apply suffix_app_cases in Hg as [Hg|(k & Hk & Hkn & ->)].
  - apply suffix_app_cases in Hg as [Hg|(k & Hk & Hkn & ->)].
    + apply nohit_may_start; [done|]. apply suffix_tails in Hg.
      destruct (kernel_tail_cases _ Hh) as [E|E]; rewrite E in Hg;
        simpl in Hg; intuition (subst; try done).
    + destruct (Forall_suffix_head _ _ _ Hw Hk Hkn) as (c & k' & -> & Hc).
      simpl. apply nohit_head; [done|]. intros ->. done.
  - apply nohit_may_start; [done|]. apply suffix_tails in Hk.
    destruct Ha as [-> | ->]; simpl in Hk; intuition (subst; try done).
Qed.

End Insertion.

Section KernelRules.

Variable ip : text.
Variable port : Z.

(** No pattern matches at a place inside the inserted text. *)
Hypothesis inserted_free :
  forall kw j z,
    kw_ok kw -> j ≠ [] -> j `suffix_of` inserted ip port -> ¬ hit kw (j ++ z).

Lemma inserted_shape :
  inserted ip port
  = space :: 97 :: s2t "utoinstall ds=nocloud-net;s=http://" ++ ip
    ++ s2t ":" ++ str_int port ++ s2t "/".
Proof. reflexivity. Qed.

Lemma ksub_cases kw x :
  (x = [] ∧ re_sub (kernel_re kw) (kernel_repl ip port) x = [])
  ∨ (∃ c x1,
       x = c :: x1 ∧ ¬ hit kw x ∧
       re_sub (kernel_re kw) (kernel_repl ip port) x
       = c :: re_sub (kernel_re kw) (kernel_repl ip port) x1)
  ∨ (∃ w hwe g2 rest,
       x = kernel_line kw w hwe ++ g2 ++ rest ∧
       w ≠ [] ∧ spaces w ∧ hwe_ok hwe ∧ sep g2 rest ∧
       re_sub (kernel_re kw) (kernel_repl ip port) x
       = kernel_line kw w hwe ++ inserted ip port ++ g2
         ++ re_sub (kernel_re kw) (kernel_repl ip port) rest).
Proof.
  destruct (rmatch (kernel_re kw) x false) as [[rest caps]|] eqn:E.
  - right. right.
    destruct (re_sub_kernel_hit ip port _ _ _ _ E) as (w & hwe & g2 & H).
    exists w, hwe, g2, rest. tauto.
  - destruct x as [|c x1].
    + left. split; [done|]. apply re_sub_nil, kernel_nonempty.
    + right. left. exists c, x1. split; [done|]. split.
      * intros H. apply hit_rmatch in H. rewrite E in H. by destruct H.
      * by apply re_sub_miss.
Qed.

Lemma kernel_line_length kw w hwe g2 rest :
  (length rest < length (kernel_line kw w hwe ++ g2 ++ rest))%nat.
Proof.
  rewrite !length_app. pose proof (kernel_line_nonempty kw w hwe).
  destruct (kernel_line kw w hwe); [done|]. simpl. lia.
Qed.

Lemma kernel_line_z kw w hwe :
  ∃ p, kernel_line kw w hwe = p ++ [122].
Proof.
  exists (kw ++ w ++ s2t "/casper/" ++ hwe ++ s2t "vmlinu").
  unfold kernel_line. by rewrite <- !app_assoc.
Qed.

Lemma ksub_ins kw x :
  ins (inserted ip port) x (re_sub (kernel_re kw) (kernel_repl ip port) x).
Proof.
  remember (length x) as n eqn:Hn. revert x Hn.
  induction n as [n IH] using lt_wf_ind. intros x Hn.
  destruct (ksub_cases kw x) as [[-> ->]|[(c & x1 & -> & _ & ->)|H]].
  - constructor.
  - constructor. apply (IH (length x1)); [simpl in Hn; lia|done].
  - destruct H as (w & hwe & g2 & rest & -> & _ & _ & _ & _ & ->).
    destruct (kernel_line_z kw w hwe) as [p ->]. rewrite <- !app_assoc.
    apply ins_app.
    apply (ins_z (inserted ip port) (g2 ++ rest)
             (g2 ++ re_sub (kernel_re kw) (kernel_repl ip port) rest)).
    apply ins_app.
    apply (IH (length rest)); [|done]. subst n. apply kernel_line_length.
Qed.

(** After a kernel rule was applied, a pattern matches nowhere, unless it
    matched in the text at a place where the rule did not. *)
Lemma ksub_no_hits kw_a kw_b x :
  kw_ok kw_a -> kw_ok kw_b ->
  (forall y, y `suffix_of` x -> hit kw_b y -> hit kw_a y) ->
  forall o,
    o `suffix_of` re_sub (kernel_re kw_a) (kernel_repl ip port) x -> ¬ hit kw_b o.
Proof.
  intros Ha Hb. remember (length x) as n eqn:Hn. revert x Hn.
  induction n as [n IH] using lt_wf_ind. intros x Hn Hx o Ho.
  destruct (ksub_cases kw_a x) as [[-> E]|[(c & x1 & -> & Hc & E)|H]].
  - rewrite E in Ho. apply suffix_nil_inv in Ho as ->.
    intros H. apply hit_linux in H as [k H]; done.
  - rewrite E in Ho. apply suffix_cons_cases in Ho as [->|Ho].
    + intros H. apply Hc, Hx; [done|].
      eapply (hit_ins (inserted ip port) 97); [reflexivity|done|done|done| |exact H].
      constructor. apply ksub_ins.
    + apply (IH (length x1)) with (x := x1); [simpl in Hn; lia|done| |done].
      intros y Hy. apply Hx. by apply suffix_cons_r.
  - destruct H as (w & hwe & g2 & rest & -> & Hwn & Hw & Hh & Hs & E).
    rewrite E in Ho.
    apply suffix_app_cases in Ho as [Ho|(k & Hk & Hkn & ->)].
    + apply suffix_app_cases in Ho as [Ho|(k & Hk & Hkn & ->)].
      * apply suffix_app_cases in Ho as [Ho|(k & Hk & Hkn & ->)].
        -- apply (IH (length rest)) with (x := rest); [|done| |done].
           ++ subst n. apply kernel_line_length.
           ++ intros y Hy. apply Hx. rewrite app_assoc. by apply suffix_app_r.
        -- destruct (Forall_suffix_head _ _ _ (sep_chars _ _ Hs) Hk Hkn)
             as (c & k' & -> & Hc).
           simpl. apply nohit_head; [done|]. by intros ->; destruct Hc.
      * apply (inserted_free kw_b k _ Hb Hkn Hk).
    + destruct (decide (k = kernel_line kw_a w hwe)) as [->|Hne].
      * by apply (nohit_patched (inserted ip port) 97 _ eq_refl eq_refl).
      * by apply (nohit_inside kw_a kw_b w hwe).
Qed.

(** Where no pattern matches, a kernel rule changes nothing. *)
Lemma ksub_id kw x :
  (forall y, y `suffix_of` x -> ¬ hit kw y) -> re_sub (kernel_re kw) (kernel_repl ip port) x = x.
Proof.
  intros H. apply re_sub_id. intros y Hy. by apply nohit_rmatch, H.
Qed.

End KernelRules.

(** ** The clean-up of multiple spaces *)

Lemma star_total {A} s (f : text -> A) :
  star (AChr space) s (fun s' => Some (f s')) = Some (f (skip_spaces s)).
Proof.
  induction s as [|c s IH]; simpl; [done|].
  destruct (c =? space); [|done]. by rewrite IH.
Qed.

Lemma rmatch_spaces s :
  rmatch spaces_re s false =
  match s with
  | c1 :: c2 :: s' =>
      if (c1 =? space) && (c2 =? space) then Some (skip_spaces s', []) else None
  | _ => None
  end.
Proof.
  unfold rmatch, spaces_re. cbn [rx atom_ok andb].
  destruct s as [|c1 [|c2 s']]; [done| |].
  - by destruct (c1 =? space).
  - destruct (c1 =? space); [|done]. destruct (c2 =? space); [|done].
    simpl. apply (star_total s' (fun s' => (s', []))).
Qed.

Lemma spaces_nonempty : nonempty spaces_re.
Proof.
  intros u rest c c' (u1 & u2 & c1 & -> & (x & -> & _) & _). done.
Qed.

Lemma skip_spaces_length s : (length (skip_spaces s) <= length s)%nat.
Proof.
  induction s as [|c s IH]; simpl; [done|]. destruct (c =? space); simpl; lia.
Qed.

Lemma squeeze_space s : squeeze (space :: s) = space :: squeeze (skip_spaces s).
Proof.
  induction s as [|c s IH]; [done|].
  change (squeeze (space :: c :: s))
    with (if (space =? space) && (c =? space) then squeeze (c :: s)
          else space :: squeeze (c :: s)).
  simpl skip_spaces. destruct (N.eqb_spec c space) as [->|Hc]; simpl; [|done].
  exact IH.
Qed.

Lemma skip_spaces_tail s : length (skip_spaces s) = length s -> skip_spaces s = s.
Proof.
  destruct s as [|c s]; simpl; [done|]. destruct (c =? space); [|done].
  pose proof (skip_spaces_length s). lia.
Qed.

(** The clean-up of [modify_file_with_patterns] is [squeeze]. *)
Lemma clean_spaces_squeeze s : clean_spaces s = squeeze s.
Proof.
  unfold clean_spaces. remember (length s) as n eqn:Hn. revert s Hn.
  induction n as [n IH] using lt_wf_ind. intros s Hn.
  destruct s as [|c1 [|c2 s']].
  - apply re_sub_nil, spaces_nonempty.
  - rewrite re_sub_miss by (by rewrite rmatch_spaces).
    by rewrite re_sub_nil by apply spaces_nonempty.
  - pose proof (rmatch_spaces (c1 :: c2 :: s')) as E. cbv beta iota in E.
    destruct ((c1 =? space) && (c2 =? space)) eqn:Hc.
    + rewrite (re_sub_hit _ _ _ _ _ spaces_nonempty E).
      apply andb_true_iff in Hc as [->%N.eqb_eq ->%N.eqb_eq].
      change (squeeze (space :: space :: s')) with (squeeze (space :: s')).
      rewrite squeeze_space. simpl. f_equal.
      apply (IH (length (skip_spaces s'))); [|done].
      pose proof (skip_spaces_length s'). subst n. simpl. lia.
    + rewrite re_sub_miss by done.
      change (squeeze (c1 :: c2 :: s'))
        with (if (c1 =? space) && (c2 =? space) then squeeze (c2 :: s')
              else c1 :: squeeze (c2 :: s')).
      rewrite Hc. f_equal. apply (IH (length (c2 :: s'))); [|done].
      subst n. simpl. lia.
Qed.

Lemma squeeze_head s : head (squeeze s) = head s.
Proof.
  induction s as [|c [|c' s] IH]; [done..|].
  change (squeeze (c :: c' :: s))
    with (if (c =? space) && (c' =? space) then squeeze (c' :: s)
          else c :: squeeze (c' :: s)).
  destruct (N.eqb_spec c space) as [->|Hc]; [|done].
  destruct (N.eqb_spec c' space) as [->|Hc']; [|done].
  simpl andb. cbv iota. rewrite IH. done.
Qed.

Lemma squeeze_cons c s :
  c ≠ space -> squeeze (c :: s) = c :: squeeze s.
Proof.
  intros Hc. destruct s as [|c' s]; [done|].
  change (squeeze (c :: c' :: s))
    with (if (c =? space) && (c' =? space) then squeeze (c' :: s)
          else c :: squeeze (c' :: s)).
  by destruct (N.eqb_spec c space).
Qed.

Lemma squeeze_idem s : squeeze (squeeze s) = squeeze s.
Proof.
  remember (length s) as n eqn:Hn. revert s Hn.
  induction n as [n IH] using lt_wf_ind. intros s Hn.
  destruct s as [|c s]; [done|].
  destruct (N.eqb_spec c space) as [->|Hc].
  - rewrite squeeze_space. rewrite squeeze_space.
    pose proof (skip_spaces_length s).
    assert (E : skip_spaces (squeeze (skip_spaces s)) = squeeze (skip_spaces s)).
    { pose proof (squeeze_head (skip_spaces s)) as Hh.
      destruct (squeeze (skip_spaces s)) as [|x q]; [done|].
      simpl. destruct (N.eqb_spec x space) as [->|]; [|done].
      exfalso. destruct s as [|y s]; [done|]. simpl in Hh.
      assert (Hs : forall t, head (skip_spaces t) ≠ Some space).
      { clear. induction t as [|z t IHt]; simpl; [done|].
        destruct (N.eqb_spec z space); [done|]. simpl. congruence. }
      apply (Hs (y :: s)). done. }
    rewrite E. f_equal. apply (IH (length (skip_spaces s))); [|done].
    subst n. simpl. lia.
  - rewrite !squeeze_cons by done. f_equal.
    apply (IH (length s)); [|done]. subst n. simpl. lia.
Qed.

Lemma squeeze_suffix o x :
  o `suffix_of` squeeze x -> ∃ y, y `suffix_of` x ∧ o = squeeze y.
Proof.
  induction x as [|c [|c' x] IH]; intros H.
  - apply suffix_nil_inv in H as ->. exists []. by split.
  - simpl in H. apply suffix_cons_cases in H as [->|H].
    + exists [c]. by split.
    + apply suffix_nil_inv in H as ->. exists []. split; [|done].
      by apply suffix_nil.
  - change (squeeze (c :: c' :: x))
      with (if (c =? space) && (c' =? space) then squeeze (c' :: x)
            else c :: squeeze (c' :: x)) in H.
    assert (Hr : o `suffix_of` squeeze (c' :: x) ->
                 ∃ y, y `suffix_of` c :: c' :: x ∧ o = squeeze y).
    { intros Ho. destruct (IH Ho) as (y & Hy & ->). exists y.
      split; [by apply suffix_cons_r|done]. }
    destruct ((c =? space) && (c' =? space)) eqn:E; [by apply Hr|].
    apply suffix_cons_cases in H as [->|H]; [|by apply Hr].
    exists (c :: c' :: x). split; [done|].
    change (squeeze (c :: c' :: x))
      with (if (c =? space) && (c' =? space) then squeeze (c' :: x)
            else c :: squeeze (c' :: x)).
    by rewrite E.
Qed.

Lemma squeeze_nil_inv y : squeeze y = [] -> y = [].
Proof.
  intros H. pose proof (squeeze_head y) as Hh. rewrite H in Hh.
  by destruct y.
Qed.

Lemma squeeze_cons_inv c o y :
  squeeze y = c :: o -> ∃ y', y = c :: y' ∧ (c ≠ space -> squeeze y' = o).
Proof.
  intros H. pose proof (squeeze_head y) as Hh. rewrite H in Hh.
  destruct y as [|c0 y]; [done|]. simpl in Hh. inversion Hh; subst c0.
  exists y. split; [done|]. intros Hc. rewrite squeeze_cons in H by done.
  by inversion H.
Qed.

Lemma squeeze_lit_inv t o y :
  Forall (fun c => c ≠ space) t -> squeeze y = t ++ o ->
  ∃ y', y = t ++ y' ∧ squeeze y' = o.
Proof.
  intros Ht. revert y. induction Ht as [|c t Hc Ht IH]; simpl; intros y H.
  - eauto.
  - apply squeeze_cons_inv in H as (y1 & -> & H).
    destruct (IH y1 (H Hc)) as (y' & -> & Hy). eauto.
Qed.

Lemma skip_spaces_split s :
  ∃ r, s = r ++ skip_spaces s ∧ Forall (fun c => c = space) r.
Proof.
  induction s as [|c s (r & E & Hr)]; simpl.
  - by exists [].
  - destruct (N.eqb_spec c space) as [->|Hc].
    + exists (space :: r). split; [simpl; congruence|by constructor].
    + by exists [].
Qed.

Lemma squeeze_spaces_inv w o y :
  spaces w -> squeeze y = w ++ o ->
  ∃ w' y', y = w' ++ y' ∧ spaces w' ∧ (w ≠ [] -> w' ≠ []) ∧ squeeze y' = o.
Proof.
  intros Hw. revert y. induction Hw as [|c w Hc Hw IH]; simpl; intros y H.
  - exists [], y. split; [done|]. split; [constructor|]. by split.
  - apply squeeze_cons_inv in H as Hy. destruct Hy as (y1 & -> & Hy).
    destruct (N.eqb_spec c space) as [->|Hne].
    + rewrite squeeze_space in H. inversion H as [H'].
      destruct (IH _ H') as (w' & y' & E & Hw' & _ & Hs).
      destruct (skip_spaces_split y1) as (r & Hr1 & Hr2).
      exists (space :: r ++ w'), y'. repeat split; [| |done|done].
      * simpl. rewrite <- app_assoc, <- E. congruence.
      * constructor; [done|]. apply Forall_app. split; [|done].
        eapply Forall_impl; [exact Hr2|]. by intros ? ->.
    + destruct (IH _ (Hy Hne)) as (w' & y' & -> & Hw' & _ & Hs).
      exists (c :: w'), y'. repeat split; [|done|done]. by constructor.
Qed.

Lemma squeeze_eol y : at_eol (squeeze y) = at_eol y.
Proof.
  pose proof (squeeze_head y) as H.
  destruct (squeeze y), y; simpl in *; congruence.
Qed.

Lemma kw_no_space kw : kw_ok kw -> Forall (fun c => c ≠ space) kw.
Proof. intros [-> | ->]; by repeat constructor. Qed.

Lemma hwe_no_space hwe : hwe_ok hwe -> Forall (fun c => c ≠ space) hwe.
Proof. intros [-> | ->]; by repeat constructor. Qed.

Lemma sep_squeeze g2 rest y :
  sep g2 rest -> squeeze y = g2 ++ rest -> ∃ g2' rest', y = g2' ++ rest' ∧ sep g2' rest'.
Proof.
  intros [w2 w3 r Hn2 Hs2 Hn3 Hs3|w r Hw He] H.
  - rewrite <- !app_assoc in H.
    apply squeeze_spaces_inv in H as (w2' & y2 & -> & Hw2 & Hn2' & H); [|done].
    apply squeeze_lit_inv in H as (y3 & -> & H); [|by repeat constructor].
    apply squeeze_spaces_inv in H as (w3' & y4 & -> & Hw3 & Hn3' & H); [|done].
    exists (w2' ++ s2t "---" ++ w3'), y4. rewrite <- !app_assoc.
    split; [done|]. constructor; auto.
  - apply squeeze_spaces_inv in H as (w' & y' & -> & Hw' & _ & H); [|done].
    exists w', y'. split; [done|]. apply sep_eol; [done|].
    by rewrite <- squeeze_eol, H.
Qed.

(** A match in the cleaned text is a match in the text. *)
Lemma hit_squeeze kw y : kw_ok kw -> hit kw (squeeze y) -> hit kw y.
Proof.
  intros Hkw (w & hwe & g2 & rest & E & Hn & Hw & Hh & Hs).
  unfold kernel_line in E. rewrite <- !app_assoc in E.
  apply squeeze_lit_inv in E as (y1 & -> & E); [|by apply kw_no_space].
  apply squeeze_spaces_inv in E as (w' & y2 & -> & Hw' & Hn' & E); [|done].
  apply squeeze_lit_inv in E as (y3 & -> & E); [|by repeat constructor].
  apply squeeze_lit_inv in E as (y4 & -> & E); [|by apply hwe_no_space].
  apply squeeze_lit_inv in E as (y5 & -> & E); [|by repeat constructor].
  destruct (sep_squeeze _ _ _ Hs E) as (g2' & rest' & -> & Hs').
  exists w', hwe, g2', rest'. unfold kernel_line. rewrite <- !app_assoc.
  repeat split; auto.
Qed.

(** ** The GRUB rule set applied twice *)

Lemma digits_not_l d : Forall (fun c => c ≠ 108) (digits d).
Proof. induction d; simpl; constructor; done. Qed.

Lemma str_int_not_l z : Forall (fun c => c ≠ 108) (str_int z).
Proof.
  unfold str_int. destruct (Z.to_int z); [|constructor; [done|]]; apply digits_not_l.
Qed.

Lemma no_space_colon kw s r c y :
  Forall (fun x => x ≠ 58) kw -> no_space s -> is_space c = true ->
  s ++ 58 :: r = kw ++ c :: y -> False.
Proof.
  intros Hkw Hs Hc. revert kw Hkw. induction Hs as [|x s Hx Hs IH]; intros kw Hkw E.
  - destruct Hkw as [|k kw Hk Hkw]; simpl in E; inversion E; subst; done.
  - destruct Hkw as [|k kw Hk Hkw]; simpl in E; inversion E; subst.
    + congruence.
    + by eapply IH.
Qed.

Lemma kw_no_colon kw : kw_ok kw -> Forall (fun c => c ≠ 58) kw.
Proof. intros [-> | ->]; by repeat constructor. Qed.

Lemma inserted_free_ok ip port kw j z :
  no_space ip -> kw_ok kw -> j ≠ [] -> j `suffix_of` inserted ip port ->
  ¬ hit kw (j ++ z).
Proof.
  intros Hip Hkw Hj Hs. rewrite inserted_shape in Hs.
  change (space :: 97 :: s2t "utoinstall ds=nocloud-net;s=http://" ++ ip
          ++ s2t ":" ++ str_int port ++ s2t "/")
    with (s2t " autoinstall ds=nocloud-net;s=http://" ++ ip
          ++ s2t ":" ++ str_int port ++ s2t "/") in Hs.
  apply suffix_app_cases in Hs as [Hs|(k & Hk & Hkn & ->)].
  - apply suffix_app_cases in Hs as [Hs|(k & Hk & Hkn & ->)].
    + assert (Hc : Forall (fun c => c ≠ 108) (s2t ":" ++ str_int port ++ s2t "/")).
      { rewrite !Forall_app. repeat split; [by repeat constructor| |by repeat constructor].
        apply str_int_not_l. }
      destruct (Forall_suffix_head _ _ _ Hc Hs Hj) as (c & k' & -> & Hc').
      by apply nohit_head.
    + intros H. apply hit_space in H as (c & y & E & Hc).
      rewrite <- !app_assoc in E. simpl in E.
      eapply (no_space_colon kw k); [by apply kw_no_colon| |exact Hc|exact E].
      destruct Hk as [p ->]. by apply Forall_app in Hip as [_ ?].
  - apply nohit_may_start; [done|]. apply suffix_tails in Hk.
    simpl in Hk. intuition (subst; try done).
Qed.

Lemma grub_patterns_eq ip port x :
  apply_patterns (grub_patterns ip port) x
  = re_sub (kernel_re (s2t "linuxefi")) (kernel_repl ip port)
      (re_sub (kernel_re (s2t "linux")) (kernel_repl ip port) x).
Proof. reflexivity. Qed.

(** After the GRUB rules and the clean-up no GRUB pattern matches. *)
Lemma grub_patched_no_hits ip port x kw o :
  no_space ip -> kw_ok kw ->
  o `suffix_of` patch_text (grub_patterns ip port) x -> ¬ hit kw o.
Proof.
  intros Hip Hkw Ho. unfold patch_text in Ho.
  rewrite clean_spaces_squeeze, grub_patterns_eq in Ho.
  apply squeeze_suffix in Ho as (y & Hy & ->).
  intros H. apply hit_squeeze in H; [|done]. revert H.
  pose proof (fun kw j z => inserted_free_ok ip port kw j z Hip) as Hfree.
  assert (H1 : forall o, o `suffix_of` re_sub (kernel_re (s2t "linux"))
                          (kernel_repl ip port) x -> ¬ hit (s2t "linux") o).
  { apply ksub_no_hits; [done|by left|by left|auto]. }
  destruct Hkw as [-> | ->].
  - revert y Hy. apply ksub_no_hits; [done|by right|by left|].
    intros y Hy H. by apply H1 in H.
  - revert y Hy. apply ksub_no_hits; [done|by right|by right|auto].
Qed.

Lemma plain_no_space ip : plain_host ip = true -> no_space ip.
Proof.
  unfold plain_host, no_space. intros H. apply Forall_forall. intros c Hc.
  apply list_elem_of_In in Hc.
  pose proof (proj1 (forallb_forall _ _) H c Hc) as Hb.
  apply andb_true_iff in Hb as [Hb _]. by apply negb_true_iff.
Qed.

(** C1, as amended.  For every endpoint whose address holds no white space
    and no backslash, and for every config file text, applying the GRUB rule
    set (both rules, then the collapse of multiple spaces) to an
    already-patched text gives the same text: the second pass inserts no
    second directive and changes nothing else. *)
Theorem grub_patch_idempotent ip port x :
  plain_host ip = true ->
  patch_text (grub_patterns ip port) (patch_text (grub_patterns ip port) x)
  = patch_text (grub_patterns ip port) x.
Proof.
  intros Hip%plain_no_space. set (u := patch_text (grub_patterns ip port) x).
  unfold patch_text at 1. rewrite grub_patterns_eq.
  rewrite (ksub_id ip port (s2t "linux") u).
  - rewrite (ksub_id ip port (s2t "linuxefi") u).
    + unfold u, patch_text. rewrite !clean_spaces_squeeze. apply squeeze_idem.
    + intros y Hy. eapply grub_patched_no_hits; [done|by right|exact Hy].
  - intros y Hy. eapply grub_patched_no_hits; [done|by left|exact Hy].
Qed.

Lemma grub_patch_idempotent_witness :
  plain_host (s2t "10.0.2.2") = true
  ∧ patch_text (grub_patterns (s2t "10.0.2.2") 8080)
      (patch_text (grub_patterns (s2t "10.0.2.2") 8080)
         (s2t "linux /casper/vmlinuz ---
"))
    = patch_text (grub_patterns (s2t "10.0.2.2") 8080)
        (s2t "linux /casper/vmlinuz ---
").
Proof.
  split; [reflexivity|]. apply grub_patch_idempotent. reflexivity.
Defined.

(** Why the address must hold no white space: an address that holds a
    kernel line brings a new match into the patched text. *)
Lemma grub_patch_spaced_host :
  patch_text (grub_patterns (s2t "h linux /casper/vmlinuz --- k") 8080)
    (patch_text (grub_patterns (s2t "h linux /casper/vmlinuz --- k") 8080)
       (s2t "linux /casper/vmlinuz"))
  ≠ patch_text (grub_patterns (s2t "h linux /casper/vmlinuz --- k") 8080)
      (s2t "linux /casper/vmlinuz").
Proof. by vm_compute. Qed.

(** C1 as stated fails for the ISOLINUX rule set: the second pass puts a
    second directive after [append]. *)
Lemma isolinux_second_pass_duplicates :
  patch_text [isolinux_pattern (s2t "10.0.2.2") 8080]
    (patch_text [isolinux_pattern (s2t "10.0.2.2") 8080]
       (s2t "append initrd=/casper/initrd"))
  = s2t "append autoinstall ds=nocloud-net;s=http://10.0.2.2:8080/ autoinstall ds=nocloud-net;s=http://10.0.2.2:8080/ initrd=/casper/initrd"
  ∧ patch_text [isolinux_pattern (s2t "10.0.2.2") 8080]
      (patch_text [isolinux_pattern (s2t "10.0.2.2") 8080]
         (s2t "append initrd=/casper/initrd"))
    ≠ patch_text [isolinux_pattern (s2t "10.0.2.2") 8080]
        (s2t "append initrd=/casper/initrd").
Proof. split; [by vm_compute|]. by vm_compute. Qed.

(** ** The words of a text *)

Lemma words_cons_space c s : is_space c = true -> words (c :: s) = words s.
Proof. intros H. simpl. by rewrite H. Qed.

Lemma words_head c s : is_space c = false -> ∃ w ws, words (c :: s) = (c :: w) :: ws.
Proof.
  revert c. induction s as [|c' s IH]; intros c H.
  - exists [], []. simpl. by rewrite H.
  - change (words (c :: c' :: s))
      with (if is_space c then words (c' :: s)
            else if is_space c' then [c] :: words (c' :: s)
                 else match words (c' :: s) with
                      | w :: ws => (c :: w) :: ws
                      | [] => [[c]]
                      end).
    rewrite H. destruct (is_space c') eqn:E; [by eauto|].
    destruct (IH c' E) as (w & ws & ->). eauto.
Qed.

Lemma words_unfold c c' s :
  words (c :: c' :: s)
  = if is_space c then words (c' :: s)
    else if is_space c' then [c] :: words (c' :: s)
         else match words (c' :: s) with
              | w :: ws => (c :: w) :: ws
              | [] => [[c]]
              end.
Proof. reflexivity. Qed.

(** White space separates words. *)
Lemma words_app_space a c b :
  is_space c = true -> words (a ++ c :: b) = words a ++ words (c :: b).
Proof.
  intros Hc. induction a as [|x [|y a] IH].
  - done.
  - change ([x] ++ c :: b) with (x :: c :: b). rewrite words_unfold, Hc.
    change (words [x]) with (if is_space x then [] else [[x]]).
    by destruct (is_space x).
  - change ((x :: y :: a) ++ c :: b) with (x :: y :: (a ++ c :: b)).
    rewrite !words_unfold. change (y :: a ++ c :: b) with ((y :: a) ++ c :: b).
    rewrite IH. destruct (is_space x); [done|]. destruct (is_space y) eqn:Ey; [done|].
    destruct (words_head y a Ey) as (w & ws & ->). done.
Qed.

Lemma words_app_nil_or_space a b :
  (b = [] ∨ ∃ c b', b = c :: b' ∧ is_space c = true) ->
  words (a ++ b) = words a ++ words b.
Proof.
  intros [->|(c & b' & -> & Hc)].
  - by rewrite !app_nil_r.
  - by apply words_app_space.
Qed.

Lemma words_snoc_space a c b :
  is_space c = true -> words ((a ++ [c]) ++ b) = words a ++ words b.
Proof.
  intros Hc. rewrite <- app_assoc. simpl. rewrite words_app_space by done.
  by rewrite words_cons_space.
Qed.

Lemma words_squeeze s : words (squeeze s) = words s.
Proof.
  remember (length s) as n eqn:Hn. revert s Hn.
  induction n as [n IH] using lt_wf_ind. intros s Hn.
  destruct s as [|c [|c' s]]; [done..|].
  assert (IH' : words (squeeze (c' :: s)) = words (c' :: s)).
  { apply (IH (length (c' :: s))); [subst n; simpl; lia|done]. }
  change (squeeze (c :: c' :: s))
    with (if (c =? space) && (c' =? space) then squeeze (c' :: s)
          else c :: squeeze (c' :: s)).
  destruct ((c =? space) && (c' =? space)) eqn:E.
  - apply andb_true_iff in E as [->%N.eqb_eq ->%N.eqb_eq].
    rewrite IH'. symmetry. by apply words_cons_space.
  - pose proof (squeeze_head (c' :: s)) as Hh.
    destruct (squeeze (c' :: s)) as [|q qs] eqn:Eq; [done|].
    simpl in Hh. inversion Hh; subst q.
    rewrite !words_unfold, IH'. done.
Qed.

Lemma words_token t :
  t ≠ [] -> no_space t -> words t = [t].
Proof.
  intros Hn Ht. induction Ht as [|c t Hc Ht IH]; [done|].
  destruct t as [|c' t]; [simpl; by rewrite Hc|].
  rewrite words_unfold, Hc. inversion Ht; subst.
  rewrite IH by done. by rewrite H1.
Qed.

Lemma occurrences_cons d x ws :
  occurrences d (x :: ws)
  = ((if bool_decide (d `prefix_of` x :: ws) then 1 else 0) + occurrences d ws)%nat.
Proof. reflexivity. Qed.

Lemma occurrences_insert (t1 t2 : text) a b :
  t1 ≠ t2 ->
  occurrences [t1; t2] (a ++ b) = 0%nat ->
  occurrences [t1; t2] (a ++ [t1; t2] ++ b) = 1%nat.
Proof.
  intros Hne. induction a as [|x a IH]; intros H.
  - change ([] ++ [t1; t2] ++ b) with (t1 :: t2 :: b). change ([] ++ b) with b in H.
    rewrite !occurrences_cons, H.
    rewrite bool_decide_eq_true_2 by (by exists b).
    rewrite bool_decide_eq_false_2; [done|].
    intros [k E]. simpl in E. inversion E. congruence.
  - change ((x :: a) ++ b) with (x :: (a ++ b)) in H.
    change ((x :: a) ++ [t1; t2] ++ b) with (x :: (a ++ [t1; t2] ++ b)).
    rewrite occurrences_cons in *.
    assert (Ha : occurrences [t1; t2] (a ++ b) = 0%nat) by lia.
    rewrite (IH Ha), Ha in *.
    rewrite bool_decide_eq_false_2; [done|].
    intros [k E]. simpl in E. inversion E as [[Ex E']]. subst x.
    rewrite bool_decide_eq_true_2 in H; [lia|].
    destruct a as [|y a]; simpl in E'; inversion E'; subst; [congruence|].
    by eexists.
Qed.

Lemma re_sub_skip r t pre y :
  (forall p, p ≠ [] -> p `suffix_of` pre -> rmatch r (p ++ y) false = None) ->
  re_sub r t (pre ++ y) = pre ++ re_sub r t y.
Proof.
  induction pre as [|c pre IH]; intros H; [done|].
  simpl. rewrite re_sub_miss by (by apply (H (c :: pre))).
  rewrite IH; [done|]. intros p Hp Hs. apply H; [done|]. by apply suffix_cons_r.
Qed.

Lemma sem_append u rest caps :
  sem append_re u rest [] caps ->
  ∃ w, u = s2t "append" ++ w ∧ caps = [(1%nat, u)] ∧ w ≠ [] ∧ spaces w.
Proof.
  intros (c1 & H & ->). cbn [sem cat] in H.
  destruct H as (a1 & b1 & d1 & -> & Ha & w & e & d2 & -> & (Hn & Hw & ->) & -> & ->).
  apply sem_lit in Ha as [-> ->]. rewrite app_nil_r. eauto.
Qed.

Lemma append_nonempty : nonempty append_re.
Proof.
  intros u rest c c' (c1 & H & ->) ->. cbn [sem cat] in H.
  destruct H as (a1 & b1 & d1 & E & Ha & _). apply sem_lit in Ha as [-> _]. done.
Qed.

Lemma digits_no_space d : no_space (digits d).
Proof. induction d; simpl; constructor; done. Qed.

Lemma str_int_no_space z : no_space (str_int z).
Proof.
  unfold str_int. destruct (Z.to_int z); [|constructor; [done|]]; apply digits_no_space.
Qed.

Lemma words_params ip port :
  no_space ip -> words (autoinstall_params ip port) = directive_words ip port.
Proof.
  intros Hip. unfold autoinstall_params, directive_words.
  change (s2t "autoinstall ds=nocloud-net;s=http://" ++ ip ++ s2t ":"
          ++ str_int port ++ s2t "/")
    with (s2t "autoinstall" ++ space ::
          (s2t "ds=nocloud-net;s=http://" ++ ip ++ s2t ":" ++ str_int port ++ s2t "/")).
  rewrite words_app_space by done. rewrite words_cons_space by done.
  rewrite (words_token (s2t "ds=nocloud-net;s=http://" ++ _)); [done|done|].
  unfold no_space. rewrite !Forall_app.
  repeat split; try done; try apply str_int_no_space; by repeat constructor.
Qed.

Lemma sep_nil_or_space g2 rest :
  sep g2 rest ->
  g2 ++ rest = [] ∨ ∃ c b, g2 ++ rest = c :: b ∧ is_space c = true.
Proof.
  intros [w2 w3 r Hn2 Hs2 Hn3 Hs3|w r Hw He].
  - right. destruct Hs2 as [|c w2 Hc Hs2]; [done|]. simpl. eauto.
  - destruct Hw as [|c w Hc Hw]; [|right; simpl; eauto].
    destruct r as [|c r]; [by left|]. right. simpl in *.
    apply N.eqb_eq in He as ->. eauto.
Qed.

Lemma filter_single {A} (f : A -> bool) l y :
  List.filter f l = [y] ->
  f y = true ∧ forall z, In z l -> f z = true -> z = y.
Proof.
  intros H. split.
  - assert (Hy : In y (List.filter f l)) by (rewrite H; by left).
    by apply filter_In in Hy as [_ ?].
  - intros z Hz Hf. assert (Hz' : In z (List.filter f l)) by (by apply filter_In).
    rewrite H in Hz'. by destruct Hz' as [->|[]].
Qed.

Lemma directive_words_distinct ip port :
  s2t "autoinstall"
  ≠ s2t "ds=nocloud-net;s=http://" ++ ip ++ s2t ":" ++ str_int port ++ s2t "/".
Proof. done. Qed.

Lemma grub_matches_at ip port y :
  matches_at (grub_patterns ip port) y = true <->
  hit (s2t "linux") y ∨ hit (s2t "linuxefi") y.
Proof.
  unfold matches_at, grub_patterns. cbn [existsb fst]. rewrite <- !hit_rmatch.
  destruct (rmatch (kernel_re (s2t "linux")) y false),
    (rmatch (kernel_re (s2t "linuxefi")) y false); simpl;
    split; intros H; try done; eauto; destruct H as [[? ?]|[? ?]]; done.
Qed.

(** ** Kernel lines with other tokens *)

Lemma strip_prefix_app p s : strip_prefix p (p ++ s) = Some s.
Proof.
  induction p as [|a p IH]; simpl; [by destruct s|]. by rewrite N.eqb_refl.
Qed.

Lemma skip_space_app w c r :
  spaces w -> is_space c = false -> skip_space (w ++ c :: r) = c :: r.
Proof.
  intros Hw Hc. induction Hw as [|x w Hx Hw IH]; simpl; [by rewrite Hc|].
  by rewrite Hx.
Qed.

Lemma length_app_ne (w t : text) :
  w ≠ [] -> (length t =? length (w ++ t))%nat = false.
Proof.
  intros Hw. apply Nat.eqb_neq. rewrite length_app.
  destruct w; [done|]. simpl. lia.
Qed.

Lemma kernel_path_line kw w hwe z :
  w ≠ [] -> spaces w -> hwe_ok hwe ->
  kernel_path kw (kernel_line kw w hwe ++ z) = Some z.
Proof.
  intros Hn Hw Hh. unfold kernel_path, kernel_line. rewrite <- !app_assoc.
  rewrite strip_prefix_app.
  change (s2t "/casper/" ++ hwe ++ s2t "vmlinuz" ++ z)
    with (47 :: (s2t "casper/" ++ hwe ++ s2t "vmlinuz" ++ z)).
  rewrite skip_space_app by done. cbv zeta.
  rewrite length_app_ne by done.
  change (47 :: (s2t "casper/" ++ hwe ++ s2t "vmlinuz" ++ z))
    with (s2t "/casper/" ++ hwe ++ s2t "vmlinuz" ++ z).
  rewrite strip_prefix_app.
  destruct Hh as [-> | ->].
  - change ([] ++ s2t "vmlinuz" ++ z) with (s2t "vmlinuz" ++ z).
    replace (strip_prefix (s2t "hwe-") (s2t "vmlinuz" ++ z)) with (@None text)
      by reflexivity.
    apply strip_prefix_app.
  - rewrite strip_prefix_app. apply strip_prefix_app.
Qed.

Lemma other_token_spaces w r :
  spaces w -> other_token (w ++ r) = false ∨ other_token (w ++ r) = other_token r.
Proof.
  intros Hw. induction Hw as [|c w Hc Hw IH]; [by right|].
  unfold other_token in *. simpl. rewrite Hc.
  destruct (c =? newline) eqn:E; simpl; [|done].
  left. by rewrite Hc.
Qed.

Lemma sep_other_token g2 rest : sep g2 rest -> other_token (g2 ++ rest) = false.
Proof.
  intros [w2 w3 r Hn2 Hs2 Hn3 Hs3|w r Hw He].
  - rewrite <- !app_assoc.
    destruct (other_token_spaces w2 (s2t "---" ++ w3 ++ r) Hs2) as [->| ->]; [done|].
    destruct Hs3 as [|c w3 Hc Hs3]; [done|].
    unfold other_token. simpl. by rewrite Hc.
  - destruct (other_token_spaces w r Hw) as [->| ->]; [done|].
    destruct r as [|c r]; [done|]. simpl in He. apply N.eqb_eq in He as ->.
    done.
Qed.

(** C9.  A text in which every kernel invocation ([linux] or [linuxefi], then
    [/casper/vmlinuz] or [/casper/hwe-vmlinuz]) has on its line a next
    token other than [---] is left as it is by the two GRUB rules, so that
    the patch is the collapse of multiple spaces alone: the rules match only
    where the kernel path is followed by a white-space-delimited [---] or by
    the end of the line (lemma [rmatch_kernel]). *)
Theorem grub_rules_skip_other_tokens ip port x :
  forallb followed_by_other_token (tails x) = true ->
  apply_patterns (grub_patterns ip port) x = x
  ∧ patch_text (grub_patterns ip port) x = clean_spaces x.
Proof.
  intros H.
  enough (E : apply_patterns (grub_patterns ip port) x = x)
    by (split; [done|]; unfold patch_text; by rewrite E).
  assert (Hn : forall kw y, kw_ok kw -> y `suffix_of` x -> ¬ hit kw y).
  { intros kw y Hkw Hy (w & hwe & g2 & rest & -> & Hwn & Hw & Hh & Hs).
    apply suffix_tails in Hy.
    pose proof (proj1 (forallb_forall _ _) H _ Hy) as Hc.
    unfold followed_by_other_token in Hc. cbn [forallb] in Hc.
    rewrite !andb_true_iff in Hc. destruct Hc as (H1 & H2 & _).
    pose proof (sep_other_token _ _ Hs) as Ho.
    destruct Hkw as [-> | ->].
    - rewrite kernel_path_line in H1 by done. congruence.
    - rewrite kernel_path_line in H2 by done. congruence. }
  rewrite grub_patterns_eq.
  rewrite (ksub_id ip port (s2t "linux") x) by (intros y; apply Hn; by left).
  apply ksub_id. intros y. apply Hn. by right.
Qed.

Lemma grub_rules_skip_other_tokens_witness :
  forallb followed_by_other_token
    (tails (s2t "    linux   /casper/vmlinuz quiet splash ---
")) = true
  ∧ apply_patterns (grub_patterns (s2t "10.0.2.2") 8080)
      (s2t "    linux   /casper/vmlinuz quiet splash ---
")
    = s2t "    linux   /casper/vmlinuz quiet splash ---
".
Proof.
  split; [by vm_compute|].
  refine (proj1 (grub_rules_skip_other_tokens _ _ _ _)). by vm_compute.
Defined.

(** ** The two examples *)

Lemma nohit_no_l kw z :
  kw_ok kw -> Forall (fun c => c ≠ 108) z ->
  forall y, y `suffix_of` z -> ¬ hit kw y.
Proof.
  intros Hkw Hz y [p ->]. apply Forall_app in Hz as [_ Hz].
  destruct Hz as [|c y Hc Hy].
  - intros H. apply hit_linux in H as [k H]; done.
  - by apply nohit_head.
Qed.

(** A kernel rule on a text that is one kernel line and what follows it. *)
Lemma ksub_line ip port kw w hwe z :
  kw_ok kw -> w ≠ [] -> spaces w -> hwe_ok hwe ->
  Forall (fun c => c ≠ 108) z ->
  hit kw (kernel_line kw w hwe ++ z) ->
  re_sub (kernel_re kw) (kernel_repl ip port) (kernel_line kw w hwe ++ z)
  = kernel_line kw w hwe ++ (space :: autoinstall_params ip port) ++ z.
Proof.
  intros Hkw Hn Hw Hh Hz Hhit. apply hit_rmatch in Hhit as [[rest caps] E].
  destruct (re_sub_kernel_hit ip port _ _ _ _ E)
    as (w' & hwe' & g2 & Ey & Hn' & Hw' & Hh' & Hs & ->).
  pose proof (kernel_line_inj _ _ _ _ _ _ _ Hw Hw' Hh Hh' Ey) as Ez.
  subst z. apply app_inv_tail in Ey. rewrite <- Ey.
  rewrite (ksub_id ip port kw rest).
  - done.
  - apply nohit_no_l; [done|]. by apply Forall_app in Hz as [_ ?].
Qed.

Lemma hit_prefix kw y : hit kw y -> kw `prefix_of` y.
Proof.
  intros (w & hwe & g2 & rest & -> & _). unfold kernel_line.
  rewrite <- !app_assoc. by eexists.
Qed.

(** No match in [t ++ z] when none can start inside [t] and none is in [z]. *)
Lemma nohit_text kw (t z : text) :
  forallb (fun g => match g with
                    | [] => true
                    | _ :: _ => negb (may_start kw g)
                    end) (tails t) = true ->
  (forall y, y `suffix_of` z -> ¬ hit kw y) ->
  forall o, o `suffix_of` (t ++ z) -> ¬ hit kw o.
Proof.
  intros Ht Hz o Ho. apply suffix_app_cases in Ho as [Ho|(g & Hg & Hn & ->)].
  - by apply Hz.
  - apply suffix_tails in Hg.
    pose proof (proj1 (forallb_forall _ _) Ht _ Hg) as Hm.
    destruct g as [|x g]; [done|]. apply negb_true_iff in Hm.
    intros H. apply hit_prefix, may_start_prefix in H. congruence.
Qed.

Lemma squeeze_app a x b :
  x ≠ space -> squeeze (a ++ x :: b) = squeeze (a ++ [x]) ++ squeeze b.
Proof.
  intros Hx. induction a as [|c [|c' a] IH].
  - simpl app. by rewrite !squeeze_cons.
  - change ([c] ++ x :: b) with (c :: x :: b). change ([c] ++ [x]) with [c; x].
    change (squeeze (c :: x :: b))
      with (if (c =? space) && (x =? space) then squeeze (x :: b)
            else c :: squeeze (x :: b)).
    change (squeeze [c; x])
      with (if (c =? space) && (x =? space) then squeeze [x] else c :: squeeze [x]).
    destruct (N.eqb_spec x space) as [->|_]; [done|].
    rewrite andb_false_r. by rewrite squeeze_cons.
  - change ((c :: c' :: a) ++ x :: b) with (c :: c' :: (a ++ x :: b)).
    change ((c :: c' :: a) ++ [x]) with (c :: c' :: (a ++ [x])).
    change (squeeze (c :: c' :: a ++ x :: b))
      with (if (c =? space) && (c' =? space) then squeeze ((c' :: a) ++ x :: b)
            else c :: squeeze ((c' :: a) ++ x :: b)).
    change (squeeze (c :: c' :: a ++ [x]))
      with (if (c =? space) && (c' =? space) then squeeze ((c' :: a) ++ [x])
            else c :: squeeze ((c' :: a) ++ [x])).
    rewrite IH. by destruct ((c =? space) && (c' =? space)).
Qed.

(** C6, as amended.  With the endpoint 10.0.2.2:8080, the GRUB rule set turns
    the line [linux /casper/vmlinuz ---], when a white-space character (such
    as the newline that ends the line) follows it, into
    [linux /casper/vmlinuz autoinstall ds=nocloud-net;s=http://10.0.2.2:8080/ ---]
    followed by that character. *)
Theorem grub_example_terminated c :
  is_space c = true ->
  patch_text (grub_patterns (s2t "10.0.2.2") 8080)
    (s2t "linux /casper/vmlinuz ---" ++ [c])
  = s2t "linux /casper/vmlinuz autoinstall ds=nocloud-net;s=http://10.0.2.2:8080/ ---"
    ++ [c].
Proof.
  intros Hc. unfold patch_text. rewrite grub_patterns_eq, clean_spaces_squeeze.
  assert (Hl : Forall (fun x => x ≠ 108) [c]).
  { constructor; [|done]. intros ->. done. }
  assert (E1 : re_sub (kernel_re (s2t "linux")) (kernel_repl (s2t "10.0.2.2") 8080)
                 (s2t "linux /casper/vmlinuz ---" ++ [c])
               = s2t "linux /casper/vmlinuz autoinstall ds=nocloud-net;s=http://10.0.2.2:8080/ ---"
                 ++ [c]).
  { apply (ksub_line (s2t "10.0.2.2") 8080 (s2t "linux") [space] []
             (s2t " ---" ++ [c])).
    - by left.
    - done.
    - by repeat constructor.
    - by left.
    - apply Forall_app. split; [by repeat constructor|done].
    - exists [space], [], (s2t " ---" ++ [c]), [].
      split; [by rewrite app_nil_r|]. split; [done|]. split; [by repeat constructor|].
      split; [by left|]. apply (sep_dashes [space] [c] []); try done;
        by repeat constructor. }
  rewrite E1. clear E1.
  rewrite (ksub_id (s2t "10.0.2.2") 8080 (s2t "linuxefi")).
  - change (s2t "linux /casper/vmlinuz autoinstall ds=nocloud-net;s=http://10.0.2.2:8080/ ---"
            ++ [c])
      with (s2t "linux /casper/vmlinuz autoinstall ds=nocloud-net;s=http://10.0.2.2:8080/ --"
            ++ 45 :: [c]).
    rewrite squeeze_app by done. by vm_compute.
  - apply nohit_text; [by vm_compute|]. apply nohit_no_l; [by right|done].
Qed.

Lemma grub_example_terminated_witness :
  is_space newline = true
  ∧ patch_text (grub_patterns (s2t "10.0.2.2") 8080)
      (s2t "linux /casper/vmlinuz ---" ++ [newline])
    = s2t "linux /casper/vmlinuz autoinstall ds=nocloud-net;s=http://10.0.2.2:8080/ ---"
      ++ [newline].
Proof.
  split; [reflexivity|]. apply grub_example_terminated. reflexivity.
Defined.

(** C6 as stated fails when nothing follows the line: [\s+---\s+] asks for
    white space after the dashes and [\s*$] for the end of the line right
    after the kernel path, so the text is left as it is. *)
Lemma grub_example_unterminated :
  patch_text (grub_patterns (s2t "10.0.2.2") 8080) (s2t "linux /casper/vmlinuz ---")
  = s2t "linux /casper/vmlinuz ---"
  ∧ patch_text (grub_patterns (s2t "10.0.2.2") 8080) (s2t "linux /casper/vmlinuz ---")
    ≠ s2t "linux /casper/vmlinuz autoinstall ds=nocloud-net;s=http://10.0.2.2:8080/ ---".
Proof. split; by vm_compute. Qed.

(** C7.  With the endpoint 10.0.2.2:8080, the ISOLINUX rule set turns the line
    [append initrd=/casper/initrd] into
    [append autoinstall ds=nocloud-net;s=http://10.0.2.2:8080/ initrd=/casper/initrd]. *)
Theorem isolinux_example :
  patch_text [isolinux_pattern (s2t "10.0.2.2") 8080]
    (s2t "append initrd=/casper/initrd")
  = s2t "append autoinstall ds=nocloud-net;s=http://10.0.2.2:8080/ initrd=/casper/initrd".
Proof. by vm_compute. Qed.

(** ** One match, one directive *)

Lemma keyword_matches rs y :
  matches_at rs y = true <-> is_Some (keyword_at rs y).
Proof.
  unfold matches_at. induction rs as [|p rs IH]; cbn [existsb keyword_at].
  - split; [done|by intros [? ?]].
  - destruct (rmatch (fst p) y false) as [[rest caps]|]; [by split; eauto|].
    by rewrite orb_false_l.
Qed.

Lemma keyword_none rs y :
  matches_at rs y = false <-> keyword_at rs y = None.
Proof.
  pose proof (keyword_matches rs y) as [H1 H2].
  destruct (matches_at rs y), (keyword_at rs y) as [k|]; split; try done.
  - intros _. by destruct (H1 eq_refl).
  - intros _. by discriminate (H2 (mk_is_Some _ _ eq_refl)).
Qed.

Lemma tails_suffix_of (g s : text) : In g (tails s) <-> g `suffix_of` s.
Proof.
  split; [|apply suffix_tails].
  induction s as [|c s IH]; cbn [tails In].
  - by intros [<-|[]].
  - intros [<-|H]; [done|]. by apply suffix_cons_r, IH.
Qed.

Lemma squeeze_snoc a x : x ≠ space -> squeeze (a ++ [x]) = squeeze a ++ [x].
Proof.
  intros Hx. induction a as [|c a IH]; [done|].
  destruct a as [|c' a].
  - cbn [app].
    change (squeeze [c; x])
      with (if (c =? space) && (x =? space) then squeeze [x] else c :: squeeze [x]).
    apply N.eqb_neq in Hx. rewrite Hx. by rewrite andb_false_r.
  - cbn [app] in *.
    change (squeeze (c :: c' :: a ++ [x]))
      with (if (c =? space) && (c' =? space) then squeeze (c' :: a ++ [x])
            else c :: squeeze (c' :: a ++ [x])).
    change (squeeze (c :: c' :: a))
      with (if (c =? space) && (c' =? space) then squeeze (c' :: a)
            else c :: squeeze (c' :: a)).
    rewrite IH. by destruct ((c =? space) && (c' =? space)).
Qed.

Lemma squeeze_last s : last (squeeze s) = last s.
Proof.
  induction s as [|c s IH]; [done|].
  destruct s as [|c' s]; [done|].
  change (squeeze (c :: c' :: s))
    with (if (c =? space) && (c' =? space) then squeeze (c' :: s)
          else c :: squeeze (c' :: s)).
  rewrite last_cons_cons.
  destruct ((c =? space) && (c' =? space)); [done|].
  rewrite last_cons, IH.
  by destruct (last (c' :: s)) eqn:E; [|apply last_None in E].
Qed.

Lemma squeeze_filter f s :
  f space = false -> List.filter f (squeeze s) = List.filter f s.
Proof.
  intros Hf. induction s as [|c s IH]; [done|].
  destruct s as [|c' s]; [done|].
  change (squeeze (c :: c' :: s))
    with (if (c =? space) && (c' =? space) then squeeze (c' :: s)
          else c :: squeeze (c' :: s)).
  destruct ((c =? space) && (c' =? space)) eqn:E.
  - apply andb_true_iff in E as [->%N.eqb_eq _]. rewrite IH.
    cbn [List.filter]. by rewrite Hf.
  - cbn [List.filter] in *. by rewrite IH.
Qed.

(** The clean-up of spaces works line by line. *)
Lemma squeeze_lines before l after :
  ends_line before = true -> at_eol after = true ->
  squeeze (before ++ l ++ after) = squeeze before ++ squeeze l ++ squeeze after.
Proof.
  intros Hb Ha.
  assert (H : squeeze (l ++ after) = squeeze l ++ squeeze after).
  { destruct after as [|c after]; [by rewrite !app_nil_r|].
    cbn [at_eol] in Ha. apply N.eqb_eq in Ha as ->.
    rewrite (squeeze_app l newline after) by done. rewrite squeeze_snoc by done.
    rewrite squeeze_cons by done. by rewrite <- app_assoc. }
  unfold ends_line in Hb. destruct (last before) as [c|] eqn:E.
  - apply N.eqb_eq in Hb as ->. apply last_Some in E as [b' ->].
    rewrite <- app_assoc. cbn [app].
    rewrite (squeeze_app b' newline (l ++ after)) by done. f_equal. exact H.
  - apply last_None in E as ->. exact H.
Qed.

(** ** A scan that puts a text in after each keyword *)

Section Scan.

Variable P : text -> text.
Variable rs : list (regex * template).
Variable D : text.

Hypothesis P_nil : P [] = [].
Hypothesis P_miss :
  forall c x, matches_at rs (c :: x) = false -> P (c :: x) = c :: P x.
Hypothesis P_hit :
  forall y kwd,
    keyword_at rs y = Some kwd ->
    kwd ≠ [] ∧ ∃ tail, y = kwd ++ tail ∧ P y = kwd ++ D ++ P tail.

Lemma scan_head x : head (P x) = head x.
Proof.
  destruct x as [|c x]; [by rewrite P_nil|].
  destruct (keyword_at rs (c :: x)) as [k|] eqn:E.
  - destruct (P_hit _ _ E) as (Hk & tail & Hy & ->).
    destruct k as [|c' k]; [done|]. by injection Hy as -> _.
  - apply keyword_none in E. by rewrite P_miss.
Qed.

Lemma scan_skip a y :
  (forall p, p ≠ [] -> p `suffix_of` a -> matches_at rs (p ++ y) = false) ->
  P (a ++ y) = a ++ P y.
Proof.
  induction a as [|c a IH]; intros H; [done|].
  cbn [app]. rewrite P_miss by (by apply (H (c :: a))).
  rewrite IH; [done|]. intros p Hp Hs. apply H; [done|by apply suffix_cons_r].
Qed.

(** What is before a place where no match straddles is scanned on its
    own. *)
Lemma scan_before pre y :
  forallb (keyword_inside rs y) (tails pre) = true ->
  ∃ before,
    P (pre ++ y) = before ++ P y
    ∧ last before = last pre
    ∧ forall f, List.filter f D = [] -> List.filter f before = List.filter f pre.
Proof.
  rewrite forallb_forall. intros H.
  assert (H' : forall p, p `suffix_of` pre -> keyword_inside rs y p = true)
    by (intros p Hp; by apply H, tails_suffix_of).
  clear H. remember (length pre) as n eqn:En. revert pre En H'.
  induction n as [n IH] using lt_wf_ind. intros pre En H.
  destruct pre as [|c pre]; [by exists []|].
  destruct (keyword_at rs ((c :: pre) ++ y)) as [k|] eqn:E.
  - pose proof (H (c :: pre) (reflexivity _)) as Hk.
    unfold keyword_inside in Hk. rewrite E in Hk. apply Nat.ltb_lt in Hk.
    destruct (P_hit _ _ E) as (Hne & tail & Hy & ->).
    rewrite <- (take_drop (length k) (c :: pre)), <- app_assoc in Hy.
    apply app_inj_1 in Hy as [Hk' Ht]; [|rewrite length_take; lia].
    set (m := drop (length k) (c :: pre)) in *.
    assert (Hm : m `suffix_of` c :: pre) by apply suffix_drop.
    assert (Hlen : (0 < length m < n)%nat).
    { unfold m. rewrite length_drop. subst n. destruct k; [done|].
      cbn [length] in *. lia. }
    destruct (IH (length m) (proj2 Hlen) m eq_refl) as (bm & Hbm & Hl & Hfm).
    { intros p Hp. apply H. by etrans. }
    exists (k ++ D ++ bm). subst tail. rewrite Hbm.
    split; [by rewrite <- !app_assoc|]. split.
    + assert (Hmn : m ≠ []) by (destruct m; [cbn in Hlen; lia|done]).
      assert (is_Some (last m)) as [x Hx] by (by apply last_is_Some).
      rewrite Hx in Hl. rewrite !last_app, Hl.
      destruct Hm as [q ->]. by rewrite last_app, Hx.
    + intros f Hf. rewrite <- (take_drop (length k) (c :: pre)), Hk'.
      rewrite !List.filter_app, Hf, (Hfm f Hf). done.
  - apply keyword_none in E. cbn [app] in *. rewrite P_miss by done.
    destruct pre as [|c' pre]; [by exists [c]|].
    destruct (IH (length (c' :: pre))) with (pre := c' :: pre)
      as (b & Hb & Hl & Hfb); [subst n; cbn [length]; lia|done| |].
    { intros p Hp. apply H. by apply suffix_cons_r. }
    exists (c :: b). rewrite Hb. split; [done|]. split.
    + rewrite last_cons, Hl, last_cons_cons.
      by destruct (last (c' :: pre)) eqn:El; [|apply last_None in El].
    + intros f Hf. cbn [List.filter]. by rewrite (Hfb f Hf).
Qed.

(** A block with one match, after a place where no match straddles. *)
Lemma scan_block pre a kwd b post :
  forallb (keyword_inside rs ((a ++ kwd ++ b) ++ post)) (tails pre) = true ->
  List.filter (fun z => matches_at rs (z ++ post)) (tails (a ++ kwd ++ b))
    = [kwd ++ b] ->
  keyword_at rs (kwd ++ b ++ post) = Some kwd ->
  ∃ before,
    P (pre ++ (a ++ kwd ++ b) ++ post) = before ++ (a ++ kwd ++ D ++ b) ++ P post
    ∧ last before = last pre
    ∧ forall f, List.filter f D = [] -> List.filter f before = List.filter f pre.
Proof.
  intros Hpre Hf Hk.
  destruct (scan_before pre _ Hpre) as (before & -> & Hl).
  exists before. split; [|done]. f_equal.
  apply filter_single in Hf as [_ Hu].
  destruct (P_hit _ _ Hk) as (Hne & tail & Hy & HP).
  apply app_inv_head in Hy. subst tail.
  assert (Hlen : forall p z : text, p ≠ [] -> z = p ++ z -> False).
  { intros p z Hp Hz. apply (f_equal length) in Hz. rewrite length_app in Hz.
    destruct p; [done|]. cbn [length] in Hz. lia. }
  rewrite <- !app_assoc. rewrite scan_skip.
  2:{ intros p Hp Hs. destruct (matches_at rs (p ++ kwd ++ b ++ post)) eqn:E; [|done].
      exfalso. apply (Hlen p (kwd ++ b) Hp). symmetry.
      rewrite app_assoc. apply Hu.
      - apply tails_suffix_of. rewrite !app_assoc.
        apply suffix_app. by apply suffix_app.
      - by rewrite <- !app_assoc. }
  rewrite HP. rewrite scan_skip; [done|].
  intros p Hp Hs. destruct (matches_at rs (p ++ post)) eqn:E; [|done].
  exfalso. assert (Hz : p = kwd ++ b).
  { apply Hu; [|done]. apply tails_suffix_of.
    rewrite app_assoc. by apply suffix_app_r. }
  destruct Hs as [q Hq]. rewrite Hz in Hq.
  apply (f_equal length) in Hq. rewrite !length_app in Hq.
  destruct kwd; [done|]. cbn [length] in Hq. lia.
Qed.

End Scan.

(** ** Every match gets its directive *)

(** A text that is empty or starts with white space. *)
Lemma at_eol_sub kw ip port rest :
  kw_ok kw -> at_eol rest = true ->
  at_eol (re_sub (kernel_re kw) (kernel_repl ip port) rest) = true.
Proof.
  intros Hkw H. destruct rest as [|c rest].
  - by rewrite re_sub_nil by apply kernel_nonempty.
  - cbn [at_eol] in H. rewrite re_sub_miss; [done|].
    apply nohit_rmatch, nohit_head; [done|].
    apply N.eqb_eq in H as ->. done.
Qed.

Lemma sep_sub kw ip port g2 rest :
  kw_ok kw -> sep g2 rest ->
  sep g2 (re_sub (kernel_re kw) (kernel_repl ip port) rest).
Proof.
  intros Hkw [w2 w3 r H1 H2 H3 H4|w r Hw He].
  - by constructor.
  - constructor; [done|]. by apply at_eol_sub.
Qed.

(** No kernel pattern matches at a place inside what group 2 captures. *)
Lemma ksub_skip_sep kw ip port g2 rest :
  kw_ok kw -> sep g2 rest ->
  re_sub (kernel_re kw) (kernel_repl ip port) (g2 ++ rest)
  = g2 ++ re_sub (kernel_re kw) (kernel_repl ip port) rest.
Proof.
  intros Hkw Hs. apply re_sub_skip. intros p Hp Hsuf.
  apply nohit_rmatch. destruct p as [|c p]; [done|]. apply nohit_head; [done|].
  apply sep_chars in Hs. rewrite Forall_forall in Hs.
  assert (Hc : c ∈ g2).
  { destruct Hsuf as [q ->]. apply elem_of_app. right. by left. }
  destruct (Hs c Hc) as [H| ->]; [|done]. by intros ->.
Qed.

(** One match of a kernel pattern: the replacement is the captured kernel
    line and the directive, and the substitution goes on behind them. *)
Lemma ksub_hit kw ip port y rest caps :
  kw_ok kw ->
  rmatch (kernel_re kw) y false = Some (rest, caps) ->
  ∃ w hwe g2,
    group 1 caps = kernel_line kw w hwe
    ∧ y = kernel_line kw w hwe ++ g2 ++ rest
    ∧ w ≠ [] ∧ spaces w ∧ hwe_ok hwe ∧ sep g2 rest
    ∧ re_sub (kernel_re kw) (kernel_repl ip port) y
      = kernel_line kw w hwe ++ inserted ip port
        ++ re_sub (kernel_re kw) (kernel_repl ip port) (g2 ++ rest).
Proof.
  intros Hkw E.
  destruct (rmatch_kernel _ _ _ _ _ E) as (w & hwe & g2 & Hy & Hc & Hw & Hs & Hh & Hsep).
  exists w, hwe, g2. split; [by rewrite Hc|].
  split; [exact Hy|]. split; [exact Hw|]. split; [exact Hs|].
  split; [exact Hh|]. split; [exact Hsep|].
  rewrite (re_sub_hit _ (kernel_repl ip port) _ _ _ (kernel_nonempty kw) E).
  rewrite Hc, expand_kernel_repl, ksub_skip_sep by done.
  unfold inserted. rewrite <- !app_assoc. cbn [app]. by rewrite <- !app_assoc.
Qed.

Section GrubScan.

Variable ip : text.
Variable port : Z.
Hypothesis ip_no_space : no_space ip.

Lemma grub_scan_nil : apply_patterns (grub_patterns ip port) [] = [].
Proof.
  rewrite grub_patterns_eq. by rewrite !re_sub_nil by apply kernel_nonempty.
Qed.

Lemma grub_scan_miss c x :
  matches_at (grub_patterns ip port) (c :: x) = false ->
  apply_patterns (grub_patterns ip port) (c :: x)
  = c :: apply_patterns (grub_patterns ip port) x.
Proof.
  intros H. rewrite !grub_patterns_eq.
  assert (Hn : forall kw, kw_ok kw -> ¬ hit kw (c :: x)).
  { intros kw Hkw Hh. apply Bool.not_true_iff_false in H. apply H.
    apply grub_matches_at. by destruct Hkw as [-> | ->]; [left|right]. }
  rewrite (re_sub_miss (kernel_re (s2t "linux")))
    by (apply nohit_rmatch, Hn; by left).
  rewrite re_sub_miss; [done|]. apply nohit_rmatch. intros Hh.
  apply (Hn (s2t "linuxefi")); [by right|].
  apply (hit_ins _ _ _ (inserted_shape ip port) eq_refl) with
    (o := c :: re_sub (kernel_re (s2t "linux")) (kernel_repl ip port) x);
    [done|by right| |done].
  constructor. apply ksub_ins.
Qed.

(** The second rule finds nothing in what the first one has put in. *)
Lemma grub_scan_linux y rest caps :
  rmatch (kernel_re (s2t "linux")) y false = Some (rest, caps) ->
  ∃ tail,
    y = group 1 caps ++ tail
    ∧ (tail = [] ∨ ∃ c t, tail = c :: t ∧ is_space c = true)
    ∧ apply_patterns (grub_patterns ip port) y
      = group 1 caps ++ inserted ip port
        ++ apply_patterns (grub_patterns ip port) tail.
Proof.
  intros E.
  destruct (ksub_hit _ ip port _ _ _ (or_introl eq_refl) E)
    as (w & hwe & g2 & -> & -> & Hw & Hs & Hh & Hsep & Hsub).
  exists (g2 ++ rest). split; [done|]. split; [by apply sep_nil_or_space|].
  rewrite !grub_patterns_eq, Hsub.
  rewrite (app_assoc (kernel_line _ _ _)), re_sub_skip; [by rewrite <- app_assoc|].
  intros p Hp Hsuf. apply nohit_rmatch.
  apply suffix_app_cases in Hsuf as [Hsuf|(a' & Ha & Hne & ->)].
  - by apply (inserted_free_ok ip port); [|right|..].
  - rewrite <- app_assoc. destruct (decide (a' = kernel_line (s2t "linux") w hwe)) as [->|Hd].
    + by apply (nohit_patched _ _ _ (inserted_shape ip port) eq_refl);
        [|left|right|..].
    + by apply (nohit_inside (s2t "linux") (s2t "linuxefi") w hwe); [left|right|..].
Qed.

(** The first rule finds nothing in a match of the second one. *)
Lemma grub_scan_efi y rest caps :
  rmatch (kernel_re (s2t "linux")) y false = None ->
  rmatch (kernel_re (s2t "linuxefi")) y false = Some (rest, caps) ->
  ∃ tail,
    y = group 1 caps ++ tail
    ∧ (tail = [] ∨ ∃ c t, tail = c :: t ∧ is_space c = true)
    ∧ apply_patterns (grub_patterns ip port) y
      = group 1 caps ++ inserted ip port
        ++ apply_patterns (grub_patterns ip port) tail.
Proof.
  intros En E.
  destruct (rmatch_kernel _ _ _ _ _ E) as (w & hwe & g2 & Hy & Hc & Hw & Hs & Hh & Hsep).
  assert (Hg : group 1 caps = kernel_line (s2t "linuxefi") w hwe) by (by rewrite Hc).
  rewrite Hg. exists (g2 ++ rest). split; [exact Hy|].
  split; [by apply sep_nil_or_space|].
  rewrite !grub_patterns_eq.
  assert (HL : re_sub (kernel_re (s2t "linux")) (kernel_repl ip port) y
               = kernel_line (s2t "linuxefi") w hwe
                 ++ re_sub (kernel_re (s2t "linux")) (kernel_repl ip port)
                      (g2 ++ rest)).
  { rewrite Hy. apply re_sub_skip. intros p Hp Hsuf.
    destruct (decide (p = kernel_line (s2t "linuxefi") w hwe)) as [->|Hd].
    - by rewrite <- Hy.
    - apply nohit_rmatch.
      by apply (nohit_inside (s2t "linuxefi") (s2t "linux") w hwe); [right|left|..]. }
  rewrite HL.
  rewrite (ksub_skip_sep (s2t "linux") ip port g2 rest (or_introl eq_refl) Hsep).
  set (X := re_sub (kernel_re (s2t "linux")) (kernel_repl ip port) rest).
  assert (Hhit : hit (s2t "linuxefi") (kernel_line (s2t "linuxefi") w hwe ++ g2 ++ X)).
  { exists w, hwe, g2, X. do 4 (split; [done|]). apply sep_sub; [by left|done]. }
  apply hit_rmatch in Hhit as [[rest' caps'] E'].
  destruct (ksub_hit _ ip port _ _ _ (or_intror eq_refl) E')
    as (w' & hwe' & g2' & _ & Hy' & Hw' & Hs' & Hh' & Hsep' & ->).
  pose proof (kernel_line_inj _ _ _ _ _ _ _ Hs Hs' Hh Hh' Hy') as Ht.
  rewrite <- Ht in *. apply app_inv_tail in Hy'. by rewrite <- Hy'.
Qed.

Lemma grub_scan_hit y kwd :
  keyword_at (grub_patterns ip port) y = Some kwd ->
  kwd ≠ []
  ∧ ∃ tail,
      y = kwd ++ tail
      ∧ apply_patterns (grub_patterns ip port) y
        = kwd ++ inserted ip port ++ apply_patterns (grub_patterns ip port) tail.
Proof.
  unfold grub_patterns at 1. cbn [keyword_at fst].
  destruct (rmatch (kernel_re (s2t "linux")) y false) as [[rest caps]|] eqn:E1.
  - intros [= <-]. destruct (grub_scan_linux _ _ _ E1) as (tail & Hy & _ & HP).
    split; [|by exists tail].
    destruct (rmatch_kernel _ _ _ _ _ E1) as (w & hwe & g2 & _ & -> & _).
    cbn [group Nat.eqb]. apply kernel_line_nonempty.
  - destruct (rmatch (kernel_re (s2t "linuxefi")) y false) as [[rest caps]|] eqn:E2;
      [|done].
    intros [= <-]. destruct (grub_scan_efi _ _ _ E1 E2) as (tail & Hy & _ & HP).
    split; [|by exists tail].
    destruct (rmatch_kernel _ _ _ _ _ E2) as (w & hwe & g2 & _ & -> & _).
    cbn [group Nat.eqb]. apply kernel_line_nonempty.
Qed.

Lemma grub_scan_blank y kwd :
  keyword_at (grub_patterns ip port) y = Some kwd ->
  ∃ tail, y = kwd ++ tail ∧ (tail = [] ∨ ∃ c t, tail = c :: t ∧ is_space c = true).
Proof.
  unfold grub_patterns at 1. cbn [keyword_at fst].
  destruct (rmatch (kernel_re (s2t "linux")) y false) as [[rest caps]|] eqn:E1.
  - intros [= <-]. destruct (grub_scan_linux _ _ _ E1) as (tail & Hy & Hb & _).
    by exists tail.
  - destruct (rmatch (kernel_re (s2t "linuxefi")) y false) as [[rest caps]|] eqn:E2;
      [|done].
    intros [= <-]. destruct (grub_scan_efi _ _ _ E1 E2) as (tail & Hy & Hb & _).
    by exists tail.
Qed.

End GrubScan.

Section IsolinuxScan.

Variable ip : text.
Variable port : Z.

Lemma isolinux_scan_nil : apply_patterns [isolinux_pattern ip port] [] = [].
Proof. apply re_sub_nil, append_nonempty. Qed.

Lemma isolinux_scan_miss c x :
  matches_at [isolinux_pattern ip port] (c :: x) = false ->
  apply_patterns [isolinux_pattern ip port] (c :: x)
  = c :: apply_patterns [isolinux_pattern ip port] x.
Proof.
  unfold matches_at. cbn [existsb]. rewrite orb_false_r. intros H.
  apply re_sub_miss. by destruct (rmatch _ _ _).
Qed.

Lemma isolinux_scan_hit y kwd :
  keyword_at [isolinux_pattern ip port] y = Some kwd ->
  (kwd ≠ []
   ∧ ∃ tail,
       y = kwd ++ tail
       ∧ apply_patterns [isolinux_pattern ip port] y
         = kwd ++ (autoinstall_params ip port ++ [space])
           ++ apply_patterns [isolinux_pattern ip port] tail)
  ∧ ∃ k c, kwd = k ++ [c] ∧ is_space c = true.
Proof.
  cbn [keyword_at]. change (fst (isolinux_pattern ip port)) with append_re.
  destruct (rmatch append_re y false) as [[rest caps]|] eqn:E; [|done].
  intros [= <-].
  destruct (rmatch_sound _ _ _ _ _ E) as (u & -> & Hs).
  destruct (sem_append _ _ _ Hs) as (w & Hu & -> & Hw & Hsp).
  cbn [group Nat.eqb]. split; [split|].
  - rewrite Hu. by destruct (s2t "append" ++ w) eqn:Ea;
      [apply app_eq_nil in Ea as [_ ->]|].
  - exists rest. split; [done|].
    change (apply_patterns [isolinux_pattern ip port] ?x)
      with (re_sub append_re (snd (isolinux_pattern ip port)) x).
    rewrite (re_sub_hit _ _ _ _ _ append_nonempty E).
    unfold isolinux_pattern. cbn [snd]. rewrite !expand_app, expand_tlit.
    cbn [expand group Nat.eqb]. rewrite app_nil_r. by rewrite <- !app_assoc.
  - destruct (exists_last Hw) as (w' & c & ->).
    exists (s2t "append" ++ w'), c. split; [by rewrite Hu, <- app_assoc|].
    unfold spaces in Hsp. apply Forall_app in Hsp as [_ Hc]. by inversion Hc.
Qed.

End IsolinuxScan.

Lemma no_space_no_newline s :
  no_space s -> List.filter (fun c : char => c =? newline) s = [].
Proof.
  induction 1 as [|c s Hc Hs IH]; [done|]. cbn [List.filter]. rewrite IH.
  destruct (c =? newline) eqn:E; [|done]. by apply N.eqb_eq in E as ->.
Qed.

(** The directive holds no line end. *)
Lemma directive_one_line d ip port :
  no_space ip ->
  List.filter (fun c : char => c =? newline) (directive_text d ip port) = [].
Proof.
  intros Hip.
  assert (H : List.filter (fun c : char => c =? newline) (autoinstall_params ip port) = []).
  { unfold autoinstall_params. rewrite !List.filter_app.
    rewrite (no_space_no_newline ip Hip).
    by rewrite (no_space_no_newline _ (str_int_no_space port)). }
  destruct d; cbn [directive_text].
  - cbn [List.filter]. by rewrite H.
  - rewrite List.filter_app, H. done.
Qed.

Lemma ends_line_last a b : last a = last b -> ends_line a = ends_line b.
Proof. unfold ends_line. by intros ->. Qed.

Lemma at_eol_head a b : head a = head b -> at_eol a = at_eol b.
Proof. destruct a, b; intros H; try done. by injection H as ->. Qed.

(** The three facts that describe how the rules of a dialect go through a
    text. *)
Lemma rules_scan d ip port :
  no_space ip ->
  apply_patterns (rules d ip port) [] = []
  ∧ (forall c x,
       matches_at (rules d ip port) (c :: x) = false ->
       apply_patterns (rules d ip port) (c :: x)
       = c :: apply_patterns (rules d ip port) x)
  ∧ (forall y kwd,
       keyword_at (rules d ip port) y = Some kwd ->
       kwd ≠ []
       ∧ ∃ tail,
           y = kwd ++ tail
           ∧ apply_patterns (rules d ip port) y
             = kwd ++ directive_text d ip port
               ++ apply_patterns (rules d ip port) tail).
Proof.
  intros Hip. destruct d; cbn [rules directive_text].
  - split; [apply grub_scan_nil|]. split; [by apply grub_scan_miss|].
    intros y kwd. by apply grub_scan_hit.
  - split; [apply isolinux_scan_nil|]. split; [apply isolinux_scan_miss|].
    intros y kwd Hk. by apply isolinux_scan_hit.
Qed.

(** The words around the directive that was put in after a keyword. *)
Lemma directive_between_words d ip port a kwd b post :
  no_space ip ->
  keyword_at (rules d ip port) (kwd ++ b ++ post) = Some kwd ->
  words (a ++ kwd ++ directive_text d ip port ++ b)
    = words (a ++ kwd) ++ directive_words ip port ++ words b
  ∧ words (a ++ kwd ++ b) = words (a ++ kwd) ++ words b.
Proof.
  intros Hip Hk. destruct d; cbn [rules directive_text] in *.
  - destruct (grub_scan_blank ip port Hip _ _ Hk) as (tail & Hy & Ht).
    apply app_inv_head in Hy.
    assert (Hb : b = [] ∨ ∃ c b', b = c :: b' ∧ is_space c = true).
    { destruct b as [|c b']; [by left|right]. exists c, b'. split; [done|].
      destruct Ht as [Ht|(c' & t & Ht & Hc)]; rewrite Ht in Hy; [done|].
      by injection Hy as -> _. }
    split.
    + replace (a ++ kwd ++ (space :: autoinstall_params ip port) ++ b)
        with ((a ++ kwd) ++ space :: (autoinstall_params ip port ++ b))
        by (by rewrite <- app_assoc).
      rewrite words_app_space by done. rewrite words_cons_space by done.
      rewrite (words_app_nil_or_space _ b Hb). by rewrite words_params.
    + rewrite (app_assoc a kwd). apply (words_app_nil_or_space _ b Hb).
  - destruct (isolinux_scan_hit ip port _ _ Hk) as [_ (k & c & -> & Hc)].
    split.
    + replace (a ++ (k ++ [c]) ++ (autoinstall_params ip port ++ [space]) ++ b)
        with ((a ++ k) ++ c :: (autoinstall_params ip port ++ space :: b))
        by (by rewrite <- !app_assoc).
      rewrite words_app_space by done. rewrite words_cons_space by done.
      rewrite words_app_space by done. rewrite words_cons_space by done.
      rewrite words_params by done. f_equal.
      rewrite <- (app_nil_r (a ++ k ++ [c])), app_assoc.
      rewrite words_snoc_space by done. by rewrite app_nil_r.
    + replace (a ++ (k ++ [c]) ++ b) with ((a ++ k) ++ c :: b)
        by (by rewrite <- !app_assoc).
      rewrite words_app_space by done. rewrite words_cons_space by done.
      f_equal.
      rewrite <- (app_nil_r (a ++ k ++ [c])), app_assoc.
      rewrite words_snoc_space by done. by rewrite app_nil_r.
Qed.

(** C2, as amended.  For both dialects and every endpoint whose address holds
    no white space and no backslash, the rules of the dialect go through a
    text from left to right: the empty text stays empty, a character at which
    no pattern matches is kept, and at every place where a pattern matches
    the captured keyword is kept, the directive ([directive_text]) is put in
    right after it, and the rules go on behind the keyword; so every match
    gets a directive of its own.  For a line [a ++ kwd ++ b] of a
    configuration [pre ++ (a ++ kwd ++ b) ++ post] with any number of other
    matching lines before and after it: if no match that starts before the
    line reaches it, the patterns match at one place of the line only, there
    with [kwd] as the captured keyword, and the line does not hold the words
    of the directive yet, then the patched configuration is
    [before ++ l ++ patch_text post], where [before] ends a line and holds as
    many lines as [pre], the patched rest starts with the line end, and the
    line [l] between them is the line with the directive right after the
    captured keyword, cleaned of multiple spaces; the words of [l] are the
    words of the line in their order with the two words of the directive
    after the keyword, and the directive occurs in [l] exactly once. *)
Theorem patch_inserts_directive d ip port :
  plain_host ip = true ->
  apply_patterns (rules d ip port) [] = []
  ∧ (forall c x,
       matches_at (rules d ip port) (c :: x) = false ->
       apply_patterns (rules d ip port) (c :: x)
       = c :: apply_patterns (rules d ip port) x)
  ∧ (forall y kwd,
       keyword_at (rules d ip port) y = Some kwd ->
       ∃ tail,
         y = kwd ++ tail
         ∧ apply_patterns (rules d ip port) y
           = kwd ++ directive_text d ip port
             ++ apply_patterns (rules d ip port) tail)
  ∧ (forall pre a kwd b post : text,
       ends_line pre = true ->
       at_eol post = true ->
       forallb (keyword_inside (rules d ip port) ((a ++ kwd ++ b) ++ post))
         (tails pre) = true ->
       List.filter (fun z => matches_at (rules d ip port) (z ++ post))
         (tails (a ++ kwd ++ b)) = [kwd ++ b] ->
       keyword_at (rules d ip port) (kwd ++ b ++ post) = Some kwd ->
       occurrences (words (autoinstall_params ip port)) (words (a ++ kwd ++ b))
         = 0%nat ->
       ∃ before,
         patch_text (rules d ip port) (pre ++ (a ++ kwd ++ b) ++ post)
           = before
             ++ clean_spaces (a ++ kwd ++ directive_text d ip port ++ b)
             ++ patch_text (rules d ip port) post
         ∧ ends_line before = true
         ∧ line_count before = line_count pre
         ∧ at_eol (patch_text (rules d ip port) post) = true
         ∧ words (clean_spaces (a ++ kwd ++ directive_text d ip port ++ b))
           = words (a ++ kwd) ++ words (autoinstall_params ip port) ++ words b
         ∧ occurrences (words (autoinstall_params ip port))
             (words (clean_spaces (a ++ kwd ++ directive_text d ip port ++ b)))
           = 1%nat).
Proof.
  intros Hip%plain_no_space.
  destruct (rules_scan d ip port Hip) as (Hnil & Hmiss & Hhit).
  split; [exact Hnil|]. split; [exact Hmiss|]. split.
  { intros y kwd Hk. by destruct (Hhit y kwd Hk) as [_ ?]. }
  intros pre a kwd b post Hpre Hpost Hin Hf Hk Ho.
  destruct (scan_block _ _ _ Hmiss Hhit pre a kwd b post Hin Hf Hk)
    as (bf & HP & Hl & Hc).
  destruct (directive_between_words d ip port a kwd b post Hip Hk) as [Hw1 Hw2].
  assert (Hbf : ends_line bf = true) by (by rewrite (ends_line_last _ _ Hl)).
  assert (Heol : at_eol (apply_patterns (rules d ip port) post) = true).
  { rewrite <- Hpost. apply at_eol_head. by apply (scan_head _ _ _ Hnil Hmiss Hhit). }
  exists (squeeze bf). unfold patch_text. rewrite !clean_spaces_squeeze.
  split; [rewrite HP; by apply squeeze_lines|].
  split; [unfold ends_line in *; by rewrite squeeze_last|].
  split.
  { unfold line_count. rewrite squeeze_filter by done.
    by rewrite (Hc _ (directive_one_line d ip port Hip)). }
  split; [by rewrite squeeze_eol|].
  rewrite words_squeeze, Hw1, words_params by done. split; [done|].
  rewrite words_params in Ho by done. rewrite Hw2 in Ho.
  apply occurrences_insert; [|done]. apply directive_words_distinct.
Qed.

Lemma patch_inserts_directive_witness :
  ∃ before,
    patch_text (rules Grub (s2t "10.0.2.2") 8080)
      (s2t "menuentry install {
	linux /casper/vmlinuz ---
	initrd /casper/initrd
}
menuentry hwe {
" ++ (s2t "	" ++ s2t "linux /casper/hwe-vmlinuz" ++ s2t " --- quiet") ++ s2t "
	initrd /casper/hwe-initrd
}
")
    = before
      ++ clean_spaces (s2t "	" ++ s2t "linux /casper/hwe-vmlinuz"
                       ++ directive_text Grub (s2t "10.0.2.2") 8080
                       ++ s2t " --- quiet")
      ++ patch_text (rules Grub (s2t "10.0.2.2") 8080) (s2t "
	initrd /casper/hwe-initrd
}
")
    ∧ ends_line before = true
    ∧ line_count before = 5%nat
    ∧ at_eol (patch_text (rules Grub (s2t "10.0.2.2") 8080) (s2t "
	initrd /casper/hwe-initrd
}
")) = true
    ∧ words (clean_spaces (s2t "	" ++ s2t "linux /casper/hwe-vmlinuz"
                           ++ directive_text Grub (s2t "10.0.2.2") 8080
                           ++ s2t " --- quiet"))
      = words (s2t "	" ++ s2t "linux /casper/hwe-vmlinuz")
        ++ words (autoinstall_params (s2t "10.0.2.2") 8080)
        ++ words (s2t " --- quiet")
    ∧ occurrences (words (autoinstall_params (s2t "10.0.2.2") 8080))
        (words (clean_spaces (s2t "	" ++ s2t "linux /casper/hwe-vmlinuz"
                              ++ directive_text Grub (s2t "10.0.2.2") 8080
                              ++ s2t " --- quiet")))
      = 1%nat.
Proof.
  apply (proj2 (proj2 (proj2
    (patch_inserts_directive Grub (s2t "10.0.2.2") 8080 eq_refl)))).
  - vm_compute. reflexivity.
  - vm_compute. reflexivity.
  - vm_compute. reflexivity.
  - vm_compute. reflexivity.
  - vm_compute. reflexivity.
  - vm_compute. reflexivity.
Defined.

(** C2 as stated fails on a line that the pattern matches twice: each match
    gets a directive. *)
Lemma two_matches_two_directives :
  matches_at [isolinux_pattern (s2t "10.0.2.2") 8080]
    (s2t "append initrd=/casper/initrd append quiet") = true
  ∧ patch_text [isolinux_pattern (s2t "10.0.2.2") 8080]
      (s2t "append initrd=/casper/initrd append quiet")
    = s2t "append autoinstall ds=nocloud-net;s=http://10.0.2.2:8080/ initrd=/casper/initrd append autoinstall ds=nocloud-net;s=http://10.0.2.2:8080/ quiet"
  ∧ occurrences (words (autoinstall_params (s2t "10.0.2.2") 8080))
      (words (patch_text [isolinux_pattern (s2t "10.0.2.2") 8080]
                (s2t "append initrd=/casper/initrd append quiet")))
    ≠ 1%nat.
Proof. split; [by vm_compute|]. split; by vm_compute. Qed.

(** Why the line must not be reached by a match that starts before it: the
    white space of [append\s+] runs over the line end, and the directive of
    the line before lands at the start of the line, which then holds two. *)
Lemma reaching_match_two_directives :
  forallb (keyword_inside [isolinux_pattern (s2t "10.0.2.2") 8080]
             (s2t "append quiet"))
    (tails (s2t "say append
")) = false
  ∧ List.filter
      (fun z => matches_at [isolinux_pattern (s2t "10.0.2.2") 8080] z)
      (tails (s2t "append quiet")) = [s2t "append quiet"]
  ∧ patch_text [isolinux_pattern (s2t "10.0.2.2") 8080]
      (s2t "say append
append quiet")
    = s2t "say append
autoinstall ds=nocloud-net;s=http://10.0.2.2:8080/ append autoinstall ds=nocloud-net;s=http://10.0.2.2:8080/ quiet".
Proof. split; [by vm_compute|]. split; by vm_compute. Qed.

(** Why the line must not hold the directive yet: the rules do not look for
    it, and put it in once more. *)
Lemma present_directive_two_directives :
  List.filter
    (fun z => matches_at [isolinux_pattern (s2t "10.0.2.2") 8080] z)
    (tails (s2t "append autoinstall ds=nocloud-net;s=http://10.0.2.2:8080/ quiet"))
  = [s2t "append autoinstall ds=nocloud-net;s=http://10.0.2.2:8080/ quiet"]
  ∧ occurrences (words (autoinstall_params (s2t "10.0.2.2") 8080))
      (words (patch_text [isolinux_pattern (s2t "10.0.2.2") 8080]
                (s2t "append autoinstall ds=nocloud-net;s=http://10.0.2.2:8080/ quiet")))
    = 2%nat.
Proof. split; by vm_compute. Qed.

(** ** The config patcher *)

Lemma apply_patterns_id patterns content :
  forallb (fun y => negb (matches_at patterns y)) (tails content) = true ->
  apply_patterns patterns content = content.
Proof.
  intros H. unfold apply_patterns.
  induction patterns as [|[r t] ps IH]; [done|]. cbn [fold_left fst snd].
  assert (Hr : re_sub r t content = content).
  { apply re_sub_id. intros y Hy. apply suffix_tails in Hy.
    pose proof (proj1 (forallb_forall _ _) H _ Hy) as Hc.
    unfold matches_at in Hc. cbn [existsb fst] in Hc.
    by destruct (rmatch r y false). }
  rewrite Hr. apply IH. apply forallb_forall. intros y Hy.
  pose proof (proj1 (forallb_forall _ _) H _ Hy) as Hc.
  unfold matches_at in *. cbn [existsb] in Hc.
  apply negb_true_iff in Hc. apply orb_false_iff in Hc as [_ Hc]. by rewrite Hc.
Qed.

Lemma squeeze_length s : (length (squeeze s) <= length s)%nat.
Proof.
  induction s as [|c [|c' s] IH]; [done..|].
  change (squeeze (c :: c' :: s))
    with (if (c =? space) && (c' =? space) then squeeze (c' :: s)
          else c :: squeeze (c' :: s)).
  destruct ((c =? space) && (c' =? space)); simpl in *; lia.
Qed.

Lemma contains_cons needle c h :
  contains needle (c :: h)
  = bool_decide (needle `prefix_of` c :: h) || contains needle h.
Proof. reflexivity. Qed.

Lemma double_space_prefix c c' s :
  bool_decide ([space; space] `prefix_of` c :: c' :: s)
  = (c =? space) && (c' =? space).
Proof.
  destruct (N.eqb_spec c space) as [->|Hc], (N.eqb_spec c' space) as [->|Hc'];
    cbn [andb];
    first [ apply bool_decide_eq_true_2; by exists s
          | apply bool_decide_eq_false_2; intros [k E]; by inversion E ].
Qed.

Lemma squeeze_fixed s : squeeze s = s -> contains [space; space] s = false.
Proof.
  induction s as [|c [|c' s] IH]; intros H.
  - done.
  - rewrite contains_cons. apply orb_false_iff. split; [|done].
    apply bool_decide_eq_false_2. intros [k E]. by inversion E.
  - rewrite contains_cons, double_space_prefix.
    change (squeeze (c :: c' :: s))
      with (if (c =? space) && (c' =? space) then squeeze (c' :: s)
            else c :: squeeze (c' :: s)) in H.
    destruct ((c =? space) && (c' =? space)).
    + pose proof (squeeze_length (c' :: s)) as Hl. rewrite H in Hl.
      simpl in Hl. lia.
    + inversion H as [H']. rewrite H'. by apply IH.
Qed.

Lemma squeeze_changes s : contains [space; space] s = true -> squeeze s ≠ s.
Proof. intros H E. apply squeeze_fixed in E. congruence. Qed.

Lemma squeeze_no_double s : contains [space; space] (squeeze s) = false.
Proof. apply squeeze_fixed, squeeze_idem. Qed.

Lemma squeeze_In c s : In c (squeeze s) -> In c s.
Proof.
  induction s as [|x [|x' s] IH]; [done..|].
  change (squeeze (x :: x' :: s))
    with (if (x =? space) && (x' =? space) then squeeze (x' :: s)
          else x :: squeeze (x' :: s)).
  destruct ((x =? space) && (x' =? space)).
  - intros H. right. by apply IH.
  - intros [->|H]; [by left|]. right. by apply IH.
Qed.

Lemma squeeze_surrogates s :
  existsb is_surrogate s = false -> existsb is_surrogate (squeeze s) = false.
Proof.
  intros H. destruct (existsb is_surrogate (squeeze s)) eqn:E; [|done].
  apply existsb_exists in E as (c & Hc & Hs). apply squeeze_In in Hc.
  assert (existsb is_surrogate s = true) by (apply existsb_exists; eauto).
  congruence.
Qed.

Lemma backup_path_ne p : backup_path p ≠ p.
Proof.
  unfold backup_path. intros E. apply (f_equal length) in E.
  rewrite length_app in E. simpl in E. lia.
Qed.

Lemma path_exists_file p w n :
  files w !! p = Some n -> path_exists p w = (inr true, w).
Proof.
  intros H. unfold path_exists. by rewrite bool_decide_eq_true_2 by (rewrite H; eauto).
Qed.

Lemma path_exists_absent p w :
  files w !! p = None -> path_exists p w = (inr false, w).
Proof.
  intros H. unfold path_exists.
  by rewrite bool_decide_eq_false_2 by (rewrite H; by intros [? ?]).
Qed.

Lemma read_text_file p w content size wr :
  files w !! p = Some (File content size wr) -> read_text p w = (inr content, w).
Proof. intros H. unfold read_text. by rewrite H. Qed.

Lemma stat_size_node p w n :
  files w !! p = Some n -> stat_size p w = (inr (node_size n), w).
Proof. intros H. unfold stat_size. by rewrite H. Qed.

Lemma write_text_ok p content w :
  existsb is_surrogate content = false -> can_write (files w !! p) = true ->
  write_text p content w
  = (inr tt, World (<[p := File content (utf8_len content) true]> (files w)) (calls w)).
Proof.
  intros Hs Hw. unfold write_text. rewrite Hs.
  by destruct (files w !! p) as [[? ? []|]|].
Qed.

(** C10.  For an existing, writable config file whose text matches no patch
    rule anywhere but holds two consecutive spaces, the config patcher
    reports "modified", writes the original text to the backup path and
    rewrites the file with every run of spaces collapsed to one space
    ([squeeze]), after which no two consecutive spaces are left. *)
Theorem spaces_alone_modify file_path patterns w content size :
  files w !! file_path = Some (File content size true) ->
  can_write (files w !! backup_path file_path) = true ->
  existsb is_surrogate content = false ->
  forallb (fun y => negb (matches_at patterns y)) (tails content) = true ->
  contains [space; space] content = true ->
  modify_file_with_patterns file_path patterns w
  = (inr true,
     World (<[file_path := File (squeeze content) (utf8_len (squeeze content)) true]>
              (<[backup_path file_path := File content (utf8_len content) true]>
                 (files w)))
           (calls w))
  ∧ contains [space; space] (squeeze content) = false.
Proof.
  intros Hf Hb Hs Hm Hd. split; [|apply squeeze_no_double].
  unfold modify_file_with_patterns. munfold.
  rewrite (path_exists_file _ _ _ Hf). cbn [negb].
  rewrite (read_text_file _ _ _ _ _ Hf).
  rewrite apply_patterns_id by done. rewrite clean_spaces_squeeze.
  unfold text_eqb. rewrite bool_decide_eq_false_2 by (by apply squeeze_changes).
  cbn [negb]. rewrite write_text_ok by done.
  rewrite write_text_ok; [done|by apply squeeze_surrogates|].
  cbn [files]. rewrite lookup_insert_ne by apply backup_path_ne. by rewrite Hf.
Qed.

Lemma spaces_alone_modify_witness :
  modify_file_with_patterns (s2t "/w/iso/boot/grub/grub.cfg")
    (grub_patterns (s2t "10.0.2.2") 8080)
    (World {[ s2t "/w/iso/boot/grub/grub.cfg" := File (s2t "# menu  entries") 15 true ]} [])
  = (inr true,
     World (<[s2t "/w/iso/boot/grub/grub.cfg" :=
                File (squeeze (s2t "# menu  entries"))
                  (utf8_len (squeeze (s2t "# menu  entries"))) true]>
              (<[backup_path (s2t "/w/iso/boot/grub/grub.cfg") :=
                   File (s2t "# menu  entries") (utf8_len (s2t "# menu  entries")) true]>
                 {[ s2t "/w/iso/boot/grub/grub.cfg" :=
                      File (s2t "# menu  entries") 15 true ]}))
           []).
Proof.
  refine (proj1 (spaces_alone_modify (s2t "/w/iso/boot/grub/grub.cfg")
                   (grub_patterns (s2t "10.0.2.2") 8080)
                   (World {[ s2t "/w/iso/boot/grub/grub.cfg" :=
                               File (s2t "# menu  entries") 15 true ]} [])
                   (s2t "# menu  entries") 15 _ _ _ _ _)).
  - by vm_compute.
  - by vm_compute.
  - by vm_compute.
  - by vm_compute.
  - by vm_compute.
Defined.

(** C5.  For every path that is not in the working tree, the config patcher
    returns "not modified" without raising and without changing anything, so
    the loop over the config files goes on as if the path were not in its
    list: an absent file never makes the build fail. *)
Theorem absent_config_not_modified file_path patterns w :
  files w !! file_path = None ->
  modify_file_with_patterns file_path patterns w = (inr false, w)
  ∧ forall configs n,
      modify_each (file_path :: configs) patterns n w
      = modify_each configs patterns n w.
Proof.
  intros H.
  assert (E : modify_file_with_patterns file_path patterns w = (inr false, w)).
  { unfold modify_file_with_patterns. munfold.
    by rewrite (path_exists_absent _ _ H). }
  split; [done|]. intros configs n. cbn [modify_each]. munfold. by rewrite E.
Qed.

Lemma absent_config_not_modified_witness :
  modify_file_with_patterns (s2t "/w/iso/isolinux/txt.cfg")
    [isolinux_pattern (s2t "10.0.2.2") 8080] (World ∅ [])
  = (inr false, World ∅ []).
Proof.
  refine (proj1 (absent_config_not_modified (s2t "/w/iso/isolinux/txt.cfg")
                   [isolinux_pattern (s2t "10.0.2.2") 8080] (World ∅ []) _)).
  by vm_compute.
Defined.

(** ** The rebuilder and the build *)

Section BuilderFacts.

Variable source_iso output_iso : text.
Variable http_ip : text.
Variable http_port : Z.
Variable work_dir : text.
Variable which : text -> bool.
Variable subprocess_run : list text -> gmap text node -> outcome * gmap text node.
Variable shlex_split : text -> option (list text).
Variable search_version : text -> option text.

Lemma boot_info_ok w stdout stderr fs1 boot_args :
  subprocess_run (report_cmd source_iso) (files w) = (Completed 0 stdout stderr, fs1) ->
  shlex_split (strip stdout) = Some boot_args ->
  boot_info source_iso subprocess_run shlex_split w
  = (inr boot_args, World fs1 (calls w ++ [report_cmd source_iso])).
Proof.
  intros Hr Hs. unfold boot_info, run. munfold.
  rewrite Hr. simpl. by rewrite Hs.
Qed.

(** C3.  When the boot-catalog report of the source image succeeds and its
    output splits into the tokens [boot_args], the mastering command is the
    six words up to the output-path flag and its value, then exactly those
    tokens in their order, then the working-tree path as its last word; and
    it is the command that [create_iso] runs after the report. *)
Theorem mastering_cmd_replays_boot_args w stdout stderr fs1 boot_args :
  subprocess_run (report_cmd source_iso) (files w) = (Completed 0 stdout stderr, fs1) ->
  shlex_split (strip stdout) = Some boot_args ->
  let cmd := mastering_cmd output_iso work_dir boot_args in
  cmd = [s2t "xorriso"; s2t "-as"; s2t "mkisofs"; s2t "-r"; s2t "-o"; output_iso]
        ++ boot_args ++ [iso_dir work_dir]
  ∧ take (length boot_args) (drop 6 cmd) = boot_args
  ∧ drop (6 + length boot_args) cmd = [iso_dir work_dir]
  ∧ ∃ r w',
      create_iso source_iso output_iso work_dir subprocess_run shlex_split w
        = (r, w')
      ∧ calls w' = calls w ++ [report_cmd source_iso; cmd].
Proof.
  intros Hr Hs cmd.
  assert (E : cmd = [s2t "xorriso"; s2t "-as"; s2t "mkisofs"; s2t "-r"; s2t "-o";
                     output_iso] ++ boot_args ++ [iso_dir work_dir]).
  { unfold cmd, mastering_cmd. by rewrite <- app_assoc. }
  split; [done|]. split; [|split].
  - rewrite E. rewrite drop_app_length' by done. by rewrite take_app_length.
  - rewrite E. rewrite (drop_app_add [_; _; _; _; _; _]). by rewrite drop_app_length.
  - unfold create_iso. munfold. rewrite (boot_info_ok _ _ _ _ _ Hr Hs).
    unfold run. fold cmd. cbn [files calls].
    destruct (subprocess_run cmd fs1) as [o fs2].
    set (w2 := World fs2 ((calls w ++ [report_cmd source_iso]) ++ [cmd])).
    assert (Hc : calls w2 = calls w ++ [report_cmd source_iso; cmd])
      by (unfold w2; cbn [calls]; by rewrite <- app_assoc).
    destruct o as [rc out err|]; [|by exists (inl (RuntimeError CreationTimedOut)), w2].
    destruct (rc =? 0)%Z; cbn [negb];
      [|by exists (inl (RuntimeError CreationFailed)), w2].
    destruct (files w2 !! output_iso) as [n|] eqn:Eo.
    + rewrite (path_exists_file _ _ _ Eo). cbn [negb].
      rewrite (stat_size_node _ _ _ Eo).
      destruct (node_size n <? 1048576)%Z; by eexists _, w2.
    + rewrite (path_exists_absent _ _ Eo). by eexists _, w2.
Qed.

(** C8.  When the mastering command exits with status 0, [create_iso] raises
    "Output ISO was not created" if the output image does not exist, raises
    "Output ISO seems too small" if its size is below 1 MiB (1048576 bytes),
    and succeeds only for an existing output of at least 1 MiB. *)
Theorem create_iso_checks_output w boot_args w1 stdout stderr fs2 :
  boot_info source_iso subprocess_run shlex_split w = (inr boot_args, w1) ->
  subprocess_run (mastering_cmd output_iso work_dir boot_args) (files w1)
    = (Completed 0 stdout stderr, fs2) ->
  create_iso source_iso output_iso work_dir subprocess_run shlex_split w
  = (match fs2 !! output_iso with
     | None => inl (RuntimeError OutputNotCreated)
     | Some n =>
         if (node_size n <? 1048576)%Z then inl (RuntimeError OutputTooSmall)
         else inr tt
     end,
     World fs2 (calls w1 ++ [mastering_cmd output_iso work_dir boot_args])).
Proof.
  intros Hb Hr. unfold create_iso. munfold. rewrite Hb. unfold run. rewrite Hr.
  cbn [Z.eqb negb].
  set (w2 := World fs2 (calls w1 ++ [mastering_cmd output_iso work_dir boot_args])).
  assert (E : files w2 !! output_iso = fs2 !! output_iso) by done.
  destruct (fs2 !! output_iso) as [n|].
  - rewrite (path_exists_file _ _ _ E). cbn [negb]. rewrite (stat_size_node _ _ _ E).
    by destruct (node_size n <? 1048576)%Z.
  - by rewrite (path_exists_absent _ _ E).
Qed.

Lemma detect_version_runs w :
  ∃ v, detect_version source_iso work_dir subprocess_run search_version w
       = (inr v, World (subprocess_run (version_cmd source_iso work_dir) (files w)).2
                       (calls w ++ [version_cmd source_iso work_dir])).
Proof.
  unfold detect_version, run. munfold.
  destruct (subprocess_run (version_cmd source_iso work_dir) (files w)) as [o fs1]. cbn [snd].
  destruct o as [rc out err|]; [|(eexists; reflexivity)].
  destruct (rc =? 0)%Z; [|(eexists; reflexivity)].
  set (w1 := World fs1 (calls w ++ [version_cmd source_iso work_dir])).
  destruct (files w1 !! pjoin work_dir "info.txt") as [[c n wr|]|] eqn:E.
  - rewrite (path_exists_file _ _ _ E), (read_text_file _ _ _ _ _ E).
    destruct (search_version c); (eexists; reflexivity).
  - rewrite (path_exists_file _ _ _ E). unfold read_text. rewrite E.
    eexists; reflexivity.
  - rewrite (path_exists_absent _ _ E). eexists; reflexivity.
Qed.

Lemma detect_format_runs w :
  ∃ v, detect_format source_iso subprocess_run w
       = (inr v, World (subprocess_run (format_cmd source_iso) (files w)).2
                       (calls w ++ [format_cmd source_iso])).
Proof.
  unfold detect_format, run. munfold.
  destruct (subprocess_run (format_cmd source_iso) (files w)) as [o fs1]. cbn [snd].
  destruct o as [rc out err|]; [|(eexists; reflexivity)].
  destruct (rc =? 0)%Z; [|(eexists; reflexivity)].
  repeat (match goal with |- context [if ?b then _ else _] => destruct b end);
    (eexists; reflexivity).
Qed.

Lemma validate_iso_runs w v w1 :
  validate_iso source_iso work_dir subprocess_run search_version w = (inr v, w1) ->
  calls w1 = calls w ++ [version_cmd source_iso work_dir; format_cmd source_iso].
Proof.
  unfold validate_iso, path_exists. munfold.
  destruct (bool_decide (is_Some (files w !! source_iso))); cbn [negb]; [|done].
  destruct (detect_version_runs w) as [v1 ->].
  destruct (detect_format_runs
              (World (subprocess_run (version_cmd source_iso work_dir) (files w)).2
                     (calls w ++ [version_cmd source_iso work_dir]))) as [v2 ->].
  intros H. inversion H; subst. cbn [calls]. by rewrite <- app_assoc.
Qed.

(** C4.  When the tool is there, the inspection of the source image went
    through and the output image exists at the output-existence check, the
    build (not in validate-only mode) returns without an error in the very
    state of that check: no file was changed since, and the only commands
    run are the two reporting commands of the inspection, so no extraction,
    no patching and no mastering took place. *)
Theorem existing_output_short_circuits w v w1 n :
  which (s2t "xorriso") = true ->
  validate_iso source_iso work_dir subprocess_run search_version w = (inr v, w1) ->
  files w1 !! output_iso = Some n ->
  build source_iso output_iso http_ip http_port work_dir which subprocess_run
    shlex_split search_version false w = (inr tt, w1)
  ∧ calls w1 = calls w ++ [version_cmd source_iso work_dir; format_cmd source_iso].
Proof.
  intros Hw Hv Ho. split; [|by eapply validate_iso_runs].
  unfold build, check_dependencies. cbn [List.filter]. rewrite Hw. cbn [negb].
  munfold. rewrite Hv. by rewrite (path_exists_file _ _ _ Ho).
Qed.

End BuilderFacts.

Lemma mastering_cmd_replays_boot_args_witness :
  take 4 (drop 6 (mastering_cmd (s2t "out.iso") (s2t "/tmp/w")
                    [s2t "-V"; s2t "Ubuntu"; s2t "-b"; s2t "boot.img"]))
  = [s2t "-V"; s2t "Ubuntu"; s2t "-b"; s2t "boot.img"].
Proof.
  refine (proj1 (proj2 (mastering_cmd_replays_boot_args (s2t "ubuntu.iso")
                          (s2t "out.iso") (s2t "/tmp/w") demo_run demo_split
                          demo_world (s2t "-V Ubuntu -b boot.img
") [] (files demo_world)
                          [s2t "-V"; s2t "Ubuntu"; s2t "-b"; s2t "boot.img"] _ _))).
  - by vm_compute.
  - by vm_compute.
Defined.

Lemma create_iso_checks_output_witness :
  create_iso (s2t "ubuntu.iso") (s2t "out.iso") (s2t "/tmp/w") demo_run
    demo_split demo_world
  = (match (<[s2t "out.iso" := File [] 2097152 true]> (files demo_world))
             !! s2t "out.iso" with
     | Some n =>
         if (node_size n <? 1048576)%Z then inl (RuntimeError OutputTooSmall)
         else inr tt
     | None => inl (RuntimeError OutputNotCreated)
     end,
     World (<[s2t "out.iso" := File [] 2097152 true]> (files demo_world))
       (calls (World (files demo_world) [report_cmd (s2t "ubuntu.iso")])
        ++ [mastering_cmd (s2t "out.iso") (s2t "/tmp/w")
              [s2t "-V"; s2t "Ubuntu"; s2t "-b"; s2t "boot.img"]])).
Proof.
  refine (create_iso_checks_output (s2t "ubuntu.iso") (s2t "out.iso")
            (s2t "/tmp/w") demo_run demo_split demo_world
            [s2t "-V"; s2t "Ubuntu"; s2t "-b"; s2t "boot.img"]
            (World (files demo_world) [report_cmd (s2t "ubuntu.iso")])
            [] [] (<[s2t "out.iso" := File [] 2097152 true]> (files demo_world))
            _ _).
  - by vm_compute.
  - by vm_compute.
Defined.

Lemma existing_output_short_circuits_witness :
  build (s2t "ubuntu.iso") (s2t "out.iso") (s2t "10.0.2.2") 8080
    (s2t "/tmp/w") (fun _ => true) demo_run demo_split (fun _ => None) false
    (World (<[s2t "out.iso" := File [] 2097152 true]> (files demo_world)) [])
  = (inr tt,
     World (<[s2t "out.iso" := File [] 2097152 true]> (files demo_world))
       [version_cmd (s2t "ubuntu.iso") (s2t "/tmp/w");
        format_cmd (s2t "ubuntu.iso")]).
Proof.
  refine (proj1 (existing_output_short_circuits (s2t "ubuntu.iso")
                   (s2t "out.iso") (s2t "10.0.2.2") 8080 (s2t "/tmp/w")
                   (fun _ => true) demo_run demo_split (fun _ => None)
                   (World (<[s2t "out.iso" := File [] 2097152 true]>
                             (files demo_world)) [])
                   (unknown, unknown)
                   (World (<[s2t "out.iso" := File [] 2097152 true]>
                             (files demo_world))
                      [version_cmd (s2t "ubuntu.iso") (s2t "/tmp/w");
                       format_cmd (s2t "ubuntu.iso")])
                   (File [] 2097152 true) _ _ _)).
  - reflexivity.
  - by vm_compute.
  - by vm_compute.
Defined.

(** ** The config patcher, case by case *)

(** The three ways [write_text] can end: refused when the file is opened;
    opened, so emptied or created, and then not written; written. *)
Lemma write_text_cases p content w r w' :
  write_text p content w = (r, w') ->
  (∃ e, r = inl e ∧ w' = w ∧ can_write (files w !! p) = false)
  ∨ (r = inl UnicodeEncodeError ∧ can_write (files w !! p) = true
     ∧ existsb is_surrogate content = true
     ∧ w' = World (<[p := File [] 0 true]> (files w)) (calls w))
  ∨ (r = inr tt ∧ can_write (files w !! p) = true
     ∧ existsb is_surrogate content = false
     ∧ w' = World (<[p := File content (utf8_len content) true]> (files w)) (calls w)).
Proof.
  unfold write_text.
  destruct (files w !! p) as [[c n []|]|];
    destruct (existsb is_surrogate content); intros [= <- <-]; eauto 8.
Qed.

(** The four ways [modify_file_with_patterns] can end: nothing touched; only
    the backup path touched (emptied, when the original text cannot be
    encoded; written, when the file is then refused); the backup written and
    the file emptied, when the patched text cannot be encoded; both
    written. *)
Lemma patcher_cases p patterns w r w' :
  modify_file_with_patterns p patterns w = (r, w') ->
  (r = inr false ∧ w' = w)
  ∨ (∃ content size wr backup,
       files w !! p = Some (File content size wr) ∧
       patch_text patterns content ≠ content ∧
       r = inr false ∧
       w' = World (<[backup_path p := backup]> (files w)) (calls w))
  ∨ (∃ content size,
       files w !! p = Some (File content size true) ∧
       patch_text patterns content ≠ content ∧
       existsb is_surrogate (patch_text patterns content) = true ∧
       r = inr false ∧
       w' = World (<[p := File [] 0 true]>
                     (<[backup_path p := File content (utf8_len content) true]>
                        (files w))) (calls w))
  ∨ (∃ content size,
       files w !! p = Some (File content size true) ∧
       patch_text patterns content ≠ content ∧
       r = inr true ∧
       w' = World (<[p := File (patch_text patterns content)
                            (utf8_len (patch_text patterns content)) true]>
                     (<[backup_path p := File content (utf8_len content) true]>
                        (files w))) (calls w)).
Proof.
  unfold modify_file_with_patterns. munfold.
  destruct (files w !! p) as [n|] eqn:E.
  2:{ rewrite (path_exists_absent _ _ E). intros [= <- <-]. by left. }
  rewrite (path_exists_file _ _ _ E). cbn [negb].
  destruct n as [content size wr|].
  2:{ unfold read_text. rewrite E. intros [= <- <-]. by left. }
  rewrite (read_text_file _ _ _ _ _ E).
  fold (patch_text patterns content). unfold text_eqb.
  destruct (decide (patch_text patterns content = content)) as [Ep|Ep].
  { rewrite bool_decide_eq_true_2 by done. intros [= <- <-]. by left. }
  rewrite bool_decide_eq_false_2 by done. cbn [negb].
  destruct (write_text (backup_path p) content w) as [r1 w1] eqn:E1.
  apply write_text_cases in E1
    as [(e & -> & -> & _)|[(-> & _ & _ & ->)|(-> & Hc & _ & ->)]].
  { intros [= <- <-]. by left. }
  { intros [= <- <-]. right. left. by exists content, size, wr, (File [] 0 true). }
  destruct (write_text p (patch_text patterns content) _) as [r2 w2] eqn:E2.
  apply write_text_cases in E2
    as [(e & -> & -> & _)|[(-> & Hc2 & Hs & ->)|(-> & Hc2 & _ & ->)]].
  { intros [= <- <-]. right. left.
    by exists content, size, wr, (File content (utf8_len content) true). }
  all: intros [= <- <-]; cbn [files calls] in *;
    rewrite lookup_insert_ne in Hc2 by apply backup_path_ne; rewrite E in Hc2;
    destruct wr; [|done].
  - right. right. left. by exists content, size.
  - right. right. right. by exists content, size.
Qed.

(** X1.  The config patcher never raises and runs no command: whatever the
    path holds (nothing, a directory, a file that cannot be written, a text
    that cannot be encoded) and whatever the rules are, it returns its
    "modified" flag. *)
Theorem patcher_never_raises p patterns w :
  ∃ modified w',
    modify_file_with_patterns p patterns w = (inr modified, w')
    ∧ calls w' = calls w.
Proof.
  destruct (modify_file_with_patterns p patterns w) as [r w'] eqn:E.
  apply patcher_cases in E
    as [[-> ->]|[(c & n & wr & bak & _ & _ & -> & ->)
       |[(c & n & _ & _ & _ & -> & ->)|(c & n & _ & _ & -> & ->)]]];
    eauto.
Qed.

(** X2.  When the config patcher reports "modified", the path held a file
    whose text the patch changes; afterwards the backup path holds that
    original text and the file holds the patched text. *)
Theorem modified_keeps_backup p patterns w w' :
  modify_file_with_patterns p patterns w = (inr true, w') ->
  ∃ content size,
    files w !! p = Some (File content size true)
    ∧ patch_text patterns content ≠ content
    ∧ files w' !! backup_path p = Some (File content (utf8_len content) true)
    ∧ files w' !! p
      = Some (File (patch_text patterns content)
                (utf8_len (patch_text patterns content)) true).
Proof.
  intros E. apply patcher_cases in E
    as [[[=] _]|[(c & n & wr & bak & _ & _ & [=] & _)
       |[(c & n & _ & _ & _ & [=] & _)|(c & n & Hf & Hp & _ & ->)]]].
  exists c, n. split; [done|]. split; [done|]. cbn [files]. split.
  - rewrite lookup_insert_ne by (intros E; symmetry in E; by apply backup_path_ne in E).
    by rewrite lookup_insert_eq.
  - by rewrite lookup_insert_eq.
Qed.

Lemma modified_keeps_backup_witness :
  ∃ content size,
    files (demo_tree true) !! demo_config = Some (File content size true)
    ∧ patch_text (grub_patterns (s2t "10.0.2.2") 8080) content ≠ content
    ∧ files (modify_file_with_patterns demo_config
               (grub_patterns (s2t "10.0.2.2") 8080) (demo_tree true)).2
        !! backup_path demo_config
      = Some (File content (utf8_len content) true)
    ∧ files (modify_file_with_patterns demo_config
               (grub_patterns (s2t "10.0.2.2") 8080) (demo_tree true)).2
        !! demo_config
      = Some (File (patch_text (grub_patterns (s2t "10.0.2.2") 8080) content)
                (utf8_len (patch_text (grub_patterns (s2t "10.0.2.2") 8080) content))
                true).
Proof.
  apply (modified_keeps_backup demo_config (grub_patterns (s2t "10.0.2.2") 8080)
           (demo_tree true)).
  vm_compute. reflexivity.
Defined.

(** X3.  The config patcher touches two paths at most, the file and its
    backup path: every other path holds what it held.  A file that is
    reported as "not modified" holds what it held, with one exception: a
    writable file whose patched text cannot be encoded has been opened for
    writing by then, and is left empty. *)
Theorem patcher_frame p patterns w modified w' :
  modify_file_with_patterns p patterns w = (inr modified, w') ->
  (forall q, q ≠ p -> q ≠ backup_path p -> files w' !! q = files w !! q)
  ∧ (modified = false ->
     files w' !! p = files w !! p
     ∨ ∃ content size,
         files w !! p = Some (File content size true)
         ∧ existsb is_surrogate (patch_text patterns content) = true
         ∧ files w' !! p = Some (File [] 0 true)).
Proof.
  intros E. apply patcher_cases in E
    as [[_ ->]|[(c & n & wr & bak & _ & _ & _ & ->)
       |[(c & n & Hf & _ & Hs & _ & ->)|(c & n & _ & _ & [= ->] & ->)]]].
  - split; [done|]. by left.
  - cbn [files]. split.
    + intros q _ Hq. by rewrite lookup_insert_ne.
    + intros _. left. rewrite lookup_insert_ne; [done|apply backup_path_ne].
  - cbn [files]. split.
    + intros q Hp Hq. by rewrite !lookup_insert_ne.
    + intros _. right. exists c, n. split; [done|]. split; [done|].
      by rewrite lookup_insert_eq.
  - cbn [files]. split; [|done].
    intros q Hp Hq. by rewrite !lookup_insert_ne.
Qed.

Lemma patcher_frame_witness :
  (forall q, q ≠ demo_config -> q ≠ backup_path demo_config ->
     files (modify_file_with_patterns demo_config
              (grub_patterns [55296] 8080) (demo_tree true)).2 !! q
     = files (demo_tree true) !! q)
  ∧ (false = false ->
     files (modify_file_with_patterns demo_config
              (grub_patterns [55296] 8080) (demo_tree true)).2 !! demo_config
     = files (demo_tree true) !! demo_config
     ∨ ∃ content size,
         files (demo_tree true) !! demo_config = Some (File content size true)
         ∧ existsb is_surrogate (patch_text (grub_patterns [55296] 8080) content)
           = true
         ∧ files (modify_file_with_patterns demo_config
                    (grub_patterns [55296] 8080) (demo_tree true)).2
             !! demo_config
           = Some (File [] 0 true)).
Proof.
  apply (patcher_frame demo_config (grub_patterns [55296] 8080) (demo_tree true)).
  vm_compute. reflexivity.
Defined.

Lemma squeeze_id s : contains [space; space] s = false -> squeeze s = s.
Proof.
  induction s as [|c s IH]; [done|].
  rewrite contains_cons. intros H. apply orb_false_elim in H as [H1 H2].
  destruct s as [|c' s]; [done|].
  rewrite double_space_prefix in H1.
  change (squeeze (c :: c' :: s))
    with (if (c =? space) && (c' =? space) then squeeze (c' :: s)
          else c :: squeeze (c' :: s)).
  rewrite H1. by rewrite IH.
Qed.

(** X4.  A config file whose text no rule matches anywhere and that holds no
    two consecutive spaces is left alone: the patcher reports "not modified",
    writes no backup and changes nothing, whatever the mode of the file. *)
Theorem unchanged_text_not_rewritten file_path patterns w content size wr :
  files w !! file_path = Some (File content size wr) ->
  forallb (fun y => negb (matches_at patterns y)) (tails content) = true ->
  contains [space; space] content = false ->
  modify_file_with_patterns file_path patterns w = (inr false, w).
Proof.
  intros Hf Hm Hd. unfold modify_file_with_patterns. munfold.
  rewrite (path_exists_file _ _ _ Hf). cbn [negb].
  rewrite (read_text_file _ _ _ _ _ Hf).
  rewrite apply_patterns_id by done. rewrite clean_spaces_squeeze.
  rewrite squeeze_id by done. unfold text_eqb.
  by rewrite bool_decide_eq_true_2.
Qed.

Lemma unchanged_text_not_rewritten_witness :
  modify_file_with_patterns demo_config [isolinux_pattern (s2t "10.0.2.2") 8080]
    (demo_tree true)
  = (inr false, demo_tree true).
Proof.
  apply (unchanged_text_not_rewritten demo_config
           [isolinux_pattern (s2t "10.0.2.2") 8080] (demo_tree true)
           (s2t "linux /casper/vmlinuz") 21 true).
  - reflexivity.
  - by vm_compute.
  - by vm_compute.
Defined.

(** X5.  A config file that may not be written and whose text the patch
    would change is reported as "not modified" and keeps its text; but the
    backup is written before the file, so a backup of a file that was never
    changed stays behind. *)
Theorem readonly_config_leaves_backup file_path patterns w content size :
  files w !! file_path = Some (File content size false) ->
  patch_text patterns content ≠ content ->
  existsb is_surrogate content = false ->
  can_write (files w !! backup_path file_path) = true ->
  modify_file_with_patterns file_path patterns w
  = (inr false,
     World (<[backup_path file_path := File content (utf8_len content) true]>
              (files w)) (calls w)).
Proof.
  intros Hf Hp Hs Hb.
  unfold modify_file_with_patterns. munfold.
  rewrite (path_exists_file _ _ _ Hf). cbn [negb].
  rewrite (read_text_file _ _ _ _ _ Hf).
  fold (patch_text patterns content). unfold text_eqb.
  rewrite bool_decide_eq_false_2 by done. cbn [negb].
  rewrite write_text_ok by done.
  set (w1 := World _ _).
  assert (Hf1 : files w1 !! file_path = Some (File content size false)).
  { unfold w1. cbn [files]. rewrite lookup_insert_ne by apply backup_path_ne. done. }
  unfold write_text at 1. by rewrite Hf1.
Qed.

Lemma readonly_config_leaves_backup_witness :
  modify_file_with_patterns demo_config (grub_patterns (s2t "10.0.2.2") 8080)
    (demo_tree false)
  = (inr false,
     World (<[backup_path demo_config :=
                File (s2t "linux /casper/vmlinuz")
                  (utf8_len (s2t "linux /casper/vmlinuz")) true]>
              (files (demo_tree false))) (calls (demo_tree false))).
Proof.
  apply (readonly_config_leaves_backup demo_config
           (grub_patterns (s2t "10.0.2.2") 8080) (demo_tree false)
           (s2t "linux /casper/vmlinuz") 21).
  - reflexivity.
  - by vm_compute.
  - by vm_compute.
  - by vm_compute.
Defined.



(** ** What the patch keeps of a text *)

Lemma unspaced_squeeze s : unspaced (squeeze s) = unspaced s.
Proof.
  induction s as [|c s IH]; [done|].
  destruct s as [|c' s]; [done|].
  change (squeeze (c :: c' :: s))
    with (if (c =? space) && (c' =? space) then squeeze (c' :: s)
          else c :: squeeze (c' :: s)).
  destruct (c =? space) eqn:Ec; cbn [andb].
  - destruct (c' =? space) eqn:Ec'.
    + rewrite IH. unfold unspaced. cbn [List.filter]. by rewrite Ec.
    + unfold unspaced in *. cbn [List.filter]. rewrite Ec. cbn [negb].
      exact IH.
  - unfold unspaced in *. cbn [List.filter]. rewrite Ec. cbn [negb].
    by rewrite IH.
Qed.

Lemma unspaced_sublist a b : a `sublist_of` b -> unspaced a `sublist_of` unspaced b.
Proof.
  induction 1 as [|x a b _ IH|x a b _ IH]; [done|..];
    unfold unspaced in *; cbn [List.filter]; destruct (negb (x =? space)).
  - by apply sublist_skip.
  - done.
  - by apply sublist_cons.
  - done.
Qed.

Lemma words_split x :
  words x
  = match first_word x with
    | [] => words (after_word x)
    | _ :: _ => first_word x :: words (after_word x)
    end.
Proof.
  induction x as [|c s IH]; [done|].
  cbn [first_word after_word]. destruct (is_space c) eqn:Ec; [done|].
  destruct s as [|c' s].
  { cbn [words first_word after_word]. by rewrite Ec. }
  rewrite words_unfold, Ec. revert IH.
  cbn [first_word after_word]. destruct (is_space c') eqn:Ec'; [done|].
  by intros ->.
Qed.

Lemma first_word_nil x :
  first_word x = [] ->
  x = [] ∨ ∃ c b, x = c :: b ∧ is_space c = true.
Proof.
  destruct x as [|c b]; [by left|].
  cbn [first_word]. destruct (is_space c) eqn:Ec; [|done].
  intros _. right. by exists c, b.
Qed.

Lemma first_word_blank x :
  (x = [] ∨ ∃ c b, x = c :: b ∧ is_space c = true) ->
  first_word x = [] ∧ after_word x = x.
Proof.
  intros [->|(c & b & -> & Hc)]; [done|].
  cbn [first_word after_word]. by rewrite Hc.
Qed.

Lemma same_words_sublist x o : same_words x o -> words x `sublist_of` words o.
Proof.
  intros [H1 H2]. rewrite (words_split x), (words_split o), <- H1.
  destruct (first_word x); [done|]. by apply sublist_skip.
Qed.

Lemma same_words_keep c x o : same_words x o -> same_words (c :: x) (c :: o).
Proof.
  intros H. pose proof (same_words_sublist _ _ H) as Hs. destruct H as [H1 H2].
  unfold same_words. cbn [first_word after_word].
  destruct (is_space c) eqn:Ec.
  - split; [done|]. by rewrite !words_cons_space.
  - split; [by rewrite H1|done].
Qed.

Lemma same_words_prefix a x o : same_words x o -> same_words (a ++ x) (a ++ o).
Proof. intros H. induction a as [|c a IH]; [done|]. by apply same_words_keep. Qed.

(** Text put in before a blank, after a space of its own. *)
Lemma same_words_before i x o :
  same_words x o ->
  (x = [] ∨ ∃ c b, x = c :: b ∧ is_space c = true) ->
  same_words x (space :: i ++ o).
Proof.
  intros H Hx. pose proof (same_words_sublist _ _ H) as Hs. destruct H as [H1 H2].
  destruct (first_word_blank _ Hx) as [Hf Ha].
  rewrite Hf in H1. symmetry in H1. pose proof (first_word_nil _ H1) as Ho.
  unfold same_words. rewrite Hf, Ha.
  cbn [first_word after_word]. change (is_space space) with true. cbn iota.
  split; [done|]. rewrite words_cons_space by done.
  rewrite (words_app_nil_or_space i o Ho). by apply sublist_inserts_l.
Qed.

(** Text put in after a blank, with a space of its own behind. *)
Lemma same_words_after i c x o :
  is_space c = true -> same_words x o ->
  same_words (c :: x) (c :: i ++ space :: o).
Proof.
  intros Hc H. pose proof (same_words_sublist _ _ H) as Hs.
  unfold same_words. cbn [first_word after_word]. rewrite Hc.
  split; [done|]. rewrite !(words_cons_space c) by done.
  rewrite (words_app_space i space o) by done. rewrite words_cons_space by done.
  by apply sublist_inserts_l.
Qed.

(** A relation between texts that holds of the empty texts, and is kept when
    both get the same first character where the pattern does not match, is
    kept by a substitution if each replacement keeps it. *)
Lemma re_sub_keeps (R : text -> text -> Prop) r t s :
  R [] [] ->
  (forall c x o, rmatch r (c :: x) false = None -> R x o -> R (c :: x) (c :: o)) ->
  nonempty r ->
  (forall y rest caps o,
     rmatch r y false = Some (rest, caps) -> R rest o -> R y (expand t caps ++ o)) ->
  R s (re_sub r t s).
Proof.
  intros Hnil Hkeep Hn Hr. remember (length s) as n eqn:En. revert s En.
  induction n as [n IH] using lt_wf_ind. intros s En.
  destruct s as [|x s].
  { by rewrite re_sub_nil. }
  destruct (rmatch r (x :: s) false) as [[rest caps]|] eqn:E.
  - rewrite (re_sub_hit _ t _ _ _ Hn E). apply (Hr _ rest caps _ E).
    destruct (rmatch_sound _ _ _ _ _ E) as (u' & Hu' & Hsem).
    assert (u' ≠ []) by (by eapply Hn).
    apply (IH (length rest)); [|done].
    subst n. rewrite Hu', length_app. destruct u'; [done|]. cbn [length]. lia.
  - rewrite (re_sub_miss _ _ _ _ E). apply Hkeep; [done|].
    apply (IH (length s)); [|done]. subst n. cbn [length]. lia.
Qed.

Lemma kernel_sub_grows ip port kw s :
  s `sublist_of` re_sub (kernel_re kw) (kernel_repl ip port) s.
Proof.
  apply (re_sub_keeps sublist);
    [done|intros c x o _; apply sublist_skip|apply kernel_nonempty|].
  intros y rest caps o E Ho.
  destruct (rmatch_kernel _ _ _ _ _ E) as (w & hwe & g2 & -> & -> & _).
  rewrite expand_kernel_repl. rewrite <- app_assoc.
  apply sublist_app; [done|]. cbn [app]. apply sublist_cons.
  rewrite <- app_assoc. apply sublist_inserts_l. by apply sublist_app.
Qed.

Lemma append_sub_grows ip port s :
  s `sublist_of` re_sub append_re (snd (isolinux_pattern ip port)) s.
Proof.
  apply (re_sub_keeps sublist);
    [done|intros c x o _; apply sublist_skip|apply append_nonempty|].
  intros y rest caps o E Ho.
  destruct (rmatch_sound _ _ _ _ _ E) as (u & -> & Hsem).
  destruct (sem_append _ _ _ Hsem) as (w & _ & -> & _).
  unfold isolinux_pattern. cbn [snd]. rewrite !expand_app, expand_tlit.
  cbn [expand group Nat.eqb]. rewrite app_nil_r. rewrite <- app_assoc.
  apply sublist_app; [done|]. by apply sublist_inserts_l.
Qed.

Lemma kernel_sub_same_words ip port kw s :
  same_words s (re_sub (kernel_re kw) (kernel_repl ip port) s).
Proof.
  apply re_sub_keeps;
    [done|intros c x o _; apply same_words_keep|apply kernel_nonempty|].
  intros y rest caps o E Ho.
  destruct (rmatch_kernel _ _ _ _ _ E) as (w & hwe & g2 & -> & -> & _ & _ & _ & Hsep).
  rewrite expand_kernel_repl. rewrite <- app_assoc.
  apply same_words_prefix. cbn [app]. rewrite <- app_assoc.
  apply (same_words_before (autoinstall_params ip port) (g2 ++ rest) (g2 ++ o)).
  - by apply same_words_prefix.
  - by apply sep_nil_or_space.
Qed.

Lemma append_sub_same_words ip port s :
  same_words s (re_sub append_re (snd (isolinux_pattern ip port)) s).
Proof.
  apply re_sub_keeps;
    [done|intros c x o _; apply same_words_keep|apply append_nonempty|].
  intros y rest caps o E Ho.
  destruct (rmatch_sound _ _ _ _ _ E) as (u & -> & Hsem).
  destruct (sem_append _ _ _ Hsem) as (w & Hu & -> & Hw & Hsp).
  unfold isolinux_pattern. cbn [snd]. rewrite !expand_app, expand_tlit.
  cbn [expand group Nat.eqb]. rewrite app_nil_r.
  destruct (exists_last Hw) as (w' & c & ->).
  unfold spaces in Hsp. apply Forall_app in Hsp as [_ Hc].
  apply Forall_inv in Hc.
  rewrite Hu. rewrite <- !app_assoc. do 2 apply same_words_prefix.
  cbn [app]. by apply same_words_after.
Qed.

(** X6.  The clean-up of multiple spaces brings a text to a normal form: the
    result holds no two consecutive spaces, a text is left as it is exactly
    when it holds none, and cleaning twice is cleaning once. *)
Theorem clean_spaces_normal_form s :
  contains [space; space] (clean_spaces s) = false
  ∧ (clean_spaces s = s <-> contains [space; space] s = false)
  ∧ clean_spaces (clean_spaces s) = clean_spaces s.
Proof.
  rewrite !clean_spaces_squeeze. split; [apply squeeze_no_double|]. split.
  - split; [apply squeeze_fixed|apply squeeze_id].
  - apply squeeze_idem.
Qed.

(** X7.  The clean-up of multiple spaces only drops spaces U+0020: every
    other character (a tab, a line end) stays, in the same order; the words
    of the text are the same; and the text does not get longer. *)
Theorem clean_spaces_keeps_text s :
  unspaced (clean_spaces s) = unspaced s
  ∧ words (clean_spaces s) = words s
  ∧ (length (clean_spaces s) <= length s)%nat.
Proof.
  rewrite !clean_spaces_squeeze.
  split; [apply unspaced_squeeze|]. split; [apply words_squeeze|apply squeeze_length].
Qed.

(** X8.  The rules of both dialects only add to a text, however often they
    match: for an address without backslash, the text before the rules is in
    the text after them, character by character in the same order; after the
    clean-up of spaces too, every character but the space is still there in
    its order; and every word of the text is still a word of the patched
    text, in the same order. *)
Theorem rules_only_insert d ip port content :
  literal_host ip = true ->
  content `sublist_of` apply_patterns (rules d ip port) content
  ∧ unspaced content `sublist_of` unspaced (patch_text (rules d ip port) content)
  ∧ words content `sublist_of` words (patch_text (rules d ip port) content).
Proof.
  intros _.
  assert (H : content `sublist_of` apply_patterns (rules d ip port) content).
  { destruct d; unfold rules.
    - rewrite grub_patterns_eq.
      transitivity (re_sub (kernel_re (s2t "linux")) (kernel_repl ip port) content);
        apply kernel_sub_grows.
    - apply append_sub_grows. }
  split; [done|]. unfold patch_text. rewrite clean_spaces_squeeze. split.
  - rewrite unspaced_squeeze. by apply unspaced_sublist.
  - rewrite words_squeeze. destruct d; unfold rules.
    + rewrite grub_patterns_eq.
      transitivity
        (words (re_sub (kernel_re (s2t "linux")) (kernel_repl ip port) content));
        apply same_words_sublist, kernel_sub_same_words.
    + apply same_words_sublist, append_sub_same_words.
Qed.

Lemma rules_only_insert_witness :
  s2t "append initrd=/casper/initrd"
    `sublist_of` apply_patterns (rules Isolinux (s2t "10.0.2.2") 8080)
                   (s2t "append initrd=/casper/initrd")
  ∧ unspaced (s2t "append initrd=/casper/initrd")
      `sublist_of` unspaced (patch_text (rules Isolinux (s2t "10.0.2.2") 8080)
                               (s2t "append initrd=/casper/initrd"))
  ∧ words (s2t "append initrd=/casper/initrd")
      `sublist_of` words (patch_text (rules Isolinux (s2t "10.0.2.2") 8080)
                            (s2t "append initrd=/casper/initrd")).
Proof.
  apply (rules_only_insert Isolinux (s2t "10.0.2.2") 8080
           (s2t "append initrd=/casper/initrd")).
  reflexivity.
Defined.

(** ** The ISOLINUX rule applied again *)

Lemma tails_suffix (g s : text) : In g (tails s) -> g `suffix_of` s.
Proof.
  induction s as [|c s IH]; cbn [tails In].
  - by intros [<-|[]].
  - intros [<-|H]; [done|]. by apply suffix_cons_r, IH.
Qed.

Lemma has_match_tails r t x :
  existsb (matches_at [(r, t)]) (tails x) = true <-> has_match r x.
Proof.
  rewrite existsb_exists. unfold has_match, matches_at. cbn [existsb fst].
  split.
  - intros (y & Hy & H). exists y. split; [by apply tails_suffix|].
    by destruct (rmatch r y false).
  - intros (y & Hy & [res H]). exists y. split; [by apply suffix_tails|].
    by rewrite H.
Qed.

Lemma has_match_cons r c x :
  rmatch r (c :: x) false = None -> has_match r (c :: x) -> has_match r x.
Proof.
  intros E (y & Hy & H). apply suffix_cons_cases in Hy as [->|Hy].
  - rewrite E in H. by destruct H.
  - by exists y.
Qed.

Lemma has_match_nil r : nonempty r -> ¬ has_match r [].
Proof.
  intros Hn (y & Hy & [[rest caps] H]). apply suffix_nil_inv in Hy as ->.
  destruct (rmatch_sound _ _ _ _ _ H) as (u & Hu & Hs).
  apply Hn in Hs. by destruct u.
Qed.

Lemma append_hit w rest :
  w ≠ [] -> spaces w -> is_Some (rmatch append_re (s2t "append" ++ w ++ rest) false).
Proof.
  intros Hw Hs. rewrite app_assoc.
  apply (rmatch_complete _ _ _ [(1%nat, s2t "append" ++ w)]).
  exists []. split; [|done]. cbn [sem cat].
  exists (s2t "append"), w, []. split; [done|]. split; [by apply sem_lit|].
  exists w, [], []. split; [by rewrite app_nil_r|]. done.
Qed.

Lemma append_hit_inv y :
  is_Some (rmatch append_re y false) ->
  ∃ w rest, y = s2t "append" ++ w ++ rest ∧ w ≠ [] ∧ spaces w.
Proof.
  intros [[rest caps] H].
  destruct (rmatch_sound _ _ _ _ _ H) as (u & -> & Hs).
  destruct (sem_append _ _ _ Hs) as (w & -> & _ & Hw & Hsp).
  exists w, rest. by rewrite <- app_assoc.
Qed.

Lemma squeeze_suffix_of y x : y `suffix_of` x -> squeeze y `suffix_of` squeeze x.
Proof.
  induction x as [|c x IH]; intros H.
  - by apply suffix_nil_inv in H as ->.
  - apply suffix_cons_cases in H as [->|H]; [done|].
    specialize (IH H). destruct x as [|c' x]; [|].
    + apply suffix_nil_inv in H as ->. by apply suffix_nil.
    + change (squeeze (c :: c' :: x))
        with (if (c =? space) && (c' =? space) then squeeze (c' :: x)
              else c :: squeeze (c' :: x)).
      destruct ((c =? space) && (c' =? space)); [done|by apply suffix_cons_r].
Qed.

Lemma squeeze_word a b :
  Forall (fun c => c ≠ space) a -> squeeze (a ++ b) = a ++ squeeze b.
Proof.
  induction 1 as [|c a Hc _ IH]; [done|].
  cbn [app]. rewrite squeeze_cons by done. by rewrite IH.
Qed.

(** The clean-up of spaces keeps a match of the ISOLINUX pattern. *)
Lemma append_match_squeeze x :
  has_match append_re x -> has_match append_re (squeeze x).
Proof.
  intros (y & Hy & H). exists (squeeze y). split; [by apply squeeze_suffix_of|].
  apply append_hit_inv in H as (w & rest & -> & Hw & Hs).
  rewrite squeeze_word
    by (change (s2t "append") with [97; 112; 112; 101; 110; 100];
        repeat constructor; done).
  destruct w as [|c w]; [done|]. apply Forall_cons in Hs as [Hc _].
  cbn [app]. destruct (decide (c = space)) as [->|Hn].
  - rewrite squeeze_space. by apply (append_hit [space]); [|repeat constructor].
  - rewrite squeeze_cons by done.
    by apply (append_hit [c]); [|repeat constructor].
Qed.

Lemma unspaced_app a b : unspaced (a ++ b) = unspaced a ++ unspaced b.
Proof. unfold unspaced. apply List.filter_app. Qed.

Lemma params_unspaced ip port : (0 < length (unspaced (autoinstall_params ip port)))%nat.
Proof.
  assert (H : ∃ t, autoinstall_params ip port = 97 :: t) by (by eexists).
  destruct H as [t ->]. cbn [unspaced List.filter].
  change (negb (97 =? space)) with true. cbn [length]. lia.
Qed.

(** A pass of the ISOLINUX rule leaves a match where there was one, and adds
    characters that are no spaces where it matches. *)
Lemma append_sub_adds ip port x :
  (has_match append_re x ->
   has_match append_re (re_sub append_re (snd (isolinux_pattern ip port)) x))
  ∧ (length (unspaced x)
     <= length (unspaced (re_sub append_re (snd (isolinux_pattern ip port)) x)))%nat
  ∧ (has_match append_re x ->
     (length (unspaced x)
      < length (unspaced (re_sub append_re (snd (isolinux_pattern ip port)) x)))%nat).
Proof.
  apply (re_sub_keeps
           (fun x o =>
              (has_match append_re x -> has_match append_re o)
              ∧ (length (unspaced x) <= length (unspaced o))%nat
              ∧ (has_match append_re x ->
                 (length (unspaced x) < length (unspaced o))%nat))).
  - split; [done|]. split; [done|].
    intros H. by apply has_match_nil in H; [|apply append_nonempty].
  - intros c y o E (H1 & H2 & H3). split; [|split].
    + intros H. apply (has_match_cons _ _ _ E) in H.
      destruct (H1 H) as (z & Hz & Hm). exists z. split; [by apply suffix_cons_r|done].
    + unfold unspaced in *. cbn [List.filter].
      destruct (negb (c =? space)); cbn [length]; lia.
    + intros H. apply (has_match_cons _ _ _ E) in H. specialize (H3 H).
      unfold unspaced in *. cbn [List.filter].
      destruct (negb (c =? space)); cbn [length]; lia.
  - apply append_nonempty.
  - intros y rest caps o E (H1 & H2 & H3).
    destruct (rmatch_sound _ _ _ _ _ E) as (u & -> & Hsem).
    destruct (sem_append _ _ _ Hsem) as (w & Hu & -> & Hw & Hsp).
    unfold isolinux_pattern. cbn [snd]. rewrite !expand_app, expand_tlit.
    cbn [expand group Nat.eqb]. rewrite app_nil_r.
    assert (Hlen : (length (unspaced (u ++ rest))
                    < length (unspaced ((u ++ autoinstall_params ip port ++ [space])
                                        ++ o)))%nat).
    { rewrite !unspaced_app, !length_app.
      pose proof (params_unspaced ip port). lia. }
    split; [|split; [lia|done]].
    intros _. exists ((u ++ autoinstall_params ip port ++ [space]) ++ o).
    split; [done|]. rewrite Hu. rewrite <- !app_assoc. by apply append_hit.
Qed.

(** X9.  The ISOLINUX rule set has no fixed point on a text where it
    matches: for an address without backslash, a pass over a text with a
    match adds characters that are no spaces, and the patched text has a
    match again; so a second pass always changes the text once more, and
    each further pass makes it longer. *)
Theorem isolinux_patch_never_idempotent ip port content :
  literal_host ip = true ->
  existsb (matches_at (rules Isolinux ip port)) (tails content) = true ->
  existsb (matches_at (rules Isolinux ip port))
    (tails (patch_text (rules Isolinux ip port) content)) = true
  ∧ (length (unspaced content)
     < length (unspaced (patch_text (rules Isolinux ip port) content)))%nat
  ∧ patch_text (rules Isolinux ip port) (patch_text (rules Isolinux ip port) content)
    ≠ patch_text (rules Isolinux ip port) content.
Proof.
  intros _ Hm. unfold rules in *. unfold isolinux_pattern at 1 in Hm.
  apply has_match_tails in Hm.
  assert (Hp : forall x,
             patch_text [isolinux_pattern ip port] x
             = squeeze (re_sub append_re (snd (isolinux_pattern ip port)) x)).
  { intros x. unfold patch_text. by rewrite clean_spaces_squeeze. }
  assert (Hstep : forall x,
             has_match append_re x ->
             has_match append_re (patch_text [isolinux_pattern ip port] x)
             ∧ (length (unspaced x)
                < length (unspaced (patch_text [isolinux_pattern ip port] x)))%nat).
  { intros x Hx. rewrite Hp, unspaced_squeeze.
    destruct (append_sub_adds ip port x) as (H1 & _ & H3).
    split; [by apply append_match_squeeze, H1|by apply H3]. }
  destruct (Hstep content Hm) as [Hm1 Hl1].
  split; [|split; [done|]].
  - unfold isolinux_pattern at 1. by apply has_match_tails.
  - destruct (Hstep _ Hm1) as [_ Hl2]. intros E. rewrite E in Hl2. lia.
Qed.

Lemma isolinux_patch_never_idempotent_witness :
  existsb (matches_at (rules Isolinux (s2t "10.0.2.2") 8080))
    (tails (patch_text (rules Isolinux (s2t "10.0.2.2") 8080)
              (s2t "append initrd=/casper/initrd"))) = true
  ∧ (length (unspaced (s2t "append initrd=/casper/initrd"))
     < length (unspaced (patch_text (rules Isolinux (s2t "10.0.2.2") 8080)
                           (s2t "append initrd=/casper/initrd"))))%nat
  ∧ patch_text (rules Isolinux (s2t "10.0.2.2") 8080)
      (patch_text (rules Isolinux (s2t "10.0.2.2") 8080)
         (s2t "append initrd=/casper/initrd"))
    ≠ patch_text (rules Isolinux (s2t "10.0.2.2") 8080)
        (s2t "append initrd=/casper/initrd").
Proof.
  apply (isolinux_patch_never_idempotent (s2t "10.0.2.2") 8080
           (s2t "append initrd=/casper/initrd")).
  - reflexivity.
  - vm_compute. reflexivity.
Defined.

(** ** The stages of the build *)

Lemma modify_each_spec configs patterns n w :
  ∃ n' w',
    modify_each configs patterns n w = (inr n', w')
    ∧ calls w' = calls w
    ∧ (n <= n' <= n + length configs)%nat
    ∧ forall q, q ∉ configs -> q ∉ map backup_path configs ->
                files w' !! q = files w !! q.
Proof.
  revert n w. induction configs as [|p configs IH]; intros n w.
  - exists n, w. cbn [modify_each length]. split; [done|]. split; [done|].
    split; [lia|done].
  - cbn [modify_each]. munfold.
    destruct (modify_file_with_patterns p patterns w) as [r w1] eqn:E.
    assert (H : ∃ b, r = inr b ∧ calls w1 = calls w
                     ∧ forall q, q ≠ p -> q ≠ backup_path p ->
                                 files w1 !! q = files w !! q).
    { apply patcher_cases in E
        as [[-> ->]|[(c & m & wr & bak & _ & _ & -> & ->)
           |[(c & m & _ & _ & _ & -> & ->)|(c & m & _ & _ & -> & ->)]]].
      - by exists false.
      - exists false. split; [done|]. split; [done|]. intros q _ Hq.
        cbn [files]. by rewrite lookup_insert_ne.
      - exists false. split; [done|]. split; [done|]. intros q Hp Hq.
        cbn [files]. by rewrite !lookup_insert_ne.
      - exists true. split; [done|]. split; [done|]. intros q Hp Hq.
        cbn [files]. by rewrite !lookup_insert_ne. }
    destruct H as (b & -> & Hc & Hf).
    destruct (IH (if b then S n else n) w1) as (n' & w' & -> & Hc' & Hn & Hf').
    exists n', w'. split; [done|]. split; [congruence|]. split.
    + cbn [length]. destruct b; lia.
    + intros q Hq Hb. cbn [map] in Hb.
      apply not_elem_of_cons in Hq as [Hq1 Hq2].
      apply not_elem_of_cons in Hb as [Hb1 Hb2].
      rewrite Hf' by done. by apply Hf.
Qed.

Lemma pjoin_prefix root p name : root `prefix_of` p -> root `prefix_of` pjoin p name.
Proof. intros [k ->]. unfold pjoin. rewrite <- app_assoc. by eexists. Qed.

Lemma pjoin_under root name : (root ++ s2t "/") `prefix_of` pjoin root name.
Proof. unfold pjoin. rewrite app_assoc. by eexists. Qed.

Lemma backup_prefix root p : root `prefix_of` p -> root `prefix_of` backup_path p.
Proof. intros [k ->]. unfold backup_path. rewrite <- app_assoc. by eexists. Qed.

Lemma lookup_chmodded root fs p :
  chmodded root fs !! p
  = match fs !! p with
    | Some (File content size wr) =>
        Some (File content size
                (if bool_decide ((root ++ s2t "/") `prefix_of` p) then true else wr))
    | Some Dir => Some Dir
    | None => None
    end.
Proof.
  unfold chmodded, chmod_tree. cbn [snd files]. rewrite map_lookup_imap.
  destruct (fs !! p) as [[c n wr|]|]; cbn; [|done|done].
  by destruct (bool_decide _).
Qed.

Section Stages.

Variable source_iso output_iso : text.
Variable http_ip : text.
Variable http_port : Z.
Variable work_dir : text.
Variable which : text -> bool.
Variable subprocess_run : list text -> gmap text node -> outcome * gmap text node.
Variable shlex_split : text -> option (list text).
Variable search_version : text -> option text.

Lemma configs_under q :
  q ∈ grub_configs work_dir ++ isolinux_configs work_dir ->
  (iso_dir work_dir ++ s2t "/") `prefix_of` q.
Proof.
  unfold grub_configs, isolinux_configs. cbn [app].
  intros H. repeat (apply elem_of_cons in H as [->|H]);
    try (solve [repeat (first [apply pjoin_under | apply pjoin_prefix])]).
  by apply elem_of_nil in H.
Qed.

Lemma modify_boot_configs_spec w :
  ∃ n w',
    modify_boot_configs http_ip http_port work_dir w = (inr n, w')
    ∧ calls w' = calls w
    ∧ (n <= 7)%nat
    ∧ forall q, ¬ (iso_dir work_dir ++ s2t "/") `prefix_of` q ->
                files w' !! q = files w !! q.
Proof.
  unfold modify_boot_configs. munfold.
  destruct (modify_each_spec (grub_configs work_dir)
              (grub_patterns http_ip http_port) 0 w)
    as (n1 & w1 & -> & Hc1 & Hn1 & Hf1).
  destruct (modify_each_spec (isolinux_configs work_dir)
              [isolinux_pattern http_ip http_port] n1 w1)
    as (n2 & w2 & -> & Hc2 & Hn2 & Hf2).
  exists n2, w2. split; [done|]. split; [congruence|]. split.
  { cbn [grub_configs isolinux_configs length] in *. lia. }
  intros q Hq.
  assert (Hout : forall l,
             (forall x, x ∈ l ->
                x ∈ grub_configs work_dir ++ isolinux_configs work_dir) ->
             (q ∉ l) ∧ (q ∉ map backup_path l)).
  { intros l Hl. split.
    - intros Hin. apply Hq, configs_under, Hl, Hin.
    - intros Hin. apply list_elem_of_fmap in Hin as (x & -> & Hx).
      apply Hq, backup_prefix, configs_under, Hl, Hx. }
  rewrite Hf2, Hf1; [done|..].
  - apply Hout. intros x Hx. apply elem_of_app. by left.
  - apply Hout. intros x Hx. apply elem_of_app. by left.
  - apply Hout. intros x Hx. apply elem_of_app. by right.
  - apply Hout. intros x Hx. apply elem_of_app. by right.
Qed.

Lemma check_dependencies_cases w :
  check_dependencies which w
  = (if which (s2t "xorriso") then inr tt else inl (RuntimeError MissingTools), w).
Proof.
  unfold check_dependencies. cbn [List.filter].
  by destruct (which (s2t "xorriso")).
Qed.

Lemma validate_iso_cases w :
  (files w !! source_iso = None
   ∧ validate_iso source_iso work_dir subprocess_run search_version w
     = (inl FileNotFoundError, w))
  ∨ (is_Some (files w !! source_iso)
     ∧ ∃ v,
         validate_iso source_iso work_dir subprocess_run search_version w
         = (inr v,
            World (subprocess_run (format_cmd source_iso)
                     (subprocess_run (version_cmd source_iso work_dir)
                        (files w)).2).2
              (calls w ++ [version_cmd source_iso work_dir;
                           format_cmd source_iso]))).
Proof.
  unfold validate_iso. munfold.
  destruct (files w !! source_iso) as [n|] eqn:E.
  - right. split; [done|]. rewrite (path_exists_file _ _ _ E). cbn [negb].
    destruct (detect_version_runs source_iso work_dir subprocess_run
                search_version w) as [v1 ->].
    destruct (detect_format_runs source_iso subprocess_run
                (World (subprocess_run (version_cmd source_iso work_dir) (files w)).2
                   (calls w ++ [version_cmd source_iso work_dir]))) as [v2 ->].
    exists (v1, v2). cbn [files calls]. by rewrite <- app_assoc.
  - left. split; [done|]. by rewrite (path_exists_absent _ _ E).
Qed.

Lemma extract_iso_cases w :
  (∃ c n b, files w !! iso_dir work_dir = Some (File c n b)
            ∧ extract_iso source_iso work_dir subprocess_run w
              = (inl FileExistsError, w))
  ∨ (∃ o fs1,
       subprocess_run (extract_cmd source_iso work_dir)
         (<[iso_dir work_dir := Dir]> (files w)) = (o, fs1)
       ∧ extract_iso source_iso work_dir subprocess_run w
         = match o with
           | TimedOut =>
               (inl (RuntimeError ExtractionTimedOut),
                World fs1 (calls w ++ [extract_cmd source_iso work_dir]))
           | Completed rc _ _ =>
               if (rc =? 0)%Z
               then (inr tt,
                     World (chmodded (iso_dir work_dir) fs1)
                       (calls w ++ [extract_cmd source_iso work_dir]))
               else (inl (RuntimeError ExtractionFailed),
                     World fs1 (calls w ++ [extract_cmd source_iso work_dir]))
           end).
Proof.
  unfold extract_iso, mkdir, run. munfold. fold (extract_cmd source_iso work_dir).
  destruct (files w !! iso_dir work_dir) as [[c n b|]|] eqn:E.
  - left. by exists c, n, b.
  - right. cbn [files calls].
    destruct (subprocess_run _ _) as [o fs1]. exists o, fs1. split; [done|].
    destruct o as [rc out err|]; [|done]. by destruct (rc =? 0)%Z.
  - right. cbn [files calls].
    destruct (subprocess_run _ _) as [o fs1]. exists o, fs1. split; [done|].
    destruct o as [rc out err|]; [|done]. by destruct (rc =? 0)%Z.
Qed.

Lemma boot_info_eq w :
  boot_info source_iso subprocess_run shlex_split w
  = (match (subprocess_run (report_cmd source_iso) (files w)).1 with
     | TimedOut => inl (RuntimeError BootInfoFailed)
     | Completed rc out _ =>
         if (rc =? 0)%Z
         then match shlex_split (strip out) with
              | Some boot_args => inr boot_args
              | None => inl ValueError
              end
         else inl (RuntimeError BootInfoFailed)
     end,
     World (subprocess_run (report_cmd source_iso) (files w)).2
       (calls w ++ [report_cmd source_iso])).
Proof.
  unfold boot_info, run. munfold.
  destruct (subprocess_run _ _) as [o fs1]. cbn [fst snd].
  destruct o as [rc out err|]; [|done].
  destruct (rc =? 0)%Z; cbn [negb]; [|done].
  by destruct (shlex_split _).
Qed.

Lemma create_iso_eq w boot_args w1 :
  boot_info source_iso subprocess_run shlex_split w = (inr boot_args, w1) ->
  create_iso source_iso output_iso work_dir subprocess_run shlex_split w
  = (match (subprocess_run (mastering_cmd output_iso work_dir boot_args)
              (files w1)).1 with
     | TimedOut => inl (RuntimeError CreationTimedOut)
     | Completed rc _ _ =>
         if (rc =? 0)%Z
         then match (subprocess_run (mastering_cmd output_iso work_dir boot_args)
                       (files w1)).2 !! output_iso with
              | None => inl (RuntimeError OutputNotCreated)
              | Some n =>
                  if (node_size n <? 1048576)%Z
                  then inl (RuntimeError OutputTooSmall)
                  else inr tt
              end
         else inl (RuntimeError CreationFailed)
     end,
     World (subprocess_run (mastering_cmd output_iso work_dir boot_args)
              (files w1)).2
       (calls w1 ++ [mastering_cmd output_iso work_dir boot_args])).
Proof.
  intros Hb. unfold create_iso. munfold. rewrite Hb. unfold run.
  destruct (subprocess_run _ _) as [o fs2]. cbn [fst snd].
  destruct o as [rc out err|]; [|done].
  destruct (rc =? 0)%Z; cbn [negb]; [|done].
  set (w2 := World fs2 _).
  assert (E : files w2 !! output_iso = fs2 !! output_iso) by done.
  destruct (fs2 !! output_iso) as [n|].
  - rewrite (path_exists_file _ _ _ E). cbn [negb]. rewrite (stat_size_node _ _ _ E).
    by destruct (node_size n <? 1048576)%Z.
  - by rewrite (path_exists_absent _ _ E).
Qed.

Lemma create_iso_raise w e w1 :
  boot_info source_iso subprocess_run shlex_split w = (inl e, w1) ->
  create_iso source_iso output_iso work_dir subprocess_run shlex_split w
  = (inl e, w1).
Proof. intros Hb. unfold create_iso. munfold. by rewrite Hb. Qed.

Lemma detect_version_sound w version w1 :
  detect_version source_iso work_dir subprocess_run search_version w
    = (inr version, w1) ->
  version = unknown
  ∨ ∃ stdout stderr fs1 content size wr,
      subprocess_run (version_cmd source_iso work_dir) (files w)
        = (Completed 0 stdout stderr, fs1)
      ∧ fs1 !! pjoin work_dir "info.txt" = Some (File content size wr)
      ∧ search_version content = Some version.
Proof.
  unfold detect_version, run. munfold.
  destruct (subprocess_run (version_cmd source_iso work_dir) (files w))
    as [o fs1] eqn:Hr.
  destruct o as [rc out err|]; [|intros [= <- _]; by left].
  destruct (rc =? 0)%Z eqn:Hrc; [|intros [= <- _]; by left].
  apply Z.eqb_eq in Hrc as ->.
  set (w0 := World fs1 _).
  destruct (files w0 !! pjoin work_dir "info.txt") as [[c n wr|]|] eqn:E.
  - rewrite (path_exists_file _ _ _ E), (read_text_file _ _ _ _ _ E).
    destruct (search_version c) as [v|] eqn:Hs; intros [= <- _]; [|by left].
    right. by exists out, err, fs1, c, n, wr.
  - rewrite (path_exists_file _ _ _ E). unfold read_text. rewrite E.
    intros [= <- _]. by left.
  - rewrite (path_exists_absent _ _ E). intros [= <- _]. by left.
Qed.

Lemma detect_format_sound w iso_format w1 :
  detect_format source_iso subprocess_run w = (inr iso_format, w1) ->
  iso_format = unknown
  ∨ ∃ stdout stderr fs1 marker,
      subprocess_run (format_cmd source_iso) (files w)
        = (Completed 0 stdout stderr, fs1)
      ∧ contains marker stdout = true
      ∧ (marker, iso_format)
        ∈ [(s2t "casper/vmlinuz", s2t "Live Server");
           (s2t "boot/grub", s2t "GRUB EFI");
           (s2t "1-Boot-NoEmul.img", s2t "Legacy Boot")].
Proof.
  unfold detect_format, run. munfold.
  destruct (subprocess_run (format_cmd source_iso) (files w)) as [o fs1] eqn:Hr.
  destruct o as [rc out err|]; [|intros [= <- _]; by left].
  destruct (rc =? 0)%Z eqn:Hrc; [|intros [= <- _]; by left].
  apply Z.eqb_eq in Hrc as ->.
  destruct (contains (s2t "casper/vmlinuz") out) eqn:H1.
  { intros [= <- _]. right. exists out, err, fs1, (s2t "casper/vmlinuz").
    split; [done|]. split; [done|]. apply elem_of_cons. by left. }
  destruct (contains (s2t "boot/grub") out) eqn:H2.
  { intros [= <- _]. right. exists out, err, fs1, (s2t "boot/grub").
    split; [done|]. split; [done|]. apply elem_of_cons. right.
    apply elem_of_cons. by left. }
  destruct (contains (s2t "1-Boot-NoEmul.img") out) eqn:H3.
  { intros [= <- _]. right. exists out, err, fs1, (s2t "1-Boot-NoEmul.img").
    split; [done|]. split; [done|]. do 2 (apply elem_of_cons; right).
    apply elem_of_cons. by left. }
  intros [= <- _]. by left.
Qed.

(** X10.  What the inspection reports comes from the image: a version other
    than "Unknown" was found in the [info.txt] that the version command
    extracted with exit status 0, and a format other than "Unknown" is the
    name of a marker that the file listing, ended with exit status 0,
    contains. *)
Theorem validate_iso_reports w version iso_format w1 :
  validate_iso source_iso work_dir subprocess_run search_version w
    = (inr (version, iso_format), w1) ->
  (version = unknown
   ∨ ∃ stdout stderr fs1 content size wr,
       subprocess_run (version_cmd source_iso work_dir) (files w)
         = (Completed 0 stdout stderr, fs1)
       ∧ fs1 !! pjoin work_dir "info.txt" = Some (File content size wr)
       ∧ search_version content = Some version)
  ∧ (iso_format = unknown
     ∨ ∃ stdout stderr fs2 marker,
         subprocess_run (format_cmd source_iso)
           (subprocess_run (version_cmd source_iso work_dir) (files w)).2
           = (Completed 0 stdout stderr, fs2)
         ∧ contains marker stdout = true
         ∧ (marker, iso_format)
           ∈ [(s2t "casper/vmlinuz", s2t "Live Server");
              (s2t "boot/grub", s2t "GRUB EFI");
              (s2t "1-Boot-NoEmul.img", s2t "Legacy Boot")]).
Proof.
  unfold validate_iso. munfold.
  destruct (path_exists source_iso w) as [[e|present] w0] eqn:Hp.
  { unfold path_exists in Hp. done. }
  assert (w0 = w) as -> by (unfold path_exists in Hp; congruence).
  destruct (negb present); [done|].
  destruct (detect_version source_iso work_dir subprocess_run search_version w)
    as [[e|v] wv] eqn:Hv; [done|].
  destruct (detect_format source_iso subprocess_run wv) as [[e|f] wf] eqn:Hf; [done|].
  intros [= <- <- <-].
  split; [by eapply detect_version_sound|].
  destruct (detect_version_runs source_iso work_dir subprocess_run search_version w)
    as [v' Hv']. rewrite Hv in Hv'. injection Hv' as _ ->.
  apply detect_format_sound in Hf. exact Hf.
Qed.

(** X11.  The patching of the boot configs never fails and runs no command;
    it reports at most seven modified files; and it leaves every path that is
    not under the extracted tree as it was: the source image, an output image
    and any other file outside [iso_dir] are not touched by it. *)
Theorem patching_stays_in_tree w r w' :
  modify_boot_configs http_ip http_port work_dir w = (r, w') ->
  (∃ n, r = inr n ∧ (n <= 7)%nat)
  ∧ calls w' = calls w
  ∧ forall q : text, ¬ (iso_dir work_dir ++ s2t "/") `prefix_of` q ->
                     files w' !! q = files w !! q.
Proof.
  destruct (modify_boot_configs_spec w) as (n & w2 & -> & Hc & Hn & Hf).
  intros [= <- <-]. eauto.
Qed.

(** X12.  After an extraction that succeeds, every file under the extracted
    tree may be written; and the loop that sets the modes changes nothing
    else: each path holds what the extraction command left there, with the
    same text and size, and outside the tree with the same mode. *)
Theorem extract_iso_makes_writable w w' :
  extract_iso source_iso work_dir subprocess_run w = (inr tt, w') ->
  ∃ stdout stderr fs1,
    subprocess_run (extract_cmd source_iso work_dir)
      (<[iso_dir work_dir := Dir]> (files w)) = (Completed 0 stdout stderr, fs1)
    ∧ calls w' = calls w ++ [extract_cmd source_iso work_dir]
    ∧ (forall p content size wr,
         files w' !! p = Some (File content size wr) ->
         (iso_dir work_dir ++ s2t "/") `prefix_of` p -> wr = true)
    ∧ (forall p,
         files w' !! p
         = match fs1 !! p with
           | Some (File content size wr) =>
               Some (File content size
                       (if bool_decide ((iso_dir work_dir ++ s2t "/") `prefix_of` p)
                        then true else wr))
           | Some Dir => Some Dir
           | None => None
           end).
Proof.
  destruct (extract_iso_cases w)
    as [(c & n & b & _ & ->)|(o & fs1 & Hr & ->)]; [done|].
  destruct o as [rc out err|]; [|done].
  destruct (rc =? 0)%Z eqn:Hrc; [|done].
  apply Z.eqb_eq in Hrc as ->.
  intros [= <-]. exists out, err, fs1. split; [done|]. split; [done|].
  cbn [files]. split.
  - intros p content size wr. rewrite lookup_chmodded.
    destruct (fs1 !! p) as [[c n wr0|]|]; [|done|done].
    intros [= -> -> <-] Hp. by rewrite bool_decide_eq_true_2.
  - intros p. rewrite lookup_chmodded. by destruct (fs1 !! p) as [[c n wr0|]|].
Qed.

(** X13.  An extraction that fails raises one of three errors:
    [FileExistsError] when [iso_dir] is a file, with no command run; and,
    after the extraction command has run, "ISO extraction failed" for an exit
    status that is not 0 and "ISO extraction timed out" for a time-out, with
    the files as the command left them. *)
Theorem extract_iso_failure w e w' :
  extract_iso source_iso work_dir subprocess_run w = (inl e, w') ->
  (e = FileExistsError ∧ w' = w
   ∧ ∃ c n b, files w !! iso_dir work_dir = Some (File c n b))
  ∨ (calls w' = calls w ++ [extract_cmd source_iso work_dir]
     ∧ ∃ o, subprocess_run (extract_cmd source_iso work_dir)
              (<[iso_dir work_dir := Dir]> (files w)) = (o, files w')
            ∧ match o with
              | TimedOut => e = RuntimeError ExtractionTimedOut
              | Completed rc _ _ => rc ≠ 0%Z ∧ e = RuntimeError ExtractionFailed
              end).
Proof.
  destruct (extract_iso_cases w)
    as [(c & n & b & Hf & ->)|(o & fs1 & Hr & ->)].
  { intros [= <- <-]. left. eauto 6. }
  destruct o as [rc out err|].
  - destruct (rc =? 0)%Z eqn:Hrc; [done|]. apply Z.eqb_neq in Hrc.
    intros [= <- <-]. right. split; [done|]. by eexists.
  - intros [= <- <-]. right. split; [done|]. by eexists.
Qed.

(** X14.  Extraction and patching fit together: in the tree that a
    successful extraction leaves, a config file whose text the patch changes
    is always rewritten and backed up, also when the image held it read-only,
    as long as its backup path is no directory and the texts can be
    encoded. *)
Theorem extracted_config_is_patched w w1 (file_path : text) patterns content
    size wr :
  extract_iso source_iso work_dir subprocess_run w = (inr tt, w1) ->
  (iso_dir work_dir ++ s2t "/") `prefix_of` file_path ->
  files w1 !! file_path = Some (File content size wr) ->
  files w1 !! backup_path file_path ≠ Some Dir ->
  patch_text patterns content ≠ content ->
  existsb is_surrogate content = false ->
  existsb is_surrogate (patch_text patterns content) = false ->
  modify_file_with_patterns file_path patterns w1
  = (inr true,
     World (<[file_path := File (patch_text patterns content)
                            (utf8_len (patch_text patterns content)) true]>
              (<[backup_path file_path := File content (utf8_len content) true]>
                 (files w1))) (calls w1)).
Proof.
  intros He Hp Hf Hb Hc Hs1 Hs2.
  assert (Hw : forall p c n b, files w1 !! p = Some (File c n b) ->
                 (iso_dir work_dir ++ s2t "/") `prefix_of` p -> b = true).
  { destruct (extract_iso_cases w)
      as [(c & n & b & _ & E)|(o & fs1 & Hr & E)]; rewrite E in He; [done|].
    destruct o as [rc out err|]; [|done].
    destruct (rc =? 0)%Z; [|done]. injection He as <-.
    intros p c n b. cbn [files]. rewrite lookup_chmodded.
    destruct (fs1 !! p) as [[c0 n0 wr0|]|]; [|done|done].
    intros [= -> -> <-] Hpre. by rewrite bool_decide_eq_true_2. }
  assert (wr = true) as -> by (by eapply Hw).
  assert (Hcw : can_write (files w1 !! backup_path file_path) = true).
  { destruct (files w1 !! backup_path file_path) as [[c n b|]|] eqn:Eb; [|done|done].
    rewrite (Hw _ _ _ _ Eb); [done|by apply backup_prefix]. }
  unfold modify_file_with_patterns. munfold.
  rewrite (path_exists_file _ _ _ Hf). cbn [negb].
  rewrite (read_text_file _ _ _ _ _ Hf).
  fold (patch_text patterns content). unfold text_eqb.
  rewrite bool_decide_eq_false_2 by done. cbn [negb].
  rewrite write_text_ok by done.
  rewrite write_text_ok; [done|done|].
  cbn [files]. rewrite lookup_insert_ne by apply backup_path_ne. by rewrite Hf.
Qed.

(** X15.  The patching of the boot configs does not change what
    [detect_boot_structure] reports: the three files it looks for are none of
    the seven config files and none of their backups; and the detection
    itself changes nothing. *)
Theorem patching_keeps_boot_structure w r w' :
  modify_boot_configs http_ip http_port work_dir w = (r, w') ->
  detect_boot_structure work_dir w'
  = ((detect_boot_structure work_dir w).1, w').
Proof.
  unfold modify_boot_configs. munfold.
  destruct (modify_each_spec (grub_configs work_dir)
              (grub_patterns http_ip http_port) 0 w)
    as (n1 & w1 & -> & _ & _ & Hf1).
  destruct (modify_each_spec (isolinux_configs work_dir)
              [isolinux_pattern http_ip http_port] n1 w1)
    as (n2 & w2 & -> & _ & _ & Hf2).
  intros [= _ <-].
  assert (Hkeep : forall q : text,
             q ∉ grub_configs work_dir ++ isolinux_configs work_dir ->
             q ∉ map backup_path (grub_configs work_dir ++ isolinux_configs work_dir) ->
             files w2 !! q = files w !! q).
  { intros q Hq Hb. rewrite map_app in Hb.
    apply not_elem_of_app in Hq as [Hq1 Hq2].
    apply not_elem_of_app in Hb as [Hb1 Hb2].
    by rewrite Hf2, Hf1. }
  assert (Hother : forall q : text,
             (∃ rel, q = work_dir ++ rel
                     ∧ forallb (fun p => negb (bool_decide (p = rel)))
                         ((grub_configs [] ++ isolinux_configs [])
                          ++ map backup_path
                               (grub_configs [] ++ isolinux_configs []))
                       = true) ->
             files w2 !! q = files w !! q).
  { intros q (rel & -> & Hrel). apply Hkeep.
    - unfold grub_configs, isolinux_configs, iso_dir, pjoin. cbn [app].
      rewrite <- !app_assoc. intros Hin.
      repeat (apply elem_of_cons in Hin as [Hin|Hin];
              [apply app_inv_head in Hin; subst rel; vm_compute in Hrel; discriminate|]).
      by apply elem_of_nil in Hin.
    - unfold grub_configs, isolinux_configs, iso_dir, pjoin, backup_path.
      cbn [app map]. rewrite <- !app_assoc. intros Hin.
      repeat (apply elem_of_cons in Hin as [Hin|Hin];
              [apply app_inv_head in Hin; subst rel; vm_compute in Hrel; discriminate|]).
      by apply elem_of_nil in Hin. }
  assert (H1 : files w2 !! pjoin (pjoin (pjoin (iso_dir work_dir) "boot") "grub")
                              "efi.img"
               = files w !! pjoin (pjoin (pjoin (iso_dir work_dir) "boot") "grub")
                              "efi.img").
  { apply Hother. exists (s2t "/iso/boot/grub/efi.img"). split; [|by vm_compute].
    unfold iso_dir, pjoin. by rewrite <- !app_assoc. }
  assert (H2 : files w2 !! pjoin (pjoin (pjoin (iso_dir work_dir) "EFI") "boot")
                              "bootx64.efi"
               = files w !! pjoin (pjoin (pjoin (iso_dir work_dir) "EFI") "boot")
                              "bootx64.efi").
  { apply Hother. exists (s2t "/iso/EFI/boot/bootx64.efi"). split; [|by vm_compute].
    unfold iso_dir, pjoin. by rewrite <- !app_assoc. }
  assert (H3 : files w2 !! pjoin (pjoin (iso_dir work_dir) "isolinux")
                              "isolinux.bin"
               = files w !! pjoin (pjoin (iso_dir work_dir) "isolinux")
                              "isolinux.bin").
  { apply Hother. exists (s2t "/iso/isolinux/isolinux.bin"). split; [|by vm_compute].
    unfold iso_dir, pjoin. by rewrite <- !app_assoc. }
  unfold detect_boot_structure, path_exists. munfold.
  cbv beta iota zeta delta [fst]. rewrite H1.
  destruct (bool_decide (is_Some (files w !! _))); cbv beta iota; by rewrite ?H2, H3.
Qed.

(** X16.  Without the boot arguments of the source image there is no
    mastering: when the boot-catalog report times out or exits with a status
    that is not 0, [create_iso] raises "Failed to extract boot information";
    when the report cannot be split into words, the [ValueError] of the
    splitting comes through as it is; in both cases the report is the only
    command run. *)
Theorem create_iso_needs_boot_info w o fs1 :
  subprocess_run (report_cmd source_iso) (files w) = (o, fs1) ->
  (forall stdout stderr boot_args,
     o = Completed 0 stdout stderr -> shlex_split (strip stdout) ≠ Some boot_args) ->
  create_iso source_iso output_iso work_dir subprocess_run shlex_split w
  = (inl match o with
         | Completed 0 _ _ => ValueError
         | _ => RuntimeError BootInfoFailed
         end,
     World fs1 (calls w ++ [report_cmd source_iso])).
Proof.
  intros Hr Hs. apply create_iso_raise. rewrite boot_info_eq, Hr. cbn [fst snd].
  destruct o as [rc out err|]; [|done].
  destruct rc as [|rc|rc]; cbn [Z.eqb]; [|done|done].
  destruct (shlex_split (strip out)) as [args|] eqn:E; [|done].
  by destruct (Hs out err args).
Qed.

(** X17.  A mastering command that times out or exits with a status that is
    not 0 makes [create_iso] fail ("ISO creation timed out", "ISO creation
    failed"), whatever output image the command may have left: the image is
    not looked at then. *)
Theorem create_iso_failed_mastering w boot_args w1 o fs2 :
  boot_info source_iso subprocess_run shlex_split w = (inr boot_args, w1) ->
  subprocess_run (mastering_cmd output_iso work_dir boot_args) (files w1)
    = (o, fs2) ->
  (forall stdout stderr, o ≠ Completed 0 stdout stderr) ->
  create_iso source_iso output_iso work_dir subprocess_run shlex_split w
  = (inl (RuntimeError match o with
                       | TimedOut => CreationTimedOut
                       | Completed _ _ _ => CreationFailed
                       end),
     World fs2 (calls w1 ++ [mastering_cmd output_iso work_dir boot_args])).
Proof.
  intros Hb Hr Ho. rewrite (create_iso_eq _ _ _ Hb), Hr. cbn [fst snd].
  destruct o as [rc out err|]; [|done].
  destruct rc as [|rc|rc]; cbn [Z.eqb]; [|done|done].
  by destruct (Ho out err).
Qed.

(** ** The build as a whole *)

(** The ways a build can end, with the commands it has run by then. *)
Lemma build_outcomes validate_only w r w' :
  build source_iso output_iso http_ip http_port work_dir which subprocess_run
    shlex_split search_version validate_only w = (r, w') ->
  ∃ l,
    calls w' = calls w ++ l
    ∧ ((l = [] ∧ w' = w
        ∧ (r = inl (RuntimeError MissingTools) ∨ r = inl FileNotFoundError))
       ∨ (l = [version_cmd source_iso work_dir; format_cmd source_iso]
          ∧ r = inr tt
          ∧ (validate_only = true ∨ is_Some (files w' !! output_iso)))
       ∨ (l = [version_cmd source_iso work_dir; format_cmd source_iso]
          ∧ r = inl FileExistsError)
       ∨ (l = [version_cmd source_iso work_dir; format_cmd source_iso;
               extract_cmd source_iso work_dir]
          ∧ (r = inl (RuntimeError ExtractionFailed)
             ∨ r = inl (RuntimeError ExtractionTimedOut)))
       ∨ (l = [version_cmd source_iso work_dir; format_cmd source_iso;
               extract_cmd source_iso work_dir; report_cmd source_iso]
          ∧ (r = inl (RuntimeError BootInfoFailed) ∨ r = inl ValueError))
       ∨ (∃ boot_args,
            l = [version_cmd source_iso work_dir; format_cmd source_iso;
                 extract_cmd source_iso work_dir; report_cmd source_iso;
                 mastering_cmd output_iso work_dir boot_args]
            ∧ (r = inr tt ->
               ∃ n, files w' !! output_iso = Some n
                    ∧ (1048576 <= node_size n)%Z)
            ∧ (forall e, r = inl e -> ∃ why, e = RuntimeError why))).
Proof.
  unfold build. munfold. rewrite check_dependencies_cases.
  destruct (which (s2t "xorriso")).
  2:{ intros [= <- <-]. exists []. rewrite app_nil_r. split; [done|]. left. eauto. }
  destruct (validate_iso_cases w) as [[_ ->]|[_ [v ->]]].
  { intros [= <- <-]. exists []. rewrite app_nil_r. split; [done|]. left. eauto. }
  set (w1 := World _ _).
  assert (Hc1 : calls w1
                = calls w ++ [version_cmd source_iso work_dir; format_cmd source_iso])
    by done.
  destruct validate_only.
  { intros [= <- <-]. eexists. split; [exact Hc1|]. right. left. eauto. }
  destruct (files w1 !! output_iso) as [n|] eqn:Eo.
  { rewrite (path_exists_file _ _ _ Eo). intros [= <- <-].
    eexists. split; [exact Hc1|]. right. left. rewrite Eo. eauto. }
  rewrite (path_exists_absent _ _ Eo).
  destruct (extract_iso_cases w1) as [(c & n & b & _ & ->)|(o & fs1 & _ & ->)].
  { intros [= <- <-]. eexists. split; [exact Hc1|]. right. right. left. eauto. }
  assert (Hc2 : calls w1 ++ [extract_cmd source_iso work_dir]
                = calls w ++ [version_cmd source_iso work_dir; format_cmd source_iso;
                              extract_cmd source_iso work_dir]).
  { rewrite Hc1. by rewrite <- app_assoc. }
  destruct o as [rc out err|].
  2:{ intros [= <- <-]. eexists. split; [exact Hc2|]. do 3 right. left. eauto. }
  destruct (rc =? 0)%Z.
  2:{ intros [= <- <-]. eexists. split; [exact Hc2|]. do 3 right. left. eauto. }
  set (w2 := World _ _).
  destruct (modify_boot_configs_spec w2) as (k & w3 & -> & Hc3 & _ & _).
  assert (Hc3' : calls w3
                 = calls w ++ [version_cmd source_iso work_dir; format_cmd source_iso;
                               extract_cmd source_iso work_dir])
    by (by rewrite Hc3).
  destruct (boot_info source_iso subprocess_run shlex_split w3) as [rb w4] eqn:Hb.
  pose proof (boot_info_eq w3) as Hq. rewrite Hb in Hq.
  assert (Hc4 : calls w4
                = calls w ++ [version_cmd source_iso work_dir; format_cmd source_iso;
                              extract_cmd source_iso work_dir; report_cmd source_iso]).
  { inversion Hq; subst w4. cbn [calls]. rewrite Hc3'. by rewrite <- app_assoc. }
  destruct rb as [e|boot_args].
  { rewrite (create_iso_raise _ _ _ Hb). intros [= <- <-].
    eexists. split; [exact Hc4|]. do 4 right. left. split; [done|].
    inversion Hq as [[He Hw]]. clear Hw. revert He.
    destruct (subprocess_run (report_cmd source_iso) (files w3)).1
      as [rc' out' err'|]; [|intros [= ->]; by left].
    destruct (rc' =? 0)%Z; [|intros [= ->]; by left].
    destruct (shlex_split (strip out')); [done|intros [= ->]; by right]. }
  rewrite (create_iso_eq _ _ _ Hb).
  intros [= <- <-]. eexists. split.
  { cbn [calls]. rewrite Hc4. by rewrite <- app_assoc. }
  do 5 right. exists boot_args. split; [done|]. cbn [files].
  destruct (subprocess_run (mastering_cmd output_iso work_dir boot_args) (files w4))
    as [o2 fs2]. cbn [fst snd].
  destruct o2 as [rc2 out2 err2|]; [|split; [done|intros e [= <-]; eauto]].
  destruct (rc2 =? 0)%Z; [|split; [done|intros e [= <-]; eauto]].
  destruct (fs2 !! output_iso) as [n|]; [|split; [done|intros e [= <-]; eauto]].
  destruct (node_size n <? 1048576)%Z eqn:Hn; [split; [done|intros e [= <-]; eauto]|].
  split; [|done]. intros _. exists n. split; [done|]. lia.
Qed.

(** X18.  Without the [xorriso] tool a build fails before anything happens:
    it raises "Missing required tools", no command is run and no file is
    touched, in either mode. *)
Theorem build_missing_tool validate_only w :
  which (s2t "xorriso") = false ->
  build source_iso output_iso http_ip http_port work_dir which subprocess_run
    shlex_split search_version validate_only w
  = (inl (RuntimeError MissingTools), w).
Proof.
  intros Hw. unfold build. munfold. rewrite check_dependencies_cases.
  by rewrite Hw.
Qed.

(** X19.  When the tool is there but the source image is not, a build raises
    [FileNotFoundError] without running a command or touching a file, in
    either mode. *)
Theorem build_missing_source validate_only w :
  which (s2t "xorriso") = true ->
  files w !! source_iso = None ->
  build source_iso output_iso http_ip http_port work_dir which subprocess_run
    shlex_split search_version validate_only w
  = (inl FileNotFoundError, w).
Proof.
  intros Hw Hs. unfold build. munfold. rewrite check_dependencies_cases, Hw.
  unfold validate_iso. munfold. by rewrite (path_exists_absent _ _ Hs).
Qed.

(** X20.  In validate-only mode, with the tool and the source image there, a
    build always succeeds: whatever the two inspection commands report (a
    failure, a time-out, a version file that cannot be read), they are the
    only commands run, and the files are the ones these two commands
    leave. *)
Theorem build_validate_only w :
  which (s2t "xorriso") = true ->
  is_Some (files w !! source_iso) ->
  build source_iso output_iso http_ip http_port work_dir which subprocess_run
    shlex_split search_version true w
  = (inr tt,
     World (subprocess_run (format_cmd source_iso)
              (subprocess_run (version_cmd source_iso work_dir) (files w)).2).2
       (calls w ++ [version_cmd source_iso work_dir; format_cmd source_iso])).
Proof.
  intros Hw Hs. unfold build. munfold. rewrite check_dependencies_cases, Hw.
  destruct (validate_iso_cases w) as [[E _]|[_ [v ->]]]; [|done].
  rewrite E in Hs. by destruct Hs.
Qed.

(** X21.  The commands of a build come in one fixed order: however it ends,
    the commands it has run are an initial part of: version report, file
    listing, extraction, boot-catalog report, mastering.  A build that
    succeeds has run either the first two only, or all five. *)
Theorem build_commands_in_order validate_only w r w' :
  build source_iso output_iso http_ip http_port work_dir which subprocess_run
    shlex_split search_version validate_only w = (r, w') ->
  ∃ l boot_args,
    calls w' = calls w ++ l
    ∧ l `prefix_of` [version_cmd source_iso work_dir; format_cmd source_iso;
                     extract_cmd source_iso work_dir; report_cmd source_iso;
                     mastering_cmd output_iso work_dir boot_args]
    ∧ (r = inr tt -> length l = 2%nat ∨ length l = 5%nat).
Proof.
  intros H. apply build_outcomes in H as (l & Hc & H).
  destruct H as [(-> & _ & [->| ->])
               |[(-> & -> & _)
               |[(-> & ->)
               |[(-> & [->| ->])
               |[(-> & [->| ->])
               |(args & -> & _ & _)]]]]];
    try (exists []; exists []; split; [done|]; split; [by eexists|done]);
    try (eexists; exists []; split; [exact Hc|]; split;
         [by eexists|first [done | by left]]).
  eexists; exists args. split; [exact Hc|]. split; [done|]. by right.
Qed.

(** X22.  A build (not in validate-only mode) that reports success leaves an
    output image behind: either it found one after the inspection and ran
    nothing more, or it went through all five commands and the image has at
    least 1 MiB (1048576 bytes). *)
Theorem build_success_has_output w w' :
  build source_iso output_iso http_ip http_port work_dir which subprocess_run
    shlex_split search_version false w = (inr tt, w') ->
  ∃ n,
    files w' !! output_iso = Some n
    ∧ (calls w' = calls w ++ [version_cmd source_iso work_dir; format_cmd source_iso]
       ∨ (1048576 <= node_size n)%Z
         ∧ ∃ boot_args,
             calls w'
             = calls w ++ [version_cmd source_iso work_dir; format_cmd source_iso;
                           extract_cmd source_iso work_dir; report_cmd source_iso;
                           mastering_cmd output_iso work_dir boot_args]).
Proof.
  intros H. apply build_outcomes in H as (l & Hc & H).
  destruct H as [(_ & _ & [[=]|[=]])
               |[(-> & _ & [[=]|[n Hn]])
               |[(_ & [=])
               |[(_ & [[=]|[=]])
               |[(_ & [[=]|[=]])
               |(args & -> & Hok & _)]]]]].
  - exists n. split; [done|]. by left.
  - destruct (Hok eq_refl) as (n & Hn & Hs). exists n. split; [done|].
    right. split; [done|]. by exists args.
Qed.

(** X23.  What a build can raise: a [RuntimeError] with one of its messages,
    [FileNotFoundError] for the source image, [FileExistsError] for an
    [iso_dir] that is a file, or the [ValueError] of a boot-catalog report
    that cannot be split; no error of the patching of the config files (a
    file that cannot be read, written or encoded) ever ends a build. *)
Theorem build_failures validate_only w e w' :
  build source_iso output_iso http_ip http_port work_dir which subprocess_run
    shlex_split search_version validate_only w = (inl e, w') ->
  (∃ why, e = RuntimeError why) ∨ e = FileNotFoundError ∨ e = FileExistsError
  ∨ e = ValueError.
Proof.
  intros H. apply build_outcomes in H as (l & Hc & H).
  destruct H as [(_ & _ & [[= ->]|[= ->]])
               |[(_ & [=] & _)
               |[(_ & [= ->])
               |[(_ & [[= ->]|[= ->]])
               |[(_ & [[= ->]|[= ->]])
               |(args & _ & _ & He)]]]]]; eauto 6.
Qed.

End Stages.

Lemma patching_stays_in_tree_witness :
  (∃ n, (modify_boot_configs (s2t "10.0.2.2") 8080 (s2t "/tmp/w")
           (demo_tree true)).1 = inr n ∧ (n <= 7)%nat)
  ∧ calls (modify_boot_configs (s2t "10.0.2.2") 8080 (s2t "/tmp/w")
             (demo_tree true)).2 = calls (demo_tree true)
  ∧ forall q : text,
      ¬ (iso_dir (s2t "/tmp/w") ++ s2t "/") `prefix_of` q ->
      files (modify_boot_configs (s2t "10.0.2.2") 8080 (s2t "/tmp/w")
               (demo_tree true)).2 !! q
      = files (demo_tree true) !! q.
Proof.
  apply (patching_stays_in_tree (s2t "10.0.2.2") 8080 (s2t "/tmp/w")
           (demo_tree true)).
  vm_compute. reflexivity.
Defined.

Lemma extract_iso_makes_writable_witness :
  ∃ stdout stderr fs1,
    demo_pipeline (extract_cmd (s2t "ubuntu.iso") (s2t "/tmp/w"))
      (<[iso_dir (s2t "/tmp/w") := Dir]> (files demo_world))
    = (Completed 0 stdout stderr, fs1)
    ∧ calls (extract_iso (s2t "ubuntu.iso") (s2t "/tmp/w") demo_pipeline
               demo_world).2
      = calls demo_world ++ [extract_cmd (s2t "ubuntu.iso") (s2t "/tmp/w")]
    ∧ (forall p content size wr,
         files (extract_iso (s2t "ubuntu.iso") (s2t "/tmp/w") demo_pipeline
                  demo_world).2 !! p
         = Some (File content size wr) ->
         (iso_dir (s2t "/tmp/w") ++ s2t "/") `prefix_of` p -> wr = true)
    ∧ (forall p,
         files (extract_iso (s2t "ubuntu.iso") (s2t "/tmp/w") demo_pipeline
                  demo_world).2 !! p
         = match fs1 !! p with
           | Some (File content size wr) =>
               Some (File content size
                       (if bool_decide
                             ((iso_dir (s2t "/tmp/w") ++ s2t "/") `prefix_of` p)
                        then true else wr))
           | Some Dir => Some Dir
           | None => None
           end).
Proof.
  apply (extract_iso_makes_writable (s2t "ubuntu.iso") (s2t "/tmp/w")
           demo_pipeline demo_world).
  vm_compute. reflexivity.
Defined.

Lemma extract_iso_failure_witness :
  (RuntimeError ExtractionFailed = FileExistsError
   ∧ (extract_iso (s2t "ubuntu.iso") (s2t "/tmp/w") demo_run demo_world).2
     = demo_world
   ∧ ∃ c n b, files demo_world !! iso_dir (s2t "/tmp/w") = Some (File c n b))
  ∨ (calls (extract_iso (s2t "ubuntu.iso") (s2t "/tmp/w") demo_run demo_world).2
     = calls demo_world ++ [extract_cmd (s2t "ubuntu.iso") (s2t "/tmp/w")]
     ∧ ∃ o,
         demo_run (extract_cmd (s2t "ubuntu.iso") (s2t "/tmp/w"))
           (<[iso_dir (s2t "/tmp/w") := Dir]> (files demo_world))
         = (o, files (extract_iso (s2t "ubuntu.iso") (s2t "/tmp/w") demo_run
                        demo_world).2)
         ∧ match o with
           | TimedOut =>
               RuntimeError ExtractionFailed = RuntimeError ExtractionTimedOut
           | Completed rc _ _ =>
               rc ≠ 0%Z
               ∧ RuntimeError ExtractionFailed = RuntimeError ExtractionFailed
           end).
Proof.
  apply (extract_iso_failure (s2t "ubuntu.iso") (s2t "/tmp/w") demo_run
           demo_world).
  vm_compute. reflexivity.
Defined.

Lemma extracted_config_is_patched_witness :
  modify_file_with_patterns demo_config (grub_patterns (s2t "10.0.2.2") 8080)
    (extract_iso (s2t "ubuntu.iso") (s2t "/tmp/w") demo_pipeline demo_world).2
  = (inr true,
     World
       (<[demo_config :=
            File (patch_text (grub_patterns (s2t "10.0.2.2") 8080)
                    (s2t "linux /casper/vmlinuz"))
              (utf8_len (patch_text (grub_patterns (s2t "10.0.2.2") 8080)
                           (s2t "linux /casper/vmlinuz"))) true]>
          (<[backup_path demo_config :=
               File (s2t "linux /casper/vmlinuz")
                 (utf8_len (s2t "linux /casper/vmlinuz")) true]>
             (files (extract_iso (s2t "ubuntu.iso") (s2t "/tmp/w") demo_pipeline
                       demo_world).2)))
       (calls (extract_iso (s2t "ubuntu.iso") (s2t "/tmp/w") demo_pipeline
                 demo_world).2)).
Proof.
  apply (extracted_config_is_patched (s2t "ubuntu.iso") (s2t "/tmp/w")
           demo_pipeline demo_world
           (extract_iso (s2t "ubuntu.iso") (s2t "/tmp/w") demo_pipeline
              demo_world).2
           demo_config (grub_patterns (s2t "10.0.2.2") 8080)
           (s2t "linux /casper/vmlinuz") 21 true).
  - vm_compute. reflexivity.
  - exists (s2t "boot/grub/grub.cfg"). reflexivity.
  - vm_compute. reflexivity.
  - vm_compute. discriminate.
  - vm_compute. discriminate.
  - vm_compute. reflexivity.
  - vm_compute. reflexivity.
Defined.

Lemma create_iso_needs_boot_info_witness :
  create_iso (s2t "ubuntu.iso") (s2t "out.iso") (s2t "/tmp/w") demo_run
    (fun _ => None) demo_world
  = (inl ValueError,
     World (files demo_world)
       (calls demo_world ++ [report_cmd (s2t "ubuntu.iso")])).
Proof.
  apply (create_iso_needs_boot_info (s2t "ubuntu.iso") (s2t "out.iso")
           (s2t "/tmp/w") demo_run (fun _ => None) demo_world
           (Completed 0 (s2t "-V Ubuntu -b boot.img
") []) (files demo_world)).
  - vm_compute. reflexivity.
  - discriminate.
Defined.

Lemma create_iso_failed_mastering_witness :
  create_iso (s2t "ubuntu.iso") (s2t "out.iso") (s2t "/tmp/w") demo_broken
    demo_split demo_world
  = (inl (RuntimeError CreationFailed),
     World (files demo_world)
       (calls (World (files demo_world) [report_cmd (s2t "ubuntu.iso")])
        ++ [mastering_cmd (s2t "out.iso") (s2t "/tmp/w")
              [s2t "-V"; s2t "Ubuntu"]])).
Proof.
  apply (create_iso_failed_mastering (s2t "ubuntu.iso") (s2t "out.iso")
           (s2t "/tmp/w") demo_broken demo_split demo_world
           [s2t "-V"; s2t "Ubuntu"]
           (World (files demo_world) [report_cmd (s2t "ubuntu.iso")])
           (Completed 1 [] []) (files demo_world)).
  - vm_compute. reflexivity.
  - vm_compute. reflexivity.
  - discriminate.
Defined.

Lemma build_missing_tool_witness :
  build (s2t "ubuntu.iso") (s2t "out.iso") (s2t "10.0.2.2") 8080 (s2t "/tmp/w")
    (fun _ => false) demo_run demo_split (fun _ => None) false demo_world
  = (inl (RuntimeError MissingTools), demo_world).
Proof.
  apply (build_missing_tool (s2t "ubuntu.iso") (s2t "out.iso") (s2t "10.0.2.2")
           8080 (s2t "/tmp/w") (fun _ => false) demo_run demo_split
           (fun _ => None) false demo_world).
  reflexivity.
Defined.

Lemma build_missing_source_witness :
  build (s2t "ubuntu.iso") (s2t "out.iso") (s2t "10.0.2.2") 8080 (s2t "/tmp/w")
    (fun _ => true) demo_run demo_split (fun _ => None) false (World ∅ [])
  = (inl FileNotFoundError, World ∅ []).
Proof.
  apply (build_missing_source (s2t "ubuntu.iso") (s2t "out.iso")
           (s2t "10.0.2.2") 8080 (s2t "/tmp/w") (fun _ => true) demo_run
           demo_split (fun _ => None) false (World ∅ [])).
  - reflexivity.
  - reflexivity.
Defined.

Lemma build_validate_only_witness :
  demo_build demo_run true demo_world
  = (inr tt,
     World (demo_run (format_cmd (s2t "ubuntu.iso"))
              (demo_run (version_cmd (s2t "ubuntu.iso") (s2t "/tmp/w"))
                 (files demo_world)).2).2
       (calls demo_world ++ [version_cmd (s2t "ubuntu.iso") (s2t "/tmp/w");
                             format_cmd (s2t "ubuntu.iso")])).
Proof.
  apply (build_validate_only (s2t "ubuntu.iso") (s2t "out.iso") (s2t "10.0.2.2")
           8080 (s2t "/tmp/w") (fun _ => true) demo_run demo_split
           (fun _ => None) demo_world).
  - reflexivity.
  - vm_compute. eexists. reflexivity.
Defined.

Lemma build_commands_in_order_witness :
  ∃ l boot_args,
    calls (demo_build demo_pipeline false demo_world).2 = calls demo_world ++ l
    ∧ l `prefix_of` [version_cmd (s2t "ubuntu.iso") (s2t "/tmp/w");
                     format_cmd (s2t "ubuntu.iso");
                     extract_cmd (s2t "ubuntu.iso") (s2t "/tmp/w");
                     report_cmd (s2t "ubuntu.iso");
                     mastering_cmd (s2t "out.iso") (s2t "/tmp/w") boot_args]
    ∧ ((demo_build demo_pipeline false demo_world).1 = inr tt ->
       length l = 2%nat ∨ length l = 5%nat).
Proof.
  apply (build_commands_in_order (s2t "ubuntu.iso") (s2t "out.iso")
           (s2t "10.0.2.2") 8080 (s2t "/tmp/w") (fun _ => true) demo_pipeline
           demo_split (fun _ => None) false demo_world).
  vm_compute. reflexivity.
Defined.

Lemma build_success_has_output_witness :
  ∃ n,
    files (demo_build demo_pipeline false demo_world).2 !! s2t "out.iso" = Some n
    ∧ (calls (demo_build demo_pipeline false demo_world).2
       = calls demo_world ++ [version_cmd (s2t "ubuntu.iso") (s2t "/tmp/w");
                              format_cmd (s2t "ubuntu.iso")]
       ∨ (1048576 <= node_size n)%Z
         ∧ ∃ boot_args,
             calls (demo_build demo_pipeline false demo_world).2
             = calls demo_world
               ++ [version_cmd (s2t "ubuntu.iso") (s2t "/tmp/w");
                   format_cmd (s2t "ubuntu.iso");
                   extract_cmd (s2t "ubuntu.iso") (s2t "/tmp/w");
                   report_cmd (s2t "ubuntu.iso");
                   mastering_cmd (s2t "out.iso") (s2t "/tmp/w") boot_args]).
Proof.
  apply (build_success_has_output (s2t "ubuntu.iso") (s2t "out.iso")
           (s2t "10.0.2.2") 8080 (s2t "/tmp/w") (fun _ => true) demo_pipeline
           demo_split (fun _ => None) demo_world).
  vm_compute. reflexivity.
Defined.

Lemma build_failures_witness :
  (∃ why, RuntimeError ExtractionFailed = RuntimeError why)
  ∨ RuntimeError ExtractionFailed = FileNotFoundError
  ∨ RuntimeError ExtractionFailed = FileExistsError
  ∨ RuntimeError ExtractionFailed = ValueError.
Proof.
  apply (build_failures (s2t "ubuntu.iso") (s2t "out.iso") (s2t "10.0.2.2") 8080
           (s2t "/tmp/w") (fun _ => true) demo_run demo_split (fun _ => None)
           false demo_world (RuntimeError ExtractionFailed)
           (demo_build demo_run false demo_world).2).
  vm_compute. reflexivity.
Defined.

Lemma validate_iso_reports_witness :
  (s2t "22.04" = unknown
   ∨ ∃ stdout stderr fs1 content size wr,
       demo_inspect (version_cmd (s2t "ubuntu.iso") (s2t "/tmp/w")) (files demo_world)
         = (Completed 0 stdout stderr, fs1)
       ∧ fs1 !! pjoin (s2t "/tmp/w") "info.txt" = Some (File content size wr)
       ∧ (fun _ : text => Some (s2t "22.04")) content = Some (s2t "22.04"))
  ∧ (s2t "Live Server" = unknown
     ∨ ∃ stdout stderr fs2 marker,
         demo_inspect (format_cmd (s2t "ubuntu.iso"))
           (demo_inspect (version_cmd (s2t "ubuntu.iso") (s2t "/tmp/w"))
              (files demo_world)).2
           = (Completed 0 stdout stderr, fs2)
         ∧ contains marker stdout = true
         ∧ (marker, s2t "Live Server")
           ∈ [(s2t "casper/vmlinuz", s2t "Live Server");
              (s2t "boot/grub", s2t "GRUB EFI");
              (s2t "1-Boot-NoEmul.img", s2t "Legacy Boot")]).
Proof.
  apply (validate_iso_reports (s2t "ubuntu.iso") (s2t "/tmp/w") demo_inspect
           (fun _ => Some (s2t "22.04")) demo_world (s2t "22.04")
           (s2t "Live Server")
           (validate_iso (s2t "ubuntu.iso") (s2t "/tmp/w") demo_inspect
              (fun _ => Some (s2t "22.04")) demo_world).2).
  vm_compute. reflexivity.
Defined.

Lemma patching_keeps_boot_structure_witness :
  detect_boot_structure (s2t "/tmp/w")
    (modify_boot_configs (s2t "10.0.2.2") 8080 (s2t "/tmp/w") (demo_tree true)).2
  = ((detect_boot_structure (s2t "/tmp/w") (demo_tree true)).1,
     (modify_boot_configs (s2t "10.0.2.2") 8080 (s2t "/tmp/w") (demo_tree true)).2).
Proof.
  apply (patching_keeps_boot_structure (s2t "10.0.2.2") 8080 (s2t "/tmp/w")
           (demo_tree true)
           (modify_boot_configs (s2t "10.0.2.2") 8080 (s2t "/tmp/w")
              (demo_tree true)).1).
  vm_compute. reflexivity.
Defined.
